(** * poly-relayer, package [relayer/poly]: header sync, submission,
      proof composition, epoch detection, scanning and validation.

    A shallow embedding of [src/relayer/poly/poly.go].  Go values are
    modelled as follows:
    - [uint32] / [uint64] are integers in [Z]; every arithmetic result and
      every conversion is wrapped explicitly ([uint32], [uint64] below);
    - [[]byte] is [list byte], [string] is [string];
    - a Go [(T, error)] result is a pair whose second component is an
      [option error] ([None] is [nil]);
    - pointers that the code compares with [nil] are [option]s;
    - a run-time panic (nil dereference, failed type assertion, slice out
      of range) is the [Panics] outcome;
    - remote nodes are capability records / abstract state machines taken
      as section variables. *)

From Stdlib Require Import ZArith List String Ascii Bool Lia.
From Stdlib Require Import Strings.Byte Floats.
Import ListNotations.
Local Open Scope string_scope.
Local Open Scope list_scope.
Local Open Scope Z_scope.

(** ** Machine integers and byte strings *)

Definition bytes := list byte.

(** Result of an unsigned 32-bit operation / the conversion [uint32(x)]. *)
Definition uint32 (z : Z) : Z := z mod 2 ^ 32.

(** Result of an unsigned 64-bit operation / the conversion [uint64(x)]. *)
Definition uint64 (z : Z) : Z := z mod 2 ^ 64.

(** [len(x)] as a Go [int]. *)
Definition len {A : Type} (l : list A) : Z := Z.of_nat (List.length l).

(** [bytes.Equal]. *)
Fixpoint bytes_Equal (a b : bytes) : bool :=
  match a, b with
  | [], [] => true
  | x :: a', y :: b' => Byte.eqb x y && bytes_Equal a' b'
  | _, _ => false
  end.

Lemma byte_eqb_refl (x : byte) : Byte.eqb x x = true.
Proof. now apply Byte.byte_dec_lb. Qed.

Lemma bytes_Equal_spec (a b : bytes) : bytes_Equal a b = true <-> a = b.
Proof.
  revert b; induction a as [|x a IH]; intros [|y b]; simpl; split;
    try congruence; try reflexivity.
  - intros H. apply andb_true_iff in H as [Hx Hab].
    apply Byte.byte_dec_bl in Hx. apply IH in Hab. congruence.
  - intros H. injection H as -> ->. rewrite byte_eqb_refl. simpl. now apply IH.
Qed.

(** [strings.Contains(s, substr)]. *)
Fixpoint strings_Contains (s substr : string) : bool :=
  String.prefix substr s ||
  match s with
  | EmptyString => false
  | String _ s' => strings_Contains s' substr
  end.

(** ** Errors

    Every [fmt.Errorf] site of the file is one constructor that keeps the
    format arguments; errors coming back from an SDK call carry their
    message.  The three sentinels of package [msg] are wrapped with [%w]
    by the sites that name them. *)

Inductive Sentinel := ERR_INVALID_TX | ERR_TX_PROOF_MISSING | ERR_TX_VOILATION.

Inductive error :=
| SdkError (message : string)
  (* hex.DecodeString failures *)
| HexErrLength
| HexInvalidByte (c : ascii)
  (* submit *)
| ErrMissingSrcFields
| ErrDecodeSrcValue (name : string) (cause : error) (value : string)
| ErrDecodeSrcProof (name : string) (cause : error) (proof : string)
| ErrImport (cause : error)
  (* CollectSigs *)
| ErrConvertSig (cause : error)
  (* ComposeTx / GetPolyParams / GetProof *)
| ErrInvalidPolyHash
| ErrDstHeightNotSpecified
| ErrInvalidPolyTx (srcChainId : Z) (polyHash method : string)
| ErrGetCrossStatesProof (cause : error)
| ErrDeserialization (cause : error)
| ErrMerkleValueNotFound
  (* CheckEpoch *)
| ErrKeeperNotProvided
| ErrConsensusPayload (cause : error)
  (* Listener *)
| ErrNoEvent (hash : string)
| ErrProofMissing
| ErrSrcChainMismatch (claimed derived : Z)
| ErrDstChainMismatch (claimed derived : Z)
| ErrToContractMismatch (claimed derived : string).

(** [errors.Is(err, sentinel)]: the sentinel itself or a [%w] wrapping. *)
Definition errors_Is (e : error) (s : Sentinel) : bool :=
  match e, s with
  | ErrInvalidPolyTx _ _ _, ERR_INVALID_TX => true
  | ErrProofMissing, ERR_TX_PROOF_MISSING => true
  | ErrSrcChainMismatch _ _, ERR_TX_VOILATION => true
  | ErrDstChainMismatch _ _, ERR_TX_VOILATION => true
  | ErrToContractMismatch _ _, ERR_TX_VOILATION => true
  | _, _ => false
  end.

(** [err.Error()], as far as the code inspects it: only the message of an
    SDK error is ever searched (by [SubmitHeadersWithLoop]). *)
Definition Error (e : error) : string :=
  match e with
  | SdkError m => m
  | _ => ""
  end.

(** ** Data model *)

(** [types.Header] of the hub chain, the fields the relayer reads. *)
Module types.

Record Header :=
  { Height : Z;
    NextBookkeeper : bytes;
    ConsensusPayload : bytes;
    SigData : list bytes }.

End types.

(** Package [cross_chain_manager/common]. *)
Module ccom.

Record MakeTxParam :=
  { ToContractAddress : bytes; Method : string; Args : bytes }.

Module ToMerkleValue.
Record t :=
  { TxHash : bytes; FromChainID : Z; MakeTxParam : option ccom.MakeTxParam }.
End ToMerkleValue.

End ccom.

Module msg.

(** [msg.Header]: a side-chain header travelling on the sync channel. *)
Record Header := { Height : Z; Data : bytes; Hash : bytes }.

Inductive TxType := SRC | POLY | OTHER.

(** [msg.Tx], the fields this package reads or writes. *)
Record Tx :=
  { TxType_ : TxType;
    Attempts : Z;
    TxId : string;
    MerkleValue : option ccom.ToMerkleValue.t;
    Param : option ccom.MakeTxParam;
    SrcHash : string;
    SrcHeight : Z;
    SrcChainId : Z;
    SrcProof : string;
    SrcEvent : string;
    SrcProofHeight : Z;
    PolyHash : string;
    PolyHeight : Z;
    PolyKey : string;
    PolyHeader : option types.Header;
    AnchorHeader : option types.Header;
    AnchorProof : string;
    AuditPath : bytes;
    DstChainId : Z;
    DstPolyEpochStartHeight : Z;
    DstPolyKeepers : bytes;
    DstProxy : string;
    DstSigs : bytes }.

(** Assignments to single fields. *)
Definition set_Attempts (v : Z) (t : Tx) : Tx :=
  {| TxType_ := TxType_ t; Attempts := v; TxId := TxId t; MerkleValue := MerkleValue t;
     Param := Param t; SrcHash := SrcHash t; SrcHeight := SrcHeight t;
     SrcChainId := SrcChainId t; SrcProof := SrcProof t; SrcEvent := SrcEvent t;
     SrcProofHeight := SrcProofHeight t; PolyHash := PolyHash t;
     PolyHeight := PolyHeight t; PolyKey := PolyKey t; PolyHeader := PolyHeader t;
     AnchorHeader := AnchorHeader t; AnchorProof := AnchorProof t;
     AuditPath := AuditPath t; DstChainId := DstChainId t;
     DstPolyEpochStartHeight := DstPolyEpochStartHeight t;
     DstPolyKeepers := DstPolyKeepers t; DstProxy := DstProxy t; DstSigs := DstSigs t |}.

Definition set_PolyHash (v : string) (t : Tx) : Tx :=
  {| TxType_ := TxType_ t; Attempts := Attempts t; TxId := TxId t;
     MerkleValue := MerkleValue t;
     Param := Param t; SrcHash := SrcHash t; SrcHeight := SrcHeight t;
     SrcChainId := SrcChainId t; SrcProof := SrcProof t; SrcEvent := SrcEvent t;
     SrcProofHeight := SrcProofHeight t; PolyHash := v;
     PolyHeight := PolyHeight t; PolyKey := PolyKey t; PolyHeader := PolyHeader t;
     AnchorHeader := AnchorHeader t; AnchorProof := AnchorProof t;
     AuditPath := AuditPath t; DstChainId := DstChainId t;
     DstPolyEpochStartHeight := DstPolyEpochStartHeight t;
     DstPolyKeepers := DstPolyKeepers t; DstProxy := DstProxy t; DstSigs := DstSigs t |}.

Definition set_PolyHeight (v : Z) (t : Tx) : Tx :=
  {| TxType_ := TxType_ t; Attempts := Attempts t; TxId := TxId t;
     MerkleValue := MerkleValue t;
     Param := Param t; SrcHash := SrcHash t; SrcHeight := SrcHeight t;
     SrcChainId := SrcChainId t; SrcProof := SrcProof t; SrcEvent := SrcEvent t;
     SrcProofHeight := SrcProofHeight t; PolyHash := PolyHash t;
     PolyHeight := v; PolyKey := PolyKey t; PolyHeader := PolyHeader t;
     AnchorHeader := AnchorHeader t; AnchorProof := AnchorProof t;
     AuditPath := AuditPath t; DstChainId := DstChainId t;
     DstPolyEpochStartHeight := DstPolyEpochStartHeight t;
     DstPolyKeepers := DstPolyKeepers t; DstProxy := DstProxy t; DstSigs := DstSigs t |}.

Definition set_PolyHeader (v : option types.Header) (t : Tx) : Tx :=
  {| TxType_ := TxType_ t; Attempts := Attempts t; TxId := TxId t;
     MerkleValue := MerkleValue t;
     Param := Param t; SrcHash := SrcHash t; SrcHeight := SrcHeight t;
     SrcChainId := SrcChainId t; SrcProof := SrcProof t; SrcEvent := SrcEvent t;
     SrcProofHeight := SrcProofHeight t; PolyHash := PolyHash t;
     PolyHeight := PolyHeight t; PolyKey := PolyKey t; PolyHeader := v;
     AnchorHeader := AnchorHeader t; AnchorProof := AnchorProof t;
     AuditPath := AuditPath t; DstChainId := DstChainId t;
     DstPolyEpochStartHeight := DstPolyEpochStartHeight t;
     DstPolyKeepers := DstPolyKeepers t; DstProxy := DstProxy t; DstSigs := DstSigs t |}.

Definition set_AnchorHeader (v : option types.Header) (t : Tx) : Tx :=
  {| TxType_ := TxType_ t; Attempts := Attempts t; TxId := TxId t;
     MerkleValue := MerkleValue t;
     Param := Param t; SrcHash := SrcHash t; SrcHeight := SrcHeight t;
     SrcChainId := SrcChainId t; SrcProof := SrcProof t; SrcEvent := SrcEvent t;
     SrcProofHeight := SrcProofHeight t; PolyHash := PolyHash t;
     PolyHeight := PolyHeight t; PolyKey := PolyKey t; PolyHeader := PolyHeader t;
     AnchorHeader := v; AnchorProof := AnchorProof t;
     AuditPath := AuditPath t; DstChainId := DstChainId t;
     DstPolyEpochStartHeight := DstPolyEpochStartHeight t;
     DstPolyKeepers := DstPolyKeepers t; DstProxy := DstProxy t; DstSigs := DstSigs t |}.

Definition set_AnchorProof (v : string) (t : Tx) : Tx :=
  {| TxType_ := TxType_ t; Attempts := Attempts t; TxId := TxId t;
     MerkleValue := MerkleValue t;
     Param := Param t; SrcHash := SrcHash t; SrcHeight := SrcHeight t;
     SrcChainId := SrcChainId t; SrcProof := SrcProof t; SrcEvent := SrcEvent t;
     SrcProofHeight := SrcProofHeight t; PolyHash := PolyHash t;
     PolyHeight := PolyHeight t; PolyKey := PolyKey t; PolyHeader := PolyHeader t;
     AnchorHeader := AnchorHeader t; AnchorProof := v;
     AuditPath := AuditPath t; DstChainId := DstChainId t;
     DstPolyEpochStartHeight := DstPolyEpochStartHeight t;
     DstPolyKeepers := DstPolyKeepers t; DstProxy := DstProxy t; DstSigs := DstSigs t |}.

(** [tx.MerkleValue, tx.AuditPath, _, err = ...]. *)
Definition set_MerkleValue_AuditPath (v : option ccom.ToMerkleValue.t) (p : bytes)
    (t : Tx) : Tx :=
  {| TxType_ := TxType_ t; Attempts := Attempts t; TxId := TxId t;
     MerkleValue := v;
     Param := Param t; SrcHash := SrcHash t; SrcHeight := SrcHeight t;
     SrcChainId := SrcChainId t; SrcProof := SrcProof t; SrcEvent := SrcEvent t;
     SrcProofHeight := SrcProofHeight t; PolyHash := PolyHash t;
     PolyHeight := PolyHeight t; PolyKey := PolyKey t; PolyHeader := PolyHeader t;
     AnchorHeader := AnchorHeader t; AnchorProof := AnchorProof t;
     AuditPath := p; DstChainId := DstChainId t;
     DstPolyEpochStartHeight := DstPolyEpochStartHeight t;
     DstPolyKeepers := DstPolyKeepers t; DstProxy := DstProxy t; DstSigs := DstSigs t |}.

Definition set_DstSigs (v : bytes) (t : Tx) : Tx :=
  {| TxType_ := TxType_ t; Attempts := Attempts t; TxId := TxId t;
     MerkleValue := MerkleValue t;
     Param := Param t; SrcHash := SrcHash t; SrcHeight := SrcHeight t;
     SrcChainId := SrcChainId t; SrcProof := SrcProof t; SrcEvent := SrcEvent t;
     SrcProofHeight := SrcProofHeight t; PolyHash := PolyHash t;
     PolyHeight := PolyHeight t; PolyKey := PolyKey t; PolyHeader := PolyHeader t;
     AnchorHeader := AnchorHeader t; AnchorProof := AnchorProof t;
     AuditPath := AuditPath t; DstChainId := DstChainId t;
     DstPolyEpochStartHeight := DstPolyEpochStartHeight t;
     DstPolyKeepers := DstPolyKeepers t; DstProxy := DstProxy t; DstSigs := v |}.

End msg.

(** ** [encoding/hex] *)

(** [fromHexChar]: the value of a hexadecimal digit. *)
Definition fromHexChar (c : ascii) : option N :=
  let n := N_of_ascii c in
  if ((48 <=? n) && (n <=? 57))%N then Some (n - 48)%N
  else if ((97 <=? n) && (n <=? 102))%N then Some (n - 97 + 10)%N
  else if ((65 <=? n) && (n <=? 70))%N then Some (n - 65 + 10)%N
  else None.

Definition byte_of_N (n : N) : byte :=
  match Byte.of_N n with Some b => b | None => x00 end.

(** [hex.DecodeString]: the bytes decoded before the first error, and the
    error.  An odd length is reported after the pairs before it were
    decoded, and only if the dangling character is itself a digit. *)
Fixpoint hex_DecodeString (s : string) : bytes * option error :=
  match s with
  | EmptyString => ([], None)
  | String p EmptyString =>
      match fromHexChar p with
      | None => ([], Some (HexInvalidByte p))
      | Some _ => ([], Some HexErrLength)
      end
  | String p (String q rest) =>
      match fromHexChar p, fromHexChar q with
      | None, _ => ([], Some (HexInvalidByte p))
      | Some _, None => ([], Some (HexInvalidByte q))
      | Some a, Some b =>
          let '(bs, err) := hex_DecodeString rest in
          (byte_of_N (a * 16 + b) :: bs, err)
      end
  end.

Definition hexDigit (n : N) : ascii :=
  if (n <? 10)%N then ascii_of_N (48 + n) else ascii_of_N (97 + n - 10).

(** [hex.EncodeToString]. *)
Fixpoint hex_EncodeToString (b : bytes) : string :=
  match b with
  | [] => EmptyString
  | x :: b' =>
      let n := Byte.to_N x in
      String (hexDigit (n / 16)) (String (hexDigit (n mod 16)) (hex_EncodeToString b'))
  end.

(** * Header sync engine *)

Module HeaderSync.

(** [config.HeaderSyncConfig], the fields [startSync] reads. *)
Record HeaderSyncConfig :=
  { Batch : Z; Buffer : Z; Timeout : Z; ChainId : Z }.

(** What [startSync] does that is visible outside: the two ways it
    submits a batch, and a value sent on the [reset] channel.  A
    [CallSubmitHeadersWithLoop] records how many submissions the retry
    loop made (it sleeps one second between two of them). *)
Inductive SyncEvent :=
| CallSubmitHeadersWithLoop (chainId : Z) (headers : list bytes) (attempts : nat)
| CallSubmitHeaders (chainId : Z) (headers : list bytes)
| ResetSignal (height : Z).

(** One thing [select] can deliver in batch mode; the end of the event
    list is the closure of the channel. *)
Inductive SelectEvent :=
| Recv (header : msg.Header)
| TimeAfter.

Section WithNode.

(** The hub-chain node: an abstract state and the three calls used. *)
Variable Node : Type.
Variable SyncBlockHeader : Node -> Z -> list bytes -> (string * option error) * Node.
Variable Confirm : Node -> string -> option error * Node.
Variable GetSideChainHeader : Node -> Z -> Z -> (bytes * option error) * Node.

Variable sync : HeaderSyncConfig.

Definition SubmitHeaders (nd : Node) (chainId : Z) (headers : list bytes)
  : (string * option error) * Node :=
  let '((tx, err), nd1) := SyncBlockHeader nd chainId headers in
  match err with
  | Some e => (("", Some e), nd1)
  | None =>
      let hash := tx in
      let '(err, nd2) := Confirm nd1 hash in
      ((hash, err), nd2)
  end.

(** The fork test of [SubmitHeadersWithLoop]. *)
Definition forkMessage (m : string) : bool :=
  strings_Contains m "parent header not exist"
  || strings_Contains m "missing required field".

(** [SubmitHeadersWithLoop]: [fuel] bounds the number of iterations of
    the [for] loop; [None] means the bound was reached while the loop
    was still retrying.  The result also counts the submissions. *)
Fixpoint SubmitHeadersWithLoop (fuel : nat) (nd : Node) (chainId : Z)
    (headers : list bytes) : option (option error * Node * nat) :=
  match fuel with
  | O => None
  | S fuel' =>
      let '((_, err), nd1) := SubmitHeaders nd chainId headers in
      match err with
      | None => Some (None, nd1, 1%nat)
      | Some e =>
          if forkMessage (Error e) then Some (Some e, nd1, 1%nat)
          else (* time.Sleep(time.Second) *)
            match SubmitHeadersWithLoop fuel' nd1 chainId headers with
            | Some (r, nd2, n) => Some (r, nd2, S n)
            | None => None
            end
      end
  end.

Definition CheckHeaderExistence (nd : Node) (header : msg.Header)
  : (bool * option error) * Node :=
  let '((hash, err), nd1) :=
    GetSideChainHeader nd (ChainId sync) (msg.Height header) in
  match err with
  | Some e => ((false, Some e), nd1)
  | None => ((bytes_Equal hash (msg.Hash header), None), nd1)
  end.

(** Single mode: the body of [for header := range ch] on one header. *)
Definition singleStep (fuel : nat) (nd : Node) (header : msg.Header)
  : option (Node * list SyncEvent) :=
  let '((ok, err), nd1) := CheckHeaderExistence nd header in
  if ok then Some (nd1, [])
  else
    let submitted :=
      match err with
      | None =>
          match SubmitHeadersWithLoop fuel nd1 (ChainId sync) [msg.Data header] with
          | Some (err', nd2, n) =>
              Some (err', nd2,
                    [CallSubmitHeadersWithLoop (ChainId sync) [msg.Data header] n])
          | None => None
          end
      | Some e => Some (Some e, nd1, [])
      end in
    match submitted with
    | None => None
    | Some (err', nd2, evs) =>
        match err' with
        | Some _ => Some (nd2, evs ++ [ResetSignal (uint64 (msg.Height header - 100))])
        | None => Some (nd2, evs)
        end
    end.

Fixpoint singleLoop (fuel : nat) (nd : Node) (ch : list msg.Header)
  : option (Node * list SyncEvent) :=
  match ch with
  | [] => Some (nd, [])
  | header :: ch' =>
      match singleStep fuel nd header with
      | None => None
      | Some (nd1, evs) =>
          match singleLoop fuel nd1 ch' with
          | None => None
          | Some (nd2, evs') => Some (nd2, evs ++ evs')
          end
      end
  end.

(** Batch mode: the local variables of the [COMMIT] loop. *)
Record BatchState :=
  { headers : list bytes; commit : bool; height : Z }.

Definition batchInit : BatchState :=
  {| headers := []; commit := false; height := 0 |}.

(** The [select] statement on a delivered event ([ok] is true). *)
Definition selectStep (st : BatchState) (ev : SelectEvent) : BatchState :=
  match ev with
  | Recv header =>
      let hs := headers st ++ [msg.Data header] in
      {| headers := hs;
         commit := len hs >=? Batch sync;
         height := msg.Height header |}
  | TimeAfter =>
      {| headers := headers st;
         commit := 0 <? len (headers st);
         height := height st |}
  end.

(** The [if commit { ... }] block that follows the [select]. *)
Definition commitBlock (fuel : nat) (nd : Node) (st : BatchState)
  : option (Node * BatchState * list SyncEvent) :=
  if commit st then
    match SubmitHeadersWithLoop fuel nd (ChainId sync) (headers st) with
    | None => None
    | Some (err, nd1, n) =>
        let call := CallSubmitHeadersWithLoop (ChainId sync) (headers st) n in
        let st' := {| headers := []; commit := false; height := height st |} in
        match err with
        | Some _ =>
            Some (nd1, st',
                  [call;
                   ResetSignal
                     (uint64 (uint64 (height st - 100) - uint64 (len (headers st))))])
        | None => Some (nd1, st', [call])
        end
    end
  else Some (nd, st, []).

(** The [COMMIT] loop over the events delivered before closure. *)
Fixpoint batchLoop (fuel : nat) (nd : Node) (st : BatchState)
    (evs : list SelectEvent) : option (Node * BatchState * list SyncEvent) :=
  match evs with
  | [] =>
      (* channel closed: commit = len(headers) > 0; break COMMIT *)
      Some (nd,
            {| headers := headers st;
               commit := 0 <? len (headers st);
               height := height st |},
            [])
  | ev :: evs' =>
      match commitBlock fuel nd (selectStep st ev) with
      | None => None
      | Some (nd1, st1, out) =>
          match batchLoop fuel nd1 st1 evs' with
          | None => None
          | Some (nd2, st2, out') => Some (nd2, st2, out ++ out')
          end
      end
  end.

(** [startSync].  In single mode [chan] holds only [Recv] events (a
    [range] loop has no timer); a [TimeAfter] there is skipped. *)
Definition received (evs : list SelectEvent) : list msg.Header :=
  flat_map (fun ev => match ev with Recv h => [h] | TimeAfter => [] end) evs.

Definition startSync (fuel : nat) (nd : Node) (chan : list SelectEvent)
  : option (Node * list SyncEvent) :=
  if Batch sync =? 1 then singleLoop fuel nd (received chan)
  else
    match batchLoop fuel nd batchInit chan with
    | None => None
    | Some (nd1, st, out) =>
        if 0 <? len (headers st) then
          let '(_, nd2) := SubmitHeaders nd1 (ChainId sync) (headers st) in
          Some (nd2, out ++ [CallSubmitHeaders (ChainId sync) (headers st)])
        else Some (nd1, out)
    end.

(** *** Properties of the retry loop and of the two modes *)

(** The loop can only return an error that it classified as a fork. *)
Lemma SubmitHeadersWithLoop_error fuel : forall nd chainId hs e nd' n,
  SubmitHeadersWithLoop fuel nd chainId hs = Some (Some e, nd', n) ->
  forkMessage (Error e) = true.
Proof.
  induction fuel as [|fuel IH]; intros nd chainId hs e nd' n; simpl; [discriminate|].
  destruct (SubmitHeaders nd chainId hs) as [[h [e0|]] nd1]; [|discriminate].
  destruct (forkMessage (Error e0)) eqn:Hf.
  - intros H; injection H as <- _ _. exact Hf.
  - destruct (SubmitHeadersWithLoop fuel nd1 chainId hs) as [[[r nd2] m]|] eqn:Hr;
      [|discriminate].
    intros H; injection H as -> _ _. eapply IH; eassumption.
Qed.

(** The buffer of batch mode holds the data of the most recently
    received headers, and [height] is the height of the last of them. *)
Definition buffered (rcv : list msg.Header) (st : BatchState) : Prop :=
  exists older recent,
    rcv = older ++ recent
    /\ headers st = map msg.Data recent
    /\ (recent <> [] -> height st = msg.Height (last recent (msg.Build_Header 0 [] []))).

Lemma buffered_select rcv st ev :
  buffered rcv st -> buffered (rcv ++ received [ev]) (selectStep st ev).
Proof.
  intros (older & recent & -> & Hh & Hl).
  destruct ev as [h|]; simpl.
  - exists older, (recent ++ [h]). repeat split.
    + now rewrite app_assoc.
    + now rewrite map_app, Hh.
    + intros _. now rewrite last_last.
  - exists older, recent. rewrite app_nil_r. auto.
Qed.

Lemma buffered_commit rcv fuel nd st nd' st' out :
  buffered rcv st -> commitBlock fuel nd st = Some (nd', st', out) ->
  buffered rcv st'.
Proof.
  intros Hb. unfold commitBlock. destruct (commit st).
  - destruct (SubmitHeadersWithLoop fuel nd (ChainId sync) (headers st))
      as [[[err nd1] n]|]; [|discriminate].
    assert (Hc : buffered rcv {| headers := []; commit := false; height := height st |}).
    { exists rcv, []. rewrite app_nil_r. simpl. repeat split; congruence. }
    destruct err; intros H; injection H as _ <- _; exact Hc.
  - intros H; injection H as _ <- _. exact Hb.
Qed.

Lemma received_cons ev evs : received (ev :: evs) = received [ev] ++ received evs.
Proof. unfold received; simpl. now rewrite app_nil_r. Qed.

Lemma batchLoop_buffered fuel : forall evs rcv nd st nd' st' out,
  buffered rcv st -> batchLoop fuel nd st evs = Some (nd', st', out) ->
  buffered (rcv ++ received evs) st'.
Proof.
  induction evs as [|ev evs IH]; intros rcv nd st nd' st' out Hb; cbn [batchLoop].
  - intros H; injection H as _ <- _. cbn [received flat_map]. rewrite app_nil_r.
    destruct Hb as (older & recent & ? & ? & ?). now exists older, recent.
  - rewrite received_cons.
    destruct (commitBlock fuel nd (selectStep st ev)) as [[[nd1 st1] o1]|] eqn:Hc;
      [|discriminate].
    destruct (batchLoop fuel nd1 st1 evs) as [[[nd2 st2] o2]|] eqn:Hl; [|discriminate].
    intros H; injection H as _ <- _.
    replace (rcv ++ received [ev] ++ received evs)
      with ((rcv ++ received [ev]) ++ received evs) by now rewrite app_assoc.
    eapply IH; [|exact Hl].
    eapply buffered_commit; [|exact Hc]. now apply buffered_select.
Qed.

Lemma selectStep_commit_irrelevant st ev :
  selectStep {| headers := headers st; commit := 0 <? len (headers st);
                height := height st |} ev = selectStep st ev.
Proof. destruct ev; reflexivity. Qed.

(** Running the loop on [evs ++ evs'] is running it on [evs] and going
    on from the state reached ([selectStep] never reads [commit]). *)
Lemma batchLoop_app fuel : forall evs evs' nd st,
  batchLoop fuel nd st (evs ++ evs') =
  match batchLoop fuel nd st evs with
  | None => None
  | Some (nd1, st1, out) =>
      match batchLoop fuel nd1 st1 evs' with
      | None => None
      | Some (nd2, st2, out') => Some (nd2, st2, out ++ out')
      end
  end.
Proof.
  induction evs as [|ev evs IH]; intros evs' nd st; cbn [batchLoop app].
  - destruct evs' as [|ev' evs']; cbn [batchLoop app]; [reflexivity|].
    rewrite selectStep_commit_irrelevant.
    destruct (commitBlock fuel nd (selectStep st ev')) as [[[nd1 st1] o1]|];
      [|reflexivity].
    destruct (batchLoop fuel nd1 st1 evs') as [[[nd2 st2] o2]|]; reflexivity.
  - destruct (commitBlock fuel nd (selectStep st ev)) as [[[nd1 st1] o1]|]; [|reflexivity].
    rewrite IH.
    destruct (batchLoop fuel nd1 st1 evs) as [[[nd2 st2] o2]|]; [|reflexivity].
    destruct (batchLoop fuel nd2 st2 evs') as [[[nd3 st3] o3]|]; [|reflexivity].
    now rewrite app_assoc.
Qed.

Lemma uint64_sub_sub a k :
  uint64 (uint64 (a - 100) - uint64 k) = uint64 (a - 100 - k).
Proof. unfold uint64. now rewrite <- Zminus_mod. Qed.

Lemma uint64_negative z : - 2 ^ 64 <= z < 0 -> uint64 z = 2 ^ 64 + z.
Proof.
  intros Hz. unfold uint64.
  replace z with (2 ^ 64 + z + (-1) * 2 ^ 64) at 1 by lia.
  rewrite Z_mod_plus_full. apply Z.mod_small. lia.
Qed.

Lemma buffered_init : buffered [] batchInit.
Proof. exists [], []. simpl. repeat split; congruence. Qed.

(** What the commit block does when the retry loop gives up. *)
Lemma commitBlock_failure fuel nd st e nd1 n :
  commit st = true ->
  SubmitHeadersWithLoop fuel nd (ChainId sync) (headers st) = Some (Some e, nd1, n) ->
  commitBlock fuel nd st =
  Some (nd1, {| headers := []; commit := false; height := height st |},
        [CallSubmitHeadersWithLoop (ChainId sync) (headers st) n;
         ResetSignal (uint64 (height st - 100 - len (headers st)))]).
Proof.
  intros Hc Hs. unfold commitBlock. now rewrite Hc, Hs, uint64_sub_sub.
Qed.

Lemma singleStep_failure fuel nd header nd1 e nd2 n :
  CheckHeaderExistence nd header = ((false, None), nd1) ->
  SubmitHeadersWithLoop fuel nd1 (ChainId sync) [msg.Data header]
    = Some (Some e, nd2, n) ->
  singleStep fuel nd header =
  Some (nd2, [CallSubmitHeadersWithLoop (ChainId sync) [msg.Data header] n;
              ResetSignal (uint64 (msg.Height header - 100))]).
Proof. intros Hc Hs. unfold singleStep. now rewrite Hc, Hs. Qed.

(** C5.  Single mode: when the existence check errs, or the retry loop
    on the header gives up, the only value sent on the reset channel
    for the header is its height minus 100.  Batch mode: when the retry
    loop gives up on a batch, the buffer holds the data of the [k] most
    recently received headers, the last of them has height [H], and the
    value sent is [H - 100 - k].  Both differences are 64-bit unsigned
    results; they are the integers [H - 100] and [H - 100 - k] whenever
    these are not negative. *)
Theorem rollback_height_on_failure :
  (forall fuel nd header,
     let H := msg.Height header in
     (forall nd1 e,
        CheckHeaderExistence nd header = ((false, Some e), nd1) ->
        singleStep fuel nd header = Some (nd1, [ResetSignal (uint64 (H - 100))]))
     /\
     (forall nd1 e nd2 n,
        CheckHeaderExistence nd header = ((false, None), nd1) ->
        SubmitHeadersWithLoop fuel nd1 (ChainId sync) [msg.Data header]
          = Some (Some e, nd2, n) ->
        singleStep fuel nd header =
        Some (nd2, [CallSubmitHeadersWithLoop (ChainId sync) [msg.Data header] n;
                    ResetSignal (uint64 (H - 100))])))
  /\
  (forall fuel nd evs ev nd1 st1 out1 e nd2 n,
     batchLoop fuel nd batchInit evs = Some (nd1, st1, out1) ->
     commit (selectStep st1 ev) = true ->
     SubmitHeadersWithLoop fuel nd1 (ChainId sync) (headers (selectStep st1 ev))
       = Some (Some e, nd2, n) ->
     exists older recent st2,
       received (evs ++ [ev]) = older ++ recent
       /\ recent <> []
       /\ headers (selectStep st1 ev) = map msg.Data recent
       /\ batchLoop fuel nd batchInit (evs ++ [ev]) =
          Some (nd2, st2,
                out1 ++
                [CallSubmitHeadersWithLoop (ChainId sync) (map msg.Data recent) n;
                 ResetSignal
                   (uint64 (msg.Height (last recent (msg.Build_Header 0 [] []))
                            - 100 - len recent))])
       /\ headers st2 = [])
  /\
  (forall H k, 0 <= k -> 100 + k <= H < 2 ^ 64 ->
               uint64 (H - 100) = H - 100 /\ uint64 (H - 100 - k) = H - 100 - k).
Proof.
  split; [|split].
  - intros fuel nd header H; split.
    + intros nd1 e Hc. unfold singleStep. now rewrite Hc.
    + intros nd1 e nd2 n Hc Hs. now apply singleStep_failure with (nd1 := nd1) (e := e).
  - intros fuel nd evs ev nd1 st1 out1 e nd2 n Hrun Hcommit Hs.
    pose proof (batchLoop_buffered fuel evs [] nd batchInit nd1 st1 out1
                  buffered_init Hrun) as Hb.
    apply (buffered_select _ _ ev) in Hb.
    destruct Hb as (older & recent & Hrcv & Hh & Hl).
    assert (Hne : recent <> []).
    { intros ->. simpl in Hh. destruct ev as [h|]; simpl in Hh, Hcommit.
      - now destruct (headers st1).
      - rewrite Hh in Hcommit. discriminate. }
    exists older, recent. eexists. split; [|split; [exact Hne|split; [exact Hh|]]].
    + unfold received in *. rewrite flat_map_app. exact Hrcv.
    + rewrite batchLoop_app, Hrun. cbn [batchLoop].
      rewrite (commitBlock_failure fuel nd1 _ e nd2 n Hcommit Hs).
      rewrite Hh, (Hl Hne). unfold len. rewrite length_map. simpl. split; reflexivity.
  - intros H k Hk HH. unfold uint64. split; apply Z.mod_small; lia.
Qed.

(** C10 (amended).  For a height below the margin the subtraction wraps:
    in single mode a failing header at height [H < 100] signals
    [2^64 + H - 100]; in batch mode a failing batch with [k] buffered
    headers and [height < 100 + k] signals [2^64 + height - 100 - k]. *)
Theorem rollback_height_wraps :
  (forall fuel nd header nd1 e nd2 n,
     0 <= msg.Height header < 100 ->
     CheckHeaderExistence nd header = ((false, None), nd1) ->
     SubmitHeadersWithLoop fuel nd1 (ChainId sync) [msg.Data header]
       = Some (Some e, nd2, n) ->
     singleStep fuel nd header =
     Some (nd2, [CallSubmitHeadersWithLoop (ChainId sync) [msg.Data header] n;
                 ResetSignal (2 ^ 64 + msg.Height header - 100)]))
  /\
  (forall fuel nd st e nd1 n,
     commit st = true ->
     len (headers st) < 2 ^ 63 ->
     0 <= height st < 100 + len (headers st) ->
     SubmitHeadersWithLoop fuel nd (ChainId sync) (headers st) = Some (Some e, nd1, n) ->
     commitBlock fuel nd st =
     Some (nd1, {| headers := []; commit := false; height := height st |},
           [CallSubmitHeadersWithLoop (ChainId sync) (headers st) n;
            ResetSignal (2 ^ 64 + height st - 100 - len (headers st))])).
Proof.
  split.
  - intros fuel nd header nd1 e nd2 n HH Hc Hs.
    rewrite (singleStep_failure fuel nd header nd1 e nd2 n Hc Hs).
    rewrite uint64_negative by lia.
    now replace (2 ^ 64 + (msg.Height header - 100))
      with (2 ^ 64 + msg.Height header - 100) by lia.
  - intros fuel nd st e nd1 n Hc Hk HH Hs.
    rewrite (commitBlock_failure fuel nd st e nd1 n Hc Hs).
    assert (0 <= len (headers st)) by (unfold len; lia).
    rewrite uint64_negative by lia.
    now replace (2 ^ 64 + (height st - 100 - len (headers st)))
      with (2 ^ 64 + height st - 100 - len (headers st)) by lia.
Qed.


(** ** Further properties of the header sync engine *)

(** The retry loop makes at least one submission and at most [fuel]. *)
Lemma SubmitHeadersWithLoop_attempts fuel : forall nd chainId hs r nd' n,
  SubmitHeadersWithLoop fuel nd chainId hs = Some (r, nd', n) ->
  (1 <= n <= fuel)%nat.
Proof.
  induction fuel as [|fuel IH]; intros nd chainId hs r nd' n; simpl; [discriminate|].
  destruct (SubmitHeaders nd chainId hs) as [[h [e0|]] nd1].
  - destruct (forkMessage (Error e0)).
    + intros H; injection H as _ _ <-. lia.
    + destruct (SubmitHeadersWithLoop fuel nd1 chainId hs) as [[[r' nd2] m]|] eqn:Hr;
        [|discriminate].
      intros H; injection H as _ _ <-. apply IH in Hr. lia.
  - intros H; injection H as _ _ <-. lia.
Qed.

(** A result of the loop does not depend on the bound. *)
Lemma SubmitHeadersWithLoop_more_fuel fuel : forall nd chainId hs res k,
  SubmitHeadersWithLoop fuel nd chainId hs = Some res ->
  SubmitHeadersWithLoop (fuel + k) nd chainId hs = Some res.
Proof.
  induction fuel as [|fuel IH]; intros nd chainId hs res k; simpl; [discriminate|].
  destruct (SubmitHeaders nd chainId hs) as [[h [e0|]] nd1]; [|auto].
  destruct (forkMessage (Error e0)); [auto|].
  destruct (SubmitHeadersWithLoop fuel nd1 chainId hs) as [[[r' nd2] m]|] eqn:Hr;
    [|discriminate].
  intros H. now rewrite (IH _ _ _ _ k Hr).
Qed.

(** X1.  When [SubmitHeadersWithLoop] returns, it returns nil or an error
    whose message holds one of the two fork texts; it made at least one
    submission; and a larger bound on the iterations gives the same
    result. *)
Theorem SubmitHeadersWithLoop_returns (fuel : nat) (nd : Node) (chainId : Z)
    (hs : list bytes) (r : option error) (nd' : Node) (n : nat) :
  SubmitHeadersWithLoop fuel nd chainId hs = Some (r, nd', n) ->
  match r with
  | None => True
  | Some e =>
      strings_Contains (Error e) "parent header not exist" = true
      \/ strings_Contains (Error e) "missing required field" = true
  end
  /\ (1 <= n <= fuel)%nat
  /\ forall k, SubmitHeadersWithLoop (fuel + k) nd chainId hs = Some (r, nd', n).
Proof.
  intros H. split; [|split].
  - destruct r as [e|]; [|exact I].
    apply SubmitHeadersWithLoop_error in H. now apply orb_true_iff in H.
  - eapply SubmitHeadersWithLoop_attempts; eassumption.
  - intros k. now apply SubmitHeadersWithLoop_more_fuel.
Qed.

(** X2.  Single mode skips what the hub already has: when the hub
    answers every received header's height with that header's hash,
    [startSync] submits nothing and signals nothing, whatever the bound
    on the retry loop. *)
Theorem single_mode_skips_known_headers (fuel : nat) (nd : Node)
    (chan : list SelectEvent) :
  Batch sync = 1 ->
  (forall nd0 h, In h (received chan) ->
     exists nd1,
       GetSideChainHeader nd0 (ChainId sync) (msg.Height h)
       = ((msg.Hash h, None), nd1)) ->
  exists nd', startSync fuel nd chan = Some (nd', []).
Proof.
  intros HB Hknown. unfold startSync. rewrite HB. cbn [Z.eqb Pos.eqb].
  revert nd. induction (received chan) as [|h rest IH]; intros nd; simpl.
  - now exists nd.
  - destruct (Hknown nd h (or_introl eq_refl)) as (nd1 & Hg).
    unfold singleStep, CheckHeaderExistence. rewrite Hg.
    replace (bytes_Equal (msg.Hash h) (msg.Hash h)) with true
      by (symmetry; now apply bytes_Equal_spec).
    destruct (IH (fun nd0 h0 Hin => Hknown nd0 h0 (or_intror Hin)) nd1) as (nd' & ->).
    now exists nd'.
Qed.

(** The header data handed to the hub, in order. *)
Definition flushed (out : list SyncEvent) : list bytes :=
  flat_map
    (fun ev =>
       match ev with
       | CallSubmitHeadersWithLoop _ hs _ => hs
       | CallSubmitHeaders _ hs => hs
       | ResetSignal _ => []
       end) out.

Lemma flushed_app (a b : list SyncEvent) : flushed (a ++ b) = flushed a ++ flushed b.
Proof. unfold flushed. apply flat_map_app. Qed.

Lemma selectStep_headers st ev :
  headers (selectStep st ev) = headers st ++ map msg.Data (received [ev]).
Proof. destruct ev; simpl; [reflexivity|now rewrite app_nil_r]. Qed.

Lemma commitBlock_flushed fuel nd st nd' st' out :
  commitBlock fuel nd st = Some (nd', st', out) ->
  headers st = flushed out ++ headers st' /\ height st' = height st.
Proof.
  unfold commitBlock. destruct (commit st).
  - destruct (SubmitHeadersWithLoop fuel nd (ChainId sync) (headers st))
      as [[[err nd1] n]|]; [|discriminate].
    destruct err; intros H; injection H as _ <- <-; simpl;
      now rewrite !app_nil_r.
  - intros H; injection H as _ <- <-. auto.
Qed.

Lemma batchLoop_flushed fuel : forall evs nd st nd' st' out,
  batchLoop fuel nd st evs = Some (nd', st', out) ->
  headers st ++ map msg.Data (received evs) = flushed out ++ headers st'.
Proof.
  induction evs as [|ev evs IH]; intros nd st nd' st' out; cbn [batchLoop].
  - intros H; injection H as _ <- <-. simpl. now rewrite app_nil_r.
  - destruct (commitBlock fuel nd (selectStep st ev)) as [[[nd1 st1] o1]|] eqn:Hc;
      [|discriminate].
    destruct (batchLoop fuel nd1 st1 evs) as [[[nd2 st2] o2]|] eqn:Hl; [|discriminate].
    intros H; injection H as _ <- <-.
    apply commitBlock_flushed in Hc as [Hc _]. apply IH in Hl.
    rewrite received_cons, map_app, app_assoc, <- selectStep_headers, Hc.
    rewrite flushed_app, <- !app_assoc. f_equal. exact Hl.
Qed.

(** When every retry loop returns within the bound, so does batch mode. *)
Lemma batchLoop_returns fuel :
  (forall nd hs, SubmitHeadersWithLoop fuel nd (ChainId sync) hs <> None) ->
  forall evs nd st, batchLoop fuel nd st evs <> None.
Proof.
  intros Hterm. induction evs as [|ev evs IH]; intros nd st; cbn [batchLoop];
    [discriminate|].
  destruct (commitBlock fuel nd (selectStep st ev)) as [[[nd1 st1] o1]|] eqn:Hc.
  - specialize (IH nd1 st1).
    destruct (batchLoop fuel nd1 st1 evs) as [[[nd2 st2] o2]|]; congruence.
  - unfold commitBlock in Hc. destruct (commit (selectStep st ev)); [|discriminate].
    specialize (Hterm nd (headers (selectStep st ev))).
    destruct (SubmitHeadersWithLoop fuel nd (ChainId sync) (headers (selectStep st ev)))
      as [[[err nd1] n]|]; [destruct err; discriminate|congruence].
Qed.

(** X3.  Batch mode neither loses, repeats nor reorders a header: when
    every retry loop returns, [startSync] returns, and the batches it
    handed to the hub, put end to end, are the data of the received
    headers in arrival order (whatever the timer did in between). *)
Theorem batch_mode_flushes_every_header_once (fuel : nat) (nd : Node)
    (chan : list SelectEvent) :
  Batch sync <> 1 ->
  (forall nd0 hs, SubmitHeadersWithLoop fuel nd0 (ChainId sync) hs <> None) ->
  exists nd' out,
    startSync fuel nd chan = Some (nd', out)
    /\ flushed out = map msg.Data (received chan).
Proof.
  intros HB Hterm. unfold startSync.
  apply Z.eqb_neq in HB. rewrite HB.
  pose proof (batchLoop_returns fuel Hterm chan nd batchInit) as Hr.
  destruct (batchLoop fuel nd batchInit chan) as [[[nd1 st] out]|] eqn:Hl; [|congruence].
  apply batchLoop_flushed in Hl. simpl in Hl.
  destruct (0 <? len (headers st)) eqn:Hlen.
  - destruct (SubmitHeaders nd1 (ChainId sync) (headers st)) as [r nd2].
    exists nd2. eexists. split; [reflexivity|].
    rewrite flushed_app. simpl. now rewrite app_nil_r.
  - exists nd1, out. split; [reflexivity|].
    assert (headers st = []) as He.
    { apply Z.ltb_ge in Hlen. unfold len in Hlen. destruct (headers st); [reflexivity|].
      simpl in Hlen. lia. }
    rewrite He, app_nil_r in Hl. now symmetry.
Qed.

(** The size a batch may have: [Batch], or 1 when [Batch] is not
    positive. *)
Definition batchLimit : Z := Z.max (Batch sync) 1.

Definition sizeOk (ev : SyncEvent) : Prop :=
  match ev with
  | CallSubmitHeadersWithLoop _ hs _ => 1 <= len hs <= batchLimit
  | CallSubmitHeaders _ hs => 1 <= len hs < batchLimit
  | ResetSignal _ => True
  end.

Lemma len_app_one {A : Type} (l : list A) (x : A) : len (l ++ [x]) = len l + 1.
Proof. unfold len. rewrite length_app. simpl. lia. Qed.

Lemma len_nonneg {A : Type} (l : list A) : 0 <= len l.
Proof. unfold len. lia. Qed.

Lemma commitBlock_sizes fuel nd st ev nd' st' out :
  len (headers st) < batchLimit ->
  commitBlock fuel nd (selectStep st ev) = Some (nd', st', out) ->
  len (headers st') < batchLimit /\ Forall sizeOk out.
Proof.
  unfold batchLimit. intros Hlt. unfold commitBlock.
  pose proof (len_nonneg (headers st)) as Hnn.
  destruct (commit (selectStep st ev)) eqn:Hc.
  - destruct (SubmitHeadersWithLoop fuel nd (ChainId sync) (headers (selectStep st ev)))
      as [[[err nd1] n]|]; [|discriminate].
    assert (Hsz : 1 <= len (headers (selectStep st ev)) <= Z.max (Batch sync) 1).
    { destruct ev as [h|]; simpl in Hc |- *.
      - rewrite len_app_one. lia.
      - apply Z.ltb_lt in Hc. lia. }
    destruct err; intros H; injection H as _ <- <-; simpl; (split; [unfold len; simpl; lia|]);
      (constructor; [exact Hsz|repeat constructor]).
  - intros H; injection H as _ <- <-. split; [|constructor].
    destruct ev as [h|]; simpl in Hc |- *; [|assumption].
    rewrite len_app_one in *. rewrite Z.geb_leb in Hc. apply Z.leb_gt in Hc. lia.
Qed.

Lemma batchLoop_sizes fuel : forall evs nd st nd' st' out,
  len (headers st) < batchLimit ->
  batchLoop fuel nd st evs = Some (nd', st', out) ->
  len (headers st') < batchLimit /\ Forall sizeOk out.
Proof.
  induction evs as [|ev evs IH]; intros nd st nd' st' out Hlt; cbn [batchLoop].
  - intros H; injection H as _ <- <-. simpl. auto.
  - destruct (commitBlock fuel nd (selectStep st ev)) as [[[nd1 st1] o1]|] eqn:Hc;
      [|discriminate].
    destruct (batchLoop fuel nd1 st1 evs) as [[[nd2 st2] o2]|] eqn:Hl; [|discriminate].
    intros H; injection H as _ <- <-.
    apply (commitBlock_sizes _ _ _ _ _ _ _ Hlt) in Hc as [Hlt1 Ho1].
    apply (IH _ _ _ _ _ Hlt1) in Hl as [Hlt2 Ho2].
    split; [assumption|]. apply Forall_app. auto.
Qed.

(** X4.  In batch mode no empty batch is ever submitted and no batch
    exceeds the batch size: a batch handed to the retry loop has between
    1 and [Batch] headers, and the batch flushed on closure has at least
    1 and fewer than [Batch]. *)
Theorem batch_mode_batch_sizes (fuel : nat) (nd : Node) (chan : list SelectEvent) :
  Batch sync <> 1 ->
  (forall nd0 hs, SubmitHeadersWithLoop fuel nd0 (ChainId sync) hs <> None) ->
  exists nd' out,
    startSync fuel nd chan = Some (nd', out) /\ Forall sizeOk out.
Proof.
  intros HB Hterm. unfold startSync.
  apply Z.eqb_neq in HB. rewrite HB.
  pose proof (batchLoop_returns fuel Hterm chan nd batchInit) as Hr.
  destruct (batchLoop fuel nd batchInit chan) as [[[nd1 st] out]|] eqn:Hl; [|congruence].
  apply batchLoop_sizes in Hl; [|unfold batchLimit, len; simpl; lia].
  destruct Hl as [Hlt Hout].
  destruct (0 <? len (headers st)) eqn:Hlen.
  - destruct (SubmitHeaders nd1 (ChainId sync) (headers st)) as [r nd2].
    exists nd2. eexists. split; [reflexivity|].
    apply Forall_app. split; [assumption|]. repeat constructor.
    + apply Z.ltb_lt in Hlen. lia.
    + assumption.
  - exists nd1, out. auto.
Qed.

(** Rounds of the [COMMIT] loop: each is one call of the retry loop,
    followed by one rollback signal or by none. *)
Inductive rounds : list SyncEvent -> Prop :=
| rounds_nil : rounds []
| rounds_flushed c hs n rest :
    rounds rest -> rounds (CallSubmitHeadersWithLoop c hs n :: rest)
| rounds_rolled_back c hs n v rest :
    rounds rest -> rounds (CallSubmitHeadersWithLoop c hs n :: ResetSignal v :: rest).

Lemma rounds_app a b : rounds a -> rounds b -> rounds (a ++ b).
Proof.
  induction 1; intros Hb; simpl;
    [assumption | apply rounds_flushed | apply rounds_rolled_back]; auto.
Qed.

Lemma batchLoop_rounds fuel : forall evs nd st nd' st' out,
  batchLoop fuel nd st evs = Some (nd', st', out) -> rounds out.
Proof.
  induction evs as [|ev evs IH]; intros nd st nd' st' out; cbn [batchLoop].
  - intros H; injection H as _ _ <-. constructor.
  - destruct (commitBlock fuel nd (selectStep st ev)) as [[[nd1 st1] o1]|] eqn:Hc;
      [|discriminate].
    destruct (batchLoop fuel nd1 st1 evs) as [[[nd2 st2] o2]|] eqn:Hl; [|discriminate].
    intros H; injection H as _ _ <-. apply IH in Hl.
    apply rounds_app; [|assumption].
    unfold commitBlock in Hc. destruct (commit (selectStep st ev)).
    + destruct (SubmitHeadersWithLoop fuel nd (ChainId sync) (headers (selectStep st ev)))
        as [[[err nd3] n]|]; [|discriminate].
      destruct err; injection Hc as _ _ <-;
        [apply rounds_rolled_back | apply rounds_flushed]; constructor.
    + injection Hc as _ _ <-. constructor.
Qed.

(** X5.  The order of events in batch mode: a rollback is signalled only
    directly after a call of the retry loop, at most once per call; the
    single [SubmitHeaders] call on closure, when there is one, is the
    last event, so nothing is signalled for it. *)
Theorem batch_mode_event_order (fuel : nat) (nd : Node) (chan : list SelectEvent) :
  Batch sync <> 1 ->
  (forall nd0 hs, SubmitHeadersWithLoop fuel nd0 (ChainId sync) hs <> None) ->
  exists nd' body final,
    startSync fuel nd chan = Some (nd', body ++ final)
    /\ rounds body
    /\ (final = [] \/ exists hs, final = [CallSubmitHeaders (ChainId sync) hs]).
Proof.
  intros HB Hterm. unfold startSync.
  apply Z.eqb_neq in HB. rewrite HB.
  pose proof (batchLoop_returns fuel Hterm chan nd batchInit) as Hr.
  destruct (batchLoop fuel nd batchInit chan) as [[[nd1 st] out]|] eqn:Hl; [|congruence].
  apply batchLoop_rounds in Hl.
  destruct (0 <? len (headers st)).
  - destruct (SubmitHeaders nd1 (ChainId sync) (headers st)) as [r nd2].
    exists nd2, out. eexists. split; [reflexivity|]. split; [assumption|].
    right. eexists. reflexivity.
  - exists nd1, out, []. rewrite app_nil_r. auto.
Qed.

(** The batches handed to the retry loop, and those handed to
    [SubmitHeaders] directly. *)
Definition loopBatches (out : list SyncEvent) : list (list bytes) :=
  flat_map
    (fun ev => match ev with CallSubmitHeadersWithLoop _ hs _ => [hs] | _ => [] end) out.

Definition closingBatches (out : list SyncEvent) : list (list bytes) :=
  flat_map (fun ev => match ev with CallSubmitHeaders _ hs => [hs] | _ => [] end) out.

Lemma batchLoop_full_batches fuel : forall hdrs nd st nd' st' out,
  1 <= Batch sync ->
  len (headers st) < Batch sync ->
  batchLoop fuel nd st (map Recv hdrs) = Some (nd', st', out) ->
  Forall (fun hs => len hs = Batch sync) (loopBatches out)
  /\ closingBatches out = []
  /\ len (headers st') < Batch sync
  /\ len (headers st) + len hdrs = Batch sync * len (loopBatches out) + len (headers st').
Proof.
  induction hdrs as [|h hdrs IH]; intros nd st nd' st' out HB Hlt; cbn [batchLoop map].
  - intros H; injection H as _ <- <-. simpl. repeat split; try assumption; [constructor|].
    unfold len at 2 3; simpl. lia.
  - destruct (commitBlock fuel nd (selectStep st (Recv h))) as [[[nd1 st1] o1]|] eqn:Hc;
      [|discriminate].
    destruct (batchLoop fuel nd1 st1 (map Recv hdrs)) as [[[nd2 st2] o2]|] eqn:Hl;
      [|discriminate].
    intros H; injection H as _ <- <-.
    pose proof (len_nonneg (headers st)) as Hnn.
    assert (Hstep :
      (o1 = [] /\ headers st1 = headers st ++ [msg.Data h]
       /\ len (headers st ++ [msg.Data h]) < Batch sync)
      \/ (len (headers st ++ [msg.Data h]) = Batch sync /\ headers st1 = []
          /\ loopBatches o1 = [headers st ++ [msg.Data h]] /\ closingBatches o1 = [])).
    { unfold commitBlock in Hc. cbn [selectStep commit headers height] in Hc.
      destruct (len (headers st ++ [msg.Data h]) >=? Batch sync) eqn:Hge.
      - right. apply Z.geb_le in Hge. rewrite len_app_one in *.
        destruct (SubmitHeadersWithLoop fuel nd (ChainId sync) (headers st ++ [msg.Data h]))
          as [[[err nd3] n]|]; [|discriminate].
        destruct err; injection Hc as _ <- <-; simpl; repeat split; lia.
      - left. rewrite Z.geb_leb in Hge. apply Z.leb_gt in Hge.
        injection Hc as _ <- <-. auto. }
    assert (Hlt1 : len (headers st1) < Batch sync).
    { destruct Hstep as [(_ & -> & H1) | (_ & -> & _)]; [assumption|]. unfold len; simpl; lia. }
    destruct (IH _ _ _ _ _ HB Hlt1 Hl) as (Hall & Hcl & Hlt2 & Hsum).
    unfold loopBatches, closingBatches in *. rewrite !flat_map_app.
    assert (Hhd : len (h :: hdrs) = len hdrs + 1) by (unfold len; cbn [List.length]; lia).
    rewrite Hhd.
    destruct Hstep as [(-> & Hh1 & H1) | (Hfull & Hh1 & Hlb & Hcb)].
    + simpl. repeat split; try assumption.
      rewrite Hh1, len_app_one in Hsum. lia.
    + rewrite Hlb, Hcb, Hcl. simpl. repeat split; try assumption.
      * constructor; assumption.
      * rewrite Hh1 in Hsum. rewrite len_app_one in Hfull.
        unfold len in Hsum at 1. simpl in Hsum.
        change (Z.of_nat (S (List.length
                  (flat_map (fun ev => match ev with
                                       | CallSubmitHeadersWithLoop _ hs _ => [hs]
                                       | _ => []
                                       end) o2))))
          with (len ((headers st ++ [msg.Data h]) ::
                     flat_map (fun ev => match ev with
                                         | CallSubmitHeadersWithLoop _ hs _ => [hs]
                                         | _ => []
                                         end) o2)).
        assert (Hc1 : forall (A : Type) (x : A) l, len (x :: l) = len l + 1)
          by (intros; unfold len; cbn [List.length]; lia).
        rewrite Hc1. lia.
Qed.

(** X6.  Batch mode while the timer never fires, with batch size
    [B >= 2] and [n] headers before closure: every batch handed to the
    retry loop has exactly [B] headers, there are [n / B] of them, and the
    closing [SubmitHeaders] call carries the [n mod B] remaining headers
    and is absent when [B] divides [n]. *)
Theorem batch_mode_without_timer (fuel : nat) (nd : Node) (hdrs : list msg.Header) :
  2 <= Batch sync ->
  (forall nd0 hs, SubmitHeadersWithLoop fuel nd0 (ChainId sync) hs <> None) ->
  exists nd' out,
    startSync fuel nd (map Recv hdrs) = Some (nd', out)
    /\ Forall (fun hs => len hs = Batch sync) (loopBatches out)
    /\ len (loopBatches out) = len hdrs / Batch sync
    /\ (len hdrs mod Batch sync = 0 -> closingBatches out = [])
    /\ (len hdrs mod Batch sync <> 0 ->
        exists hs, closingBatches out = [hs] /\ len hs = len hdrs mod Batch sync).
Proof.
  intros HB Hterm. unfold startSync.
  replace (Batch sync =? 1) with false by (symmetry; apply Z.eqb_neq; lia).
  pose proof (batchLoop_returns fuel Hterm (map Recv hdrs) nd batchInit) as Hr.
  destruct (batchLoop fuel nd batchInit (map Recv hdrs)) as [[[nd1 st] out]|] eqn:Hl;
    [|congruence].
  apply batchLoop_full_batches in Hl; [|lia|unfold len; simpl; lia].
  destruct Hl as (Hall & Hcl & Hlt & Hsum).
  pose proof (len_nonneg (headers st)) as Hnn.
  change (len (headers batchInit)) with 0 in Hsum.
  assert (Hdiv : len hdrs / Batch sync = len (loopBatches out)).
  { symmetry. apply (Z.div_unique_pos _ _ _ (len (headers st))); lia. }
  assert (Hmod : len hdrs mod Batch sync = len (headers st)).
  { symmetry. apply (Z.mod_unique_pos _ _ (len (loopBatches out))); lia. }
  rewrite Hdiv, Hmod.
  destruct (0 <? len (headers st)) eqn:Hlen.
  - destruct (SubmitHeaders nd1 (ChainId sync) (headers st)) as [r nd2].
    exists nd2. eexists. split; [reflexivity|].
    unfold loopBatches, closingBatches in *. rewrite !flat_map_app, Hcl. simpl.
    rewrite app_nil_r. apply Z.ltb_lt in Hlen.
    repeat split; try assumption.
    + intros H0. exfalso. clear - Hlen H0. lia.
    + intros _. eexists; split; reflexivity.
  - exists nd1, out. apply Z.ltb_ge in Hlen.
    repeat split; try assumption; [auto|].
    intros Hne. exfalso. clear - Hlen Hne Hnn. lia.
Qed.

(** What single mode may do for the received headers [hdrs]: hand one
    header's data to the retry loop, or signal one header's height minus
    100. *)
Definition singleOk (hdrs : list msg.Header) (ev : SyncEvent) : Prop :=
  match ev with
  | CallSubmitHeadersWithLoop c hs _ =>
      c = ChainId sync /\ exists h, In h hdrs /\ hs = [msg.Data h]
  | CallSubmitHeaders _ _ => False
  | ResetSignal v => exists h, In h hdrs /\ v = uint64 (msg.Height h - 100)
  end.

Lemma singleStep_events fuel nd h nd' out :
  singleStep fuel nd h = Some (nd', out) -> Forall (singleOk [h]) out.
Proof.
  unfold singleStep.
  destruct (CheckHeaderExistence nd h) as [[ok err] nd1].
  destruct ok; [intros H; injection H as _ <-; constructor|].
  assert (Hin : In h [h]) by now left.
  destruct err as [e|].
  - intros H; injection H as _ <-. repeat constructor. now exists h.
  - destruct (SubmitHeadersWithLoop fuel nd1 (ChainId sync) [msg.Data h])
      as [[[err' nd2] n]|]; [|discriminate].
    destruct err'; intros H; injection H as _ <-; repeat constructor;
      try (now exists h).
Qed.

Lemma singleOk_more (a b : list msg.Header) (ev : SyncEvent) :
  (forall h, In h a -> In h b) -> singleOk a ev -> singleOk b ev.
Proof.
  intros Hsub. destruct ev as [c hs n|c hs|v]; simpl; [| |].
  - intros (Hc & h & Hin & Hh). split; [assumption|]. exists h. auto.
  - auto.
  - intros (h & Hin & Hv). exists h. auto.
Qed.

Lemma singleLoop_events fuel : forall hdrs nd nd' out,
  singleLoop fuel nd hdrs = Some (nd', out) -> Forall (singleOk hdrs) out.
Proof.
  induction hdrs as [|h rest IH]; intros nd nd' out; simpl.
  - intros H; injection H as _ <-. constructor.
  - destruct (singleStep fuel nd h) as [[nd1 o1]|] eqn:Hs; [|discriminate].
    destruct (singleLoop fuel nd1 rest) as [[nd2 o2]|] eqn:Hl; [|discriminate].
    intros H; injection H as _ <-. apply Forall_app. split.
    + eapply Forall_impl; [|exact (singleStep_events _ _ _ _ _ Hs)].
      intros ev. apply singleOk_more. intros h0 [<- | []]. now left.
    + eapply Forall_impl; [|exact (IH _ _ _ Hl)].
      intros ev. apply singleOk_more. intros h0 Hin. now right.
Qed.

Lemma singleLoop_returns fuel :
  (forall nd hs, SubmitHeadersWithLoop fuel nd (ChainId sync) hs <> None) ->
  forall hdrs nd, singleLoop fuel nd hdrs <> None.
Proof.
  intros Hterm. induction hdrs as [|h rest IH]; intros nd; simpl; [discriminate|].
  destruct (singleStep fuel nd h) as [[nd1 o1]|] eqn:Hs.
  - specialize (IH nd1). destruct (singleLoop fuel nd1 rest) as [[nd2 o2]|]; congruence.
  - unfold singleStep in Hs.
    destruct (CheckHeaderExistence nd h) as [[ok err] nd1].
    destruct ok; [discriminate|]. destruct err as [e|]; [discriminate|].
    specialize (Hterm nd1 [msg.Data h]).
    destruct (SubmitHeadersWithLoop fuel nd1 (ChainId sync) [msg.Data h])
      as [[[err' nd2] n]|]; [destruct err'; discriminate|congruence].
Qed.

(** X22.  Single mode, when every retry loop returns: [startSync]
    returns; every submission goes through the retry loop, for the
    configured side chain, with the data of exactly one received header;
    and every value it signals is the height of a received header minus
    100 (as a 64-bit unsigned value). *)
Theorem single_mode_events (fuel : nat) (nd : Node) (chan : list SelectEvent) :
  Batch sync = 1 ->
  (forall nd0 hs, SubmitHeadersWithLoop fuel nd0 (ChainId sync) hs <> None) ->
  exists nd' out,
    startSync fuel nd chan = Some (nd', out)
    /\ Forall (singleOk (received chan)) out.
Proof.
  intros HB Hterm. unfold startSync. rewrite HB. cbn [Z.eqb Pos.eqb].
  pose proof (singleLoop_returns fuel Hterm (received chan) nd) as Hr.
  destruct (singleLoop fuel nd (received chan)) as [[nd' out]|] eqn:Hl; [|congruence].
  exists nd', out. split; [reflexivity|]. eapply singleLoop_events; eassumption.
Qed.

End WithNode.

(** *** Two concrete nodes

    [Scripted]: the node's state is the list of answers it will give to
    the coming [SyncBlockHeader] calls ([None] accepts the headers, an
    error message rejects them); when the script is used up it accepts.
    [Confirm] always succeeds and no side-chain header is stored. *)
Module Scripted.

Definition Node := list (option string).

Definition SyncBlockHeader (nd : Node) (chainId : Z) (hs : list bytes)
  : (string * option error) * Node :=
  match nd with
  | Some m :: nd' => (("", Some (SdkError m)), nd')
  | None :: nd' => (("txhash", None), nd')
  | [] => (("txhash", None), [])
  end.

Definition Confirm (nd : Node) (hash : string) : option error * Node := (None, nd).

Definition GetSideChainHeader (nd : Node) (chainId height : Z)
  : (bytes * option error) * Node := (([], None), nd).

Definition header (h : Z) (b : byte) : msg.Header :=
  {| msg.Height := h; msg.Data := [b]; msg.Hash := [b] |}.

Definition single : HeaderSyncConfig :=
  {| Batch := 1; Buffer := 2; Timeout := 1; ChainId := 2 |}.

Definition batch4 : HeaderSyncConfig :=
  {| Batch := 4; Buffer := 8; Timeout := 1; ChainId := 2 |}.

Definition fork : option string := Some "parent header not exist".

End Scripted.

(** Single mode, header 1000 rejected as a fork after one transient
    failure: 900 is signalled.  Batch mode with batch size 4: the fourth
    header, at height 1003, completes a batch that is rejected: 899. *)
Lemma rollback_height_on_failure_witness :
  startSync Scripted.Node Scripted.SyncBlockHeader Scripted.Confirm
    Scripted.GetSideChainHeader Scripted.single 5
    [Some "timeout"; Scripted.fork] [Recv (Scripted.header 1000 x01)]
  = Some ([], [CallSubmitHeadersWithLoop 2 [[x01]] 2; ResetSignal 900])
  /\
  exists st,
    batchLoop Scripted.Node Scripted.SyncBlockHeader Scripted.Confirm Scripted.batch4 5
      [Scripted.fork] (batchInit)
      ([Recv (Scripted.header 1000 x01); Recv (Scripted.header 1001 x02);
        Recv (Scripted.header 1002 x03)] ++ [Recv (Scripted.header 1003 x04)])
    = Some ([], st,
            [] ++ [CallSubmitHeadersWithLoop 2 [[x01]; [x02]; [x03]; [x04]] 1;
                   ResetSignal 899])
    /\ headers st = [].
Proof.
  pose proof (rollback_height_on_failure Scripted.Node Scripted.SyncBlockHeader
                Scripted.Confirm Scripted.GetSideChainHeader Scripted.single)
    as [Hsingle _].
  pose proof (rollback_height_on_failure Scripted.Node Scripted.SyncBlockHeader
                Scripted.Confirm Scripted.GetSideChainHeader Scripted.batch4)
    as [_ [Hbatch _]].
  split.
  - destruct (Hsingle 5%nat [Some "timeout"; Scripted.fork] (Scripted.header 1000 x01))
      as [_ Hs].
    unfold startSync. cbn [Batch Scripted.single Z.eqb Pos.eqb received flat_map app
                           singleLoop].
    rewrite (Hs [Some "timeout"; Scripted.fork]
               (SdkError "parent header not exist") [] 2%nat eq_refl eq_refl).
    reflexivity.
  - destruct (Hbatch 5%nat [Scripted.fork]
                [Recv (Scripted.header 1000 x01); Recv (Scripted.header 1001 x02);
                 Recv (Scripted.header 1002 x03)]
                (Recv (Scripted.header 1003 x04))
                [Scripted.fork]
                {| headers := [[x01]; [x02]; [x03]]; commit := true; height := 1002 |}
                [] (SdkError "parent header not exist") [] 1%nat
                eq_refl eq_refl eq_refl)
      as (older & recent & st2 & Hrcv & Hne & Hh & Hrun & Hcl).
    exists st2. split; [|exact Hcl].
    rewrite Hrun.
    assert (Hrec : recent = [Scripted.header 1000 x01; Scripted.header 1001 x02;
                             Scripted.header 1002 x03; Scripted.header 1003 x04]).
    { cbn in Hrcv, Hh.
      assert (Hlen : List.length recent = 4%nat)
        by (apply (f_equal (@List.length _)) in Hh; rewrite length_map in Hh; now simpl in Hh).
      assert (Hol : List.length older = 0%nat).
      { apply (f_equal (@List.length _)) in Hrcv. rewrite length_app, Hlen in Hrcv.
        simpl in Hrcv. lia. }
      destruct older; [|discriminate]. now simpl in Hrcv. }
    rewrite Hrec. reflexivity.
Defined.

(** A fork at height 50 in single mode signals [2^64 - 50]; a rejected
    batch of four headers ending at height 3 signals [2^64 - 101]. *)
Lemma rollback_height_wraps_witness :
  singleStep Scripted.Node Scripted.SyncBlockHeader Scripted.Confirm
    Scripted.GetSideChainHeader Scripted.single 5 [Scripted.fork] (Scripted.header 50 x01)
  = Some ([], [CallSubmitHeadersWithLoop 2 [[x01]] 1;
               ResetSignal (2 ^ 64 + 50 - 100)])
  /\
  commitBlock Scripted.Node Scripted.SyncBlockHeader Scripted.Confirm Scripted.batch4 5
    [Scripted.fork]
    {| headers := [[x01]; [x02]; [x03]; [x04]]; commit := true; height := 3 |}
  = Some ([], {| headers := []; commit := false; height := 3 |},
          [CallSubmitHeadersWithLoop 2 [[x01]; [x02]; [x03]; [x04]] 1;
           ResetSignal (2 ^ 64 + 3 - 100 - 4)]).
Proof.
  split.
  - apply (proj1 (rollback_height_wraps Scripted.Node Scripted.SyncBlockHeader
                    Scripted.Confirm Scripted.GetSideChainHeader Scripted.single)
             5%nat [Scripted.fork] (Scripted.header 50 x01) [Scripted.fork]
             (SdkError "parent header not exist") [] 1%nat).
    + simpl; lia.
    + reflexivity.
    + reflexivity.
  - apply (proj2 (rollback_height_wraps Scripted.Node Scripted.SyncBlockHeader
                    Scripted.Confirm Scripted.GetSideChainHeader Scripted.batch4)
             5%nat [Scripted.fork]
             {| headers := [[x01]; [x02]; [x03]; [x04]]; commit := true; height := 3 |}
             (SdkError "parent header not exist") [] 1%nat).
    + reflexivity.
    + reflexivity.
    + simpl; unfold len; simpl; lia.
    + reflexivity.
Defined.

(** C10 as stated fails at the boundary [H = 100]: the header is
    rejected as a fork and the value signalled is [0], which is not
    within the margin of [2^64]. *)
Lemma rollback_at_height_100_is_zero :
  startSync Scripted.Node Scripted.SyncBlockHeader Scripted.Confirm
    Scripted.GetSideChainHeader Scripted.single 5 [Scripted.fork]
    [Recv (Scripted.header 100 x01)]
  = Some ([], [CallSubmitHeadersWithLoop 2 [[x01]] 1; ResetSignal 0])
  /\ 100 <= 100
  /\ 0 < 2 ^ 64 - 100 - 1.
Proof. split; [reflexivity|split; [lia|reflexivity]]. Qed.


(** *** [StartSync] *)

(** A Go [int] (64 bits, two's complement). *)
Definition int64 (z : Z) : Z := (z + 2 ^ 63) mod 2 ^ 64 - 2 ^ 63.

(** How [StartSync] ends, with the configuration it leaves in [s.sync]
    (the defaults are written through the [config] pointer before the
    chain id is tested): the goroutine is started on a channel of capacity
    [Buffer]; or the chain id is refused; or [make] panics on the
    capacity. *)
Inductive StartSyncResult :=
| Started (config : HeaderSyncConfig)
| InvalidSideChainId (config : HeaderSyncConfig)
| MakeChanPanics (config : HeaderSyncConfig).

Section StartSync.

(** The largest capacity [make(chan msg.Header, n)] accepts. *)
Variable maxChanSize : Z.

Definition StartSync (config : HeaderSyncConfig) : StartSyncResult :=
  let batch := if Batch config =? 0 then 1 else Batch config in
  let buffer := if Buffer config =? 0 then int64 (2 * batch) else Buffer config in
  let timeout := if Timeout config =? 0 then 1 else Timeout config in
  let config' :=
    {| Batch := batch; Buffer := buffer; Timeout := timeout; ChainId := ChainId config |} in
  if ChainId config =? 0 then InvalidSideChainId config'
  else if (buffer <? 0) || (maxChanSize <? buffer) then MakeChanPanics config'
  else Started config'.

(** X7.  For a configuration with a side chain id, no negative field and
    capacities within what [make] accepts, [StartSync] starts the sync
    with batch size, buffer and timeout all at least 1, keeps every field
    that was set, fills an unset batch size with 1, an unset buffer with
    twice the batch size and an unset timeout with 1, and running it again
    on the result changes nothing.  Batch sizes 0 and 1 both select single
    mode. *)
Theorem StartSync_defaults (config : HeaderSyncConfig) :
  ChainId config <> 0 ->
  0 <= Batch config < 2 ^ 62 -> 0 <= Buffer config <= maxChanSize ->
  0 <= Timeout config ->
  2 * Z.max (Batch config) 1 <= maxChanSize ->
  exists config',
    StartSync config = Started config'
    /\ 1 <= Batch config' /\ 1 <= Buffer config' /\ 1 <= Timeout config'
    /\ ChainId config' = ChainId config
    /\ (Batch config <> 0 -> Batch config' = Batch config)
    /\ (Buffer config <> 0 -> Buffer config' = Buffer config)
    /\ (Timeout config <> 0 -> Timeout config' = Timeout config)
    /\ (Batch config = 0 -> Batch config' = 1)
    /\ (Buffer config = 0 -> Buffer config' = 2 * Batch config')
    /\ (Timeout config = 0 -> Timeout config' = 1)
    /\ StartSync config' = Started config'
    /\ (Batch config' = 1 <-> Batch config <= 1).
Proof.
  intros Hc Hb Hbuf Ht Hmax. unfold StartSync.
  apply Z.eqb_neq in Hc. rewrite Hc.
  set (batch := if Batch config =? 0 then 1 else Batch config).
  assert (Hbatch : batch = Z.max (Batch config) 1).
  { unfold batch. destruct (Batch config =? 0) eqn:E;
      [apply Z.eqb_eq in E|apply Z.eqb_neq in E]; lia. }
  assert (Hi : int64 (2 * batch) = 2 * batch).
  { unfold int64. rewrite Z.mod_small; lia. }
  rewrite Hi.
  set (buffer := if Buffer config =? 0 then 2 * batch else Buffer config).
  assert (Hbuffer : 1 <= buffer <= maxChanSize
                    /\ (Buffer config <> 0 -> buffer = Buffer config)
                    /\ (Buffer config = 0 -> buffer = 2 * batch)).
  { unfold buffer. destruct (Buffer config =? 0) eqn:E;
      [apply Z.eqb_eq in E|apply Z.eqb_neq in E]; repeat split; try lia; congruence. }
  set (timeout := if Timeout config =? 0 then 1 else Timeout config).
  assert (Htimeout : 1 <= timeout
                     /\ (Timeout config <> 0 -> timeout = Timeout config)
                     /\ (Timeout config = 0 -> timeout = 1)).
  { unfold timeout. destruct (Timeout config =? 0) eqn:E;
      [apply Z.eqb_eq in E|apply Z.eqb_neq in E]; repeat split; try lia; congruence. }
  destruct Hbuffer as (Hb1 & Hb2 & Hb3). destruct Htimeout as (Ht1 & Ht2 & Ht3).
  replace ((buffer <? 0) || (maxChanSize <? buffer)) with false
    by (symmetry; apply orb_false_iff; split; [apply Z.ltb_ge|apply Z.ltb_ge]; lia).
  eexists. split; [reflexivity|]. cbn [Batch Buffer Timeout ChainId].
  repeat split; try lia; try assumption.
  rewrite Hc.
  replace (batch =? 0) with false by (symmetry; apply Z.eqb_neq; lia).
  replace (buffer =? 0) with false by (symmetry; apply Z.eqb_neq; lia).
  replace (timeout =? 0) with false by (symmetry; apply Z.eqb_neq; lia).
  now replace ((buffer <? 0) || (maxChanSize <? buffer)) with false
    by (symmetry; apply orb_false_iff; split; [apply Z.ltb_ge|apply Z.ltb_ge]; lia).
Qed.

(** Without a side chain id the sync is refused, after the defaults were
    written. *)
Lemma StartSync_without_chain_id (config : HeaderSyncConfig) :
  ChainId config = 0 ->
  exists config', StartSync config = InvalidSideChainId config'
                  /\ Batch config' <> 0 /\ Timeout config' <> 0.
Proof.
  intros Hc. unfold StartSync. rewrite Hc. cbn [Z.eqb].
  eexists. split; [reflexivity|]. cbn [Batch Timeout].
  split.
  - destruct (Batch config =? 0) eqn:E; [discriminate|now apply Z.eqb_neq].
  - destruct (Timeout config =? 0) eqn:E; [discriminate|now apply Z.eqb_neq].
Qed.

End StartSync.

(** *** A node that gives the same answer to every submission *)
Module Steady.

Definition Node := unit.

Definition SyncBlockHeader (answer : option string) (nd : Node) (chainId : Z)
    (hs : list bytes) : (string * option error) * Node :=
  match answer with
  | Some m => (("", Some (SdkError m)), tt)
  | None => (("txhash", None), tt)
  end.

Definition Confirm (nd : Node) (hash : string) : option error * Node := (None, tt).

Definition GetSideChainHeader (nd : Node) (chainId height : Z)
  : (bytes * option error) * Node := (([], None), tt).

Lemma accepting_returns (c : Z) (nd : Node) (hs : list bytes) :
  SubmitHeadersWithLoop Node (SyncBlockHeader None) Confirm 1 nd c hs <> None.
Proof. discriminate. Qed.

Lemma forking_returns (c : Z) (nd : Node) (hs : list bytes) :
  SubmitHeadersWithLoop Node (SyncBlockHeader Scripted.fork) Confirm 1 nd c hs <> None.
Proof. discriminate. Qed.

(** Five headers, the timer firing once after the first. *)
Definition chan : list SelectEvent :=
  [Recv (Scripted.header 1 x01); TimeAfter; Recv (Scripted.header 2 x02);
   Recv (Scripted.header 3 x03); Recv (Scripted.header 4 x04);
   Recv (Scripted.header 5 x05)].

End Steady.

Lemma SubmitHeadersWithLoop_returns_witness :
  (strings_Contains "parent header not exist" "parent header not exist" = true
   \/ strings_Contains "parent header not exist" "missing required field" = true)
  /\ (1 <= 2 <= 5)%nat
  /\ forall k,
       SubmitHeadersWithLoop Scripted.Node Scripted.SyncBlockHeader Scripted.Confirm
         (5 + k) [Some "timeout"; Scripted.fork] 2 [[x01]]
       = Some (Some (SdkError "parent header not exist"), [], 2%nat).
Proof.
  exact (SubmitHeadersWithLoop_returns Scripted.Node Scripted.SyncBlockHeader
           Scripted.Confirm 5 [Some "timeout"; Scripted.fork] 2 [[x01]]
           (Some (SdkError "parent header not exist")) [] 2%nat eq_refl).
Defined.

Lemma single_mode_skips_known_headers_witness :
  exists nd',
    startSync Scripted.Node Scripted.SyncBlockHeader Scripted.Confirm
      Scripted.GetSideChainHeader Scripted.single 0 [Scripted.fork]
      [Recv {| msg.Height := 7; msg.Data := [x01]; msg.Hash := [] |};
       Recv {| msg.Height := 8; msg.Data := [x02]; msg.Hash := [] |}]
    = Some (nd', []).
Proof.
  apply (single_mode_skips_known_headers Scripted.Node Scripted.SyncBlockHeader
           Scripted.Confirm Scripted.GetSideChainHeader Scripted.single).
  - reflexivity.
  - intros nd0 h [<- | [<- | []]]; exists nd0; reflexivity.
Defined.

Lemma batch_mode_flushes_every_header_once_witness :
  exists nd' out,
    startSync Steady.Node (Steady.SyncBlockHeader Scripted.fork) Steady.Confirm
      Steady.GetSideChainHeader Scripted.batch4 1 tt Steady.chan = Some (nd', out)
    /\ flushed out = map msg.Data (received Steady.chan).
Proof.
  apply (batch_mode_flushes_every_header_once Steady.Node
           (Steady.SyncBlockHeader Scripted.fork) Steady.Confirm
           Steady.GetSideChainHeader Scripted.batch4 1 tt Steady.chan).
  - discriminate.
  - apply Steady.forking_returns.
Defined.

Lemma batch_mode_batch_sizes_witness :
  exists nd' out,
    startSync Steady.Node (Steady.SyncBlockHeader None) Steady.Confirm
      Steady.GetSideChainHeader Scripted.batch4 1 tt Steady.chan = Some (nd', out)
    /\ Forall (sizeOk Scripted.batch4) out.
Proof.
  apply (batch_mode_batch_sizes Steady.Node (Steady.SyncBlockHeader None) Steady.Confirm
           Steady.GetSideChainHeader Scripted.batch4 1 tt Steady.chan).
  - discriminate.
  - apply Steady.accepting_returns.
Defined.

Lemma batch_mode_event_order_witness :
  exists nd' body final,
    startSync Steady.Node (Steady.SyncBlockHeader Scripted.fork) Steady.Confirm
      Steady.GetSideChainHeader Scripted.batch4 1 tt Steady.chan
    = Some (nd', body ++ final)
    /\ rounds body
    /\ (final = [] \/ exists hs, final = [CallSubmitHeaders (ChainId Scripted.batch4) hs]).
Proof.
  apply (batch_mode_event_order Steady.Node (Steady.SyncBlockHeader Scripted.fork)
           Steady.Confirm Steady.GetSideChainHeader Scripted.batch4 1 tt Steady.chan).
  - discriminate.
  - apply Steady.forking_returns.
Defined.

Lemma batch_mode_without_timer_witness :
  exists nd' out,
    startSync Steady.Node (Steady.SyncBlockHeader None) Steady.Confirm
      Steady.GetSideChainHeader Scripted.batch4 1 tt
      (map Recv (received Steady.chan)) = Some (nd', out)
    /\ Forall (fun hs => len hs = Batch Scripted.batch4) (loopBatches out)
    /\ len (loopBatches out) = len (received Steady.chan) / Batch Scripted.batch4
    /\ (len (received Steady.chan) mod Batch Scripted.batch4 = 0 ->
        closingBatches out = [])
    /\ (len (received Steady.chan) mod Batch Scripted.batch4 <> 0 ->
        exists hs, closingBatches out = [hs]
                   /\ len hs = len (received Steady.chan) mod Batch Scripted.batch4).
Proof.
  apply (batch_mode_without_timer Steady.Node (Steady.SyncBlockHeader None) Steady.Confirm
           Steady.GetSideChainHeader Scripted.batch4 1 tt (received Steady.chan)).
  - simpl; lia.
  - apply Steady.accepting_returns.
Defined.

Lemma single_mode_events_witness :
  exists nd' out,
    startSync Steady.Node (Steady.SyncBlockHeader Scripted.fork) Steady.Confirm
      Steady.GetSideChainHeader Scripted.single 1 tt Steady.chan = Some (nd', out)
    /\ Forall (singleOk Scripted.single (received Steady.chan)) out.
Proof.
  apply (single_mode_events Steady.Node (Steady.SyncBlockHeader Scripted.fork)
           Steady.Confirm Steady.GetSideChainHeader Scripted.single 1 tt Steady.chan).
  - reflexivity.
  - apply Steady.forking_returns.
Defined.

Lemma StartSync_defaults_witness :
  exists config',
    StartSync 1024 {| Batch := 0; Buffer := 0; Timeout := 0; ChainId := 2 |}
    = Started config'
    /\ Batch config' = 1 /\ Buffer config' = 2 /\ Timeout config' = 1.
Proof.
  destruct (StartSync_defaults 1024
              {| Batch := 0; Buffer := 0; Timeout := 0; ChainId := 2 |})
    as (config' & Hs & _ & _ & _ & _ & _ & _ & _ & Hb & Hbuf & Ht & _);
    try (simpl; lia); try discriminate.
  exists config'. split; [exact Hs|].
  rewrite (Hbuf eq_refl), (Hb eq_refl), (Ht eq_refl). repeat split.
Defined.

End HeaderSync.

(** * Transaction submission pipeline *)

Module Submission.

(** What one worker does that is visible outside. *)
Inductive RunEvent :=
| WgAdd
| WgDone
| LogExiting
| BusPop
| Sleep
| CallSubmit (tx : msg.Tx)
| BusPush (tx : msg.Tx).

(** How an observation of [run] ends: it returned, or it has not
    returned yet. *)
Inductive RunStatus :=
| Returned (err : option error)
| Pending.

(** How a [select] statement ends. *)
Inductive Selected :=
| CaseReturned (err : option error)  (* the chosen case executed [return] *)
| FellThrough                        (* a case ran to its end *)
| Blocked.                           (* no case ready and no [default] *)

Section WithNode.

Variable Node : Type.
(** [Native.Ccm.ImportOuterTransfer(chainId, value, height, proof, ...)];
    the relayer address, the empty extra and the signer are fixed. *)
Variable ImportOuterTransfer :
  Node -> Z -> bytes -> Z -> bytes -> (string * option error) * Node.

(** The queue: [Pop] and [Push] (whose error [run] drops). *)
Variable Bus : Type.
Variable Pop : Bus -> (option msg.Tx * option error) * Bus.
Variable Push : Bus -> msg.Tx -> Bus.

(** [s.name]. *)
Variable name : string.

(** Whether the channel [s.Done()] is closed at a given instant. *)
Variable done : nat -> bool.

Definition submit (nd : Node) (tx : msg.Tx) : option error * msg.Tx * Node :=
  if (msg.SrcHeight tx =? 0) || (msg.SrcProof tx =? "")%string
     || (msg.SrcEvent tx =? "")%string || (msg.SrcChainId tx =? 0)
     || (msg.SrcHash tx =? "")%string || (msg.SrcProofHeight tx =? 0)
  then (Some ErrMissingSrcFields, tx, nd)
  else
    let '(value, err) := hex_DecodeString (msg.SrcEvent tx) in
    match err with
    | Some e => (Some (ErrDecodeSrcValue name e (msg.SrcEvent tx)), tx, nd)
    | None =>
        let '(proof, err) := hex_DecodeString (msg.SrcProof tx) in
        match err with
        | Some e => (Some (ErrDecodeSrcProof name e (msg.SrcProof tx)), tx, nd)
        | None =>
            let '((t, err), nd1) :=
              ImportOuterTransfer nd (msg.SrcChainId tx) value
                (uint32 (msg.SrcProofHeight tx)) proof in
            match err with
            | Some e => (Some (ErrImport e), tx, nd1)
            | None => (None, msg.set_PolyHash t tx, nd1)
            end
        end
    end.

(** The [select] of [run]: its only case receives from [s.Done()] and
    returns; there is no [default] clause, so while the channel is open
    the statement blocks. *)
Definition selectDone (t : nat) : Selected * list RunEvent :=
  if done t then (CaseReturned None, [LogExiting]) else (Blocked, []).

(** The statements of the loop body that follow the [select]. *)
Definition afterSelect (nd : Node) (bus : Bus) : Node * Bus * list RunEvent :=
  let '((tx, err), bus1) := Pop bus in
  match err with
  | Some _ => (nd, bus1, [BusPop])
  | None =>
      match tx with
      | None => (nd, bus1, [BusPop; Sleep])
      | Some tx =>
          let '(err, tx1, nd1) := submit nd tx in
          match err with
          | Some _ =>
              let tx2 := msg.set_Attempts (msg.Attempts tx1 + 1) tx1 in
              (nd1, Push bus1 tx2, [BusPop; CallSubmit tx; BusPush tx2])
          | None => (nd1, bus1, [BusPop; CallSubmit tx])
          end
      end
  end.

(** The [for] loop of [run], observed for [fuel] steps from instant
    [t]; a step is one pass through the loop body or one instant spent
    blocked. *)
Fixpoint runLoop (fuel : nat) (t : nat) (nd : Node) (bus : Bus)
  : RunStatus * Node * Bus * list RunEvent :=
  match fuel with
  | O => (Pending, nd, bus, [])
  | S fuel' =>
      match selectDone t with
      | (CaseReturned err, evs) => (Returned err, nd, bus, evs)
      | (Blocked, evs) =>
          let '(st, nd1, bus1, evs') := runLoop fuel' (S t) nd bus in
          (st, nd1, bus1, evs ++ evs')
      | (FellThrough, evs) =>
          let '(nd1, bus1, evs1) := afterSelect nd bus in
          let '(st, nd2, bus2, evs') := runLoop fuel' (S t) nd1 bus1 in
          (st, nd2, bus2, evs ++ evs1 ++ evs')
      end
  end.

Definition run (fuel : nat) (nd : Node) (bus : Bus)
  : RunStatus * Node * Bus * list RunEvent :=
  let '(st, nd1, bus1, evs) := runLoop fuel 0%nat nd bus in
  match st with
  | Returned _ => (st, nd1, bus1, [WgAdd] ++ evs ++ [WgDone])
  | _ => (st, nd1, bus1, [WgAdd] ++ evs)
  end.

(** *** [submit] *)




(** *** [run] *)

Lemma selectDone_never_falls_through t : fst (selectDone t) <> FellThrough.
Proof. unfold selectDone. now destruct (done t). Qed.

(** The worker's loop never reaches the statements after the [select]:
    it leaves the queue and the node untouched and logs at most its
    exit. *)
Lemma runLoop_idle : forall fuel t nd bus,
  exists st evs,
    runLoop fuel t nd bus = (st, nd, bus, evs)
    /\ (evs = [] \/ evs = [LogExiting]).
Proof.
  induction fuel as [|fuel IH]; intros t nd bus; simpl.
  - exists Pending, []. auto.
  - unfold selectDone. destruct (done t).
    + exists (Returned None), [LogExiting]. auto.
    + destruct (IH (S t) nd bus) as (st & evs & -> & Hevs).
      exists st, evs. auto.
Qed.

(** C2 (what the code does).  However long a worker is observed and
    whatever the queue holds, [run] pops nothing, submits nothing and
    pushes nothing: node and queue are unchanged, and besides the
    wait-group bookkeeping the only thing it does is log its exit. *)
Theorem run_never_pops (fuel : nat) (nd : Node) (bus : Bus) :
  exists st evs,
    run fuel nd bus = (st, nd, bus, evs)
    /\ ~ In BusPop evs
    /\ (forall tx, ~ In (CallSubmit tx) evs /\ ~ In (BusPush tx) evs)
    /\ ~ In Sleep evs.
Proof.
  unfold run. destruct (runLoop_idle fuel 0%nat nd bus) as (st & evs & -> & Hevs).
  destruct st as [err|]; eexists; eexists; (split; [reflexivity|]);
    destruct Hevs as [-> | ->]; simpl; repeat split; intros H;
    repeat (destruct H as [H|H]; try discriminate); assumption.
Qed.

(** ** Further properties of the submission pipeline *)

(** A failing [submit] leaves the transaction as it was. *)
Lemma submit_error_keeps_tx (nd : Node) (tx : msg.Tx) (e : error) (tx' : msg.Tx)
    (nd' : Node) :
  submit nd tx = (Some e, tx', nd') -> tx' = tx.
Proof.
  unfold submit.
  destruct ((msg.SrcHeight tx =? 0) || (msg.SrcProof tx =? "")%string
            || (msg.SrcEvent tx =? "")%string || (msg.SrcChainId tx =? 0)
            || (msg.SrcHash tx =? "")%string || (msg.SrcProofHeight tx =? 0)).
  { intros H; now injection H as _ <- _. }
  destruct (hex_DecodeString (msg.SrcEvent tx)) as [value [e1|]].
  { intros H; now injection H as _ <- _. }
  destruct (hex_DecodeString (msg.SrcProof tx)) as [proof [e2|]].
  { intros H; now injection H as _ <- _. }
  destruct (ImportOuterTransfer nd (msg.SrcChainId tx) value
              (uint32 (msg.SrcProofHeight tx)) proof) as [[t [e3|]] nd1].
  - intros H; now injection H as _ <- _.
  - discriminate.
Qed.

(** X8.  The statements after the [select], were they reached, lose no
    transaction: a popped transaction whose submission fails is pushed
    back with its attempt counter one higher and every other field as
    popped; one whose submission succeeds is not pushed back; a nil pop
    sleeps and a pop error does not, and neither touches the node. *)
Theorem afterSelect_requeues_failures (nd : Node) (bus bus1 : Bus) :
  (forall tx, Pop bus = ((Some tx, None), bus1) ->
     (forall e tx1 nd1, submit nd tx = (Some e, tx1, nd1) ->
        let tx2 := msg.set_Attempts (msg.Attempts tx + 1) tx in
        afterSelect nd bus = (nd1, Push bus1 tx2, [BusPop; CallSubmit tx; BusPush tx2]))
     /\
     (forall tx1 nd1, submit nd tx = (None, tx1, nd1) ->
        afterSelect nd bus = (nd1, bus1, [BusPop; CallSubmit tx])))
  /\
  (Pop bus = ((None, None), bus1) -> afterSelect nd bus = (nd, bus1, [BusPop; Sleep]))
  /\
  (forall tx e, Pop bus = ((tx, Some e), bus1) -> afterSelect nd bus = (nd, bus1, [BusPop])).
Proof.
  unfold afterSelect. split; [|split].
  - intros tx Hp. rewrite Hp. split.
    + intros e tx1 nd1 Hs. rewrite Hs.
      now rewrite (submit_error_keeps_tx _ _ _ _ _ Hs).
    + intros tx1 nd1 Hs. now rewrite Hs.
  - intros Hp. now rewrite Hp.
  - intros tx e Hp. now rewrite Hp.
Qed.

End WithNode.

(** *** A concrete observation

    A queue holding one well-formed transaction, a node that accepts
    every import, and a done-signal raised at instant 3. *)
Module Example.

Definition tx0 : msg.Tx :=
  msg.set_PolyHash ""
    {| msg.TxType_ := msg.SRC; msg.Attempts := 0; msg.TxId := "";
       msg.MerkleValue := None; msg.Param := None;
       msg.SrcHash := "ab"; msg.SrcHeight := 7; msg.SrcChainId := 2;
       msg.SrcProof := "0102"; msg.SrcEvent := "a0B1"; msg.SrcProofHeight := 8;
       msg.PolyHash := ""; msg.PolyHeight := 0; msg.PolyKey := "";
       msg.PolyHeader := None; msg.AnchorHeader := None; msg.AnchorProof := "";
       msg.AuditPath := []; msg.DstChainId := 0; msg.DstPolyEpochStartHeight := 0;
       msg.DstPolyKeepers := []; msg.DstProxy := ""; msg.DstSigs := [] |}.

Definition Node := unit.
Definition accept (nd : Node) (chainId : Z) (value : bytes) (height : Z)
    (proof : bytes) : (string * option error) * Node := (("cafe", None), tt).

Definition Bus := list msg.Tx.
Definition Pop (b : Bus) : (option msg.Tx * option error) * Bus :=
  match b with
  | [] => ((None, None), [])
  | t :: b' => ((Some t, None), b')
  end.
Definition Push (b : Bus) (t : msg.Tx) : Bus := b ++ [t].

Definition doneAt3 (t : nat) : bool := (3 <=? t)%nat.

End Example.


(** The worker is observed for ten instants with one transaction waiting
    in the queue and the done-signal raised at instant 3: the queue still
    holds the transaction when the worker returns. *)
Lemma run_leaves_waiting_tx_in_queue :
  run Example.Node Example.accept Example.Bus Example.Pop Example.Push "poly"
    Example.doneAt3 10 tt [Example.tx0]
  = (Returned None, tt, [Example.tx0], [WgAdd; LogExiting; WgDone]).
Proof. reflexivity. Qed.

(** A queued transaction that the hub refuses is pushed back with one
    more attempt. *)
Lemma afterSelect_requeues_failures_witness :
  let bad := msg.set_PolyHash "" (msg.set_Attempts 4 Example.tx0) in
  afterSelect Example.Node (fun _ _ _ _ _ => (("", Some (SdkError "busy")), tt))
    Example.Bus Example.Pop Example.Push "poly" tt [bad]
  = (tt, [msg.set_Attempts 5 bad],
     [BusPop; CallSubmit bad; BusPush (msg.set_Attempts 5 bad)]).
Proof.
  intros bad.
  exact (proj1 (proj1 (afterSelect_requeues_failures Example.Node
                         (fun _ _ _ _ _ => (("", Some (SdkError "busy")), tt))
                         Example.Bus Example.Pop Example.Push "poly" tt [bad] [])
                  bad eq_refl)
           (ErrImport (SdkError "busy")) bad tt eq_refl).
Defined.

End Submission.

(** * Hub-chain events and the node capability *)



(** A JSON value decoded into [interface{}]: a string, a number (always
    [float64]), an array, or anything else. *)
#[local] Set Warnings "-register-all".

Inductive Value :=
| VString (s : string)
| VFloat64 (f : float)
| VSlice (l : list Value)
| VOther.

(** Package [poly-go-sdk/common]. *)
Module scom.

Record NotifyEventInfo := { ContractAddress : string; States : Value }.

Record SmartContactEvent := { TxHash : string; Notify : list NotifyEventInfo }.

End scom.

(** A hub-chain node ([*poly.Client]): the read-only queries used here.
    Each returns the Go result pair; a returned header is a pointer. *)
Record Client :=
  { GetBlockHeightByTxHash : string -> Z * option error;
    GetHeaderByHeight : Z -> option types.Header * option error;
    GetMerkleProof : Z -> Z -> string * option error;
    GetCrossStatesProof : Z -> string -> string * option error;
    GetSmartContractEvent : string -> option scom.SmartContactEvent * option error;
    GetSmartContractEventByBlock : Z -> list scom.SmartContactEvent * option error }.

(** The queries a function makes, in order. *)
Inductive Call :=
| CallGetBlockHeightByTxHash (hash : string)
| CallGetHeaderByHeight (height : Z)
| CallGetMerkleProof (height anchor : Z)
| CallGetCrossStatesProof (height : Z) (key : string)
| CallGetSmartContractEvent (hash : string).

(** A function either returns its results or panics. *)
Inductive outcome (A : Type) :=
| Returns (a : A)
| Panics.
Arguments Returns {A} a.
Arguments Panics {A}.

(** ** [ZeroCopySink] *)

(** [n] little-endian bytes of [v]. *)
Fixpoint le_bytes (n : nat) (v : Z) : bytes :=
  match n with
  | O => []
  | S n' => byte_of_N (Z.to_N (v mod 256)) :: le_bytes n' (v / 256)
  end.

Definition WriteUint64 (v : Z) : bytes := le_bytes 8 v.

Definition WriteVarUint (v : Z) : bytes :=
  if v <? 253 then le_bytes 1 v
  else if v <=? 65535 then xfd :: le_bytes 2 v
  else if v <=? 4294967295 then xfe :: le_bytes 4 v
  else xff :: le_bytes 8 v.

Definition WriteVarBytes (data : bytes) : bytes := WriteVarUint (len data) ++ data.

(** [pcom.ADDRESS_EMPTY]: twenty zero bytes. *)
Definition ADDRESS_EMPTY : bytes := repeat x00 20.

(** * Epoch / keeper detector *)

Module Epoch.

Section WithCrypto.

(** [keypair.PublicKey] (an interface value, possibly nil). *)
Variable PublicKey : Type.

(** [json.Unmarshal(hdr.ConsensusPayload, info)] read through
    [info.NewChainConfig]: the pointer is [None] when the payload has no
    new chain configuration, else it holds the [ID]s of its [Peers]. *)
Variable json_Unmarshal : bytes -> option (list string) * option error.

(** [keypair.DeserializePublicKey], whose error the code drops. *)
Variable DeserializePublicKey : bytes -> PublicKey.
Variable SortPublicKeys : list PublicKey -> list PublicKey.

(** [msg.EncodePubKey] and [msg.EncodeEthPubKey]. *)
Variable EncodePubKey : PublicKey -> bytes * option error.
Variable EncodeEthPubKey : PublicKey -> bytes * option error.

(** [crypto.Keccak256]. *)
Variable Keccak256 : bytes -> bytes.

(** The body of the second loop of [CheckEpoch] on the sorted keys:
    [pubKeys] and the sink's buffer are threaded through. *)
Fixpoint encodeKeys (bks : list PublicKey) (pubKeys sink : bytes)
  : outcome (bytes * bytes * option error) :=
  match bks with
  | [] => Returns (pubKeys, sink, None)
  | key :: rest =>
      let '(b, err) := EncodePubKey key in
      match err with
      | Some e => Returns (pubKeys, sink, Some e)
      | None =>
          let pubKeys := pubKeys ++ b in
          let '(b, err) := EncodeEthPubKey key in
          match err with
          | Some e => Returns (pubKeys, sink, Some e)
          | None =>
              match b with
              | [] => Panics (* bytes[1:] of an empty slice *)
              | _ :: b1 =>
                  let h := Keccak256 b1 in
                  if len h <? 12 then Panics (* [12:] out of range *)
                  else encodeKeys rest pubKeys (sink ++ WriteVarBytes (skipn 12 h))
              end
          end
      end
  end.

(** The first loop: peer [ID]s to keys, decode errors dropped. *)
Definition peerKeys (peers : list string) : list PublicKey :=
  map (fun id => DeserializePublicKey (fst (hex_DecodeString id))) peers.

Definition CheckEpoch (tx : msg.Tx) (hdr : option types.Header)
  : outcome (bool * bytes * option error) :=
  if len (msg.DstPolyKeepers tx) =? 0 then Returns (false, [], Some ErrKeeperNotProvided)
  else
    match hdr with
    | None => Panics
    | Some hdr =>
        if bytes_Equal (types.NextBookkeeper hdr) ADDRESS_EMPTY then Returns (false, [], None)
        else
          let '(info, err) := json_Unmarshal (types.ConsensusPayload hdr) in
          match err with
          | Some e => Returns (false, [], Some (ErrConsensusPayload e))
          | None =>
              match info with
              | None => Panics (* info.NewChainConfig is nil *)
              | Some peers =>
                  let bks := SortPublicKeys (peerKeys peers) in
                  match encodeKeys bks [] (WriteUint64 (uint64 (len bks))) with
                  | Panics => Panics
                  | Returns (pubKeys, sink, Some e) => Returns (false, pubKeys, Some e)
                  | Returns (pubKeys, sink, None) =>
                      Returns (negb (bytes_Equal (msg.DstPolyKeepers tx) sink), pubKeys, None)
                  end
              end
          end
    end.

(** A key the second loop gets through: both encodings succeed, the
    Ethereum one is not empty and its hash has at least twelve bytes. *)
Definition encodable (key : PublicKey) : Prop :=
  snd (EncodePubKey key) = None
  /\ snd (EncodeEthPubKey key) = None
  /\ fst (EncodeEthPubKey key) <> []
  /\ 12 <= len (Keccak256 (tl (fst (EncodeEthPubKey key)))).

(** The entry of one key in the keeper encoding: the hash of its
    Ethereum encoding without the leading byte, first twelve bytes
    dropped, written with its length in front. *)
Definition keeperEntry (key : PublicKey) : bytes :=
  WriteVarBytes (skipn 12 (Keccak256 (tl (fst (EncodeEthPubKey key))))).

(** The keeper encoding of sorted keys: their number on eight bytes,
    then one entry per key. *)
Definition keeperEncoding (bks : list PublicKey) : bytes :=
  WriteUint64 (uint64 (len bks)) ++ flat_map keeperEntry bks.

Lemma encodeKeys_encodable : forall bks pubKeys sink,
  (forall k, In k bks -> encodable k) ->
  encodeKeys bks pubKeys sink =
  Returns (pubKeys ++ flat_map (fun k => fst (EncodePubKey k)) bks,
           sink ++ flat_map keeperEntry bks, None).
Proof.
  induction bks as [|key rest IH]; intros pubKeys sink Hall; simpl.
  - now rewrite !app_nil_r.
  - destruct (Hall key (or_introl eq_refl)) as (H1 & H2 & H3 & H4).
    unfold keeperEntry at 1.
    destruct (EncodePubKey key) as [b1 e1]; simpl in H1; subst e1.
    destruct (EncodeEthPubKey key) as [b2 e2]; simpl in H2, H3, H4 |- *; subst e2.
    destruct b2 as [|x b2]; [congruence|]. simpl in H4 |- *.
    destruct (len (Keccak256 b2) <? 12) eqn:Hl; [apply Z.ltb_lt in Hl; lia|].
    rewrite IH by (intros k Hk; apply Hall; now right).
    now rewrite <- !app_assoc.
Qed.

(** C4.  With a recorded keeper encoding that is not empty: a header
    whose next-bookkeeper field is the empty address reports no rotation
    and no error; for any other header whose consensus payload decodes
    to a peer list and whose sorted keys are all encodable, [CheckEpoch]
    returns without error and reports rotation exactly when the keeper
    encoding of the sorted keys differs from the recorded one. *)
Theorem CheckEpoch_rotation (tx : msg.Tx) (hdr : types.Header) :
  msg.DstPolyKeepers tx <> [] ->
  (types.NextBookkeeper hdr = ADDRESS_EMPTY ->
   CheckEpoch tx (Some hdr) = Returns (false, [], None))
  /\
  (types.NextBookkeeper hdr <> ADDRESS_EMPTY ->
   forall peers,
     json_Unmarshal (types.ConsensusPayload hdr) = (Some peers, None) ->
     let bks := SortPublicKeys (peerKeys peers) in
     (forall k, In k bks -> encodable k) ->
     exists epoch pubKeys,
       CheckEpoch tx (Some hdr) = Returns (epoch, pubKeys, None)
       /\ (epoch = true <-> keeperEncoding bks <> msg.DstPolyKeepers tx)).
Proof.
  intros Hk. unfold CheckEpoch.
  assert (Hlen : (len (msg.DstPolyKeepers tx) =? 0) = false).
  { apply Z.eqb_neq. unfold len. destruct (msg.DstPolyKeepers tx); [congruence|].
    simpl. lia. }
  rewrite Hlen. split.
  - intros He. apply bytes_Equal_spec in He. now rewrite He.
  - intros Hne peers Hu Hall.
    destruct (bytes_Equal (types.NextBookkeeper hdr) ADDRESS_EMPTY) eqn:He.
    { apply bytes_Equal_spec in He. contradiction. }
    rewrite Hu. set (bks := SortPublicKeys (peerKeys peers)) in *. rewrite (encodeKeys_encodable bks _ _ Hall).
    eexists; eexists; split; [reflexivity|].
    fold (keeperEncoding bks). rewrite negb_true_iff.
    destruct (bytes_Equal (msg.DstPolyKeepers tx) (keeperEncoding bks)) eqn:Hb.
    + apply bytes_Equal_spec in Hb. split; [discriminate|congruence].
    + split; [|reflexivity]. intros _ Heq.
      symmetry in Heq. apply bytes_Equal_spec in Heq. congruence.
Qed.

(** With 32-byte hashes an entry is the byte 20 followed by the last
    twenty bytes of the hash. *)
Lemma keeperEntry_trailing_20 (key : PublicKey) :
  List.length (Keccak256 (tl (fst (EncodeEthPubKey key)))) = 32%nat ->
  keeperEntry key = x14 :: skipn 12 (Keccak256 (tl (fst (EncodeEthPubKey key))))
  /\ List.length (skipn 12 (Keccak256 (tl (fst (EncodeEthPubKey key))))) = 20%nat.
Proof.
  intros H. unfold keeperEntry, WriteVarBytes, WriteVarUint, len.
  rewrite length_skipn, H. split; reflexivity.
Qed.

(** ** Further properties of the detector *)

(** X9.  Without a recorded keeper encoding [CheckEpoch] fails before it
    looks at the header (a nil header included).  It never reports a
    rotation together with an error, and never for a header whose
    next-bookkeeper field is the empty address. *)
Theorem CheckEpoch_rotation_is_clean (tx : msg.Tx) (hdr : option types.Header) :
  (msg.DstPolyKeepers tx = [] ->
   CheckEpoch tx hdr = Returns (false, [], Some ErrKeeperNotProvided))
  /\
  (forall pubKeys err,
     CheckEpoch tx hdr = Returns (true, pubKeys, err) ->
     err = None
     /\ msg.DstPolyKeepers tx <> []
     /\ exists h, hdr = Some h /\ types.NextBookkeeper h <> ADDRESS_EMPTY).
Proof.
  unfold CheckEpoch. split.
  - intros ->. reflexivity.
  - intros pubKeys err.
    destruct (len (msg.DstPolyKeepers tx) =? 0) eqn:Hl; [discriminate|].
    assert (Hk : msg.DstPolyKeepers tx <> []) by (intros E; rewrite E in Hl; discriminate).
    destruct hdr as [h|]; [|discriminate].
    destruct (bytes_Equal (types.NextBookkeeper h) ADDRESS_EMPTY) eqn:He; [discriminate|].
    assert (Hn : types.NextBookkeeper h <> ADDRESS_EMPTY).
    { intros E. apply bytes_Equal_spec in E. congruence. }
    destruct (json_Unmarshal (types.ConsensusPayload h)) as [info [e|]]; [discriminate|].
    destruct info as [peers|]; [|discriminate].
    destruct (encodeKeys (SortPublicKeys (peerKeys peers)) []
                (WriteUint64 (uint64 (len (SortPublicKeys (peerKeys peers))))))
      as [[[pk sink] [e|]]|]; try discriminate.
    intros H; injection H as _ _ <-. repeat split; try assumption.
    exists h. auto.
Qed.

Lemma le_bytes_length (n : nat) : forall v, List.length (le_bytes n v) = n.
Proof. induction n as [|n IH]; intros v; simpl; [reflexivity|now rewrite IH]. Qed.

Lemma flat_map_length_const {A B : Type} (f : A -> list B) (k : nat) (l : list A) :
  (forall x, In x l -> List.length (f x) = k) ->
  List.length (flat_map f l) = (k * List.length l)%nat.
Proof.
  induction l as [|x l IH]; intros H; simpl; [lia|].
  rewrite length_app, (H x (or_introl eq_refl)), IH by (intros; apply H; now right). lia.
Qed.

(** X10.  When [CheckEpoch] gets through all keys, its second result is
    the native encodings of the sorted keys put end to end; and with
    32-byte hashes the keeper encoding of [n] keys has [8 + 21 n] bytes. *)
Theorem CheckEpoch_encodings (tx : msg.Tx) (hdr : types.Header) (peers : list string) :
  msg.DstPolyKeepers tx <> [] ->
  types.NextBookkeeper hdr <> ADDRESS_EMPTY ->
  json_Unmarshal (types.ConsensusPayload hdr) = (Some peers, None) ->
  let bks := SortPublicKeys (peerKeys peers) in
  (forall k, In k bks -> encodable k) ->
  (exists epoch,
     CheckEpoch tx (Some hdr)
     = Returns (epoch, flat_map (fun k => fst (EncodePubKey k)) bks, None))
  /\
  ((forall b, List.length (Keccak256 b) = 32%nat) ->
   List.length (keeperEncoding bks) = (8 + 21 * List.length bks)%nat).
Proof.
  intros Hk Hne Hu bks Hall. split.
  - unfold CheckEpoch.
    replace (len (msg.DstPolyKeepers tx) =? 0) with false
      by (symmetry; apply Z.eqb_neq; unfold len; destruct (msg.DstPolyKeepers tx);
          [congruence|simpl; lia]).
    replace (bytes_Equal (types.NextBookkeeper hdr) ADDRESS_EMPTY) with false
      by (symmetry; apply not_true_is_false; intros E; apply bytes_Equal_spec in E;
          contradiction).
    rewrite Hu. fold bks. rewrite (encodeKeys_encodable bks _ _ Hall).
    eexists. reflexivity.
  - intros H32. unfold keeperEncoding, WriteUint64.
    rewrite length_app, le_bytes_length.
    rewrite (flat_map_length_const keeperEntry 21); [reflexivity|].
    intros k _. destruct (keeperEntry_trailing_20 k (H32 _)) as [-> Hl].
    cbn [List.length]. now rewrite Hl.
Qed.

End WithCrypto.

(** *** A toy instance: keys are byte strings that encode as themselves,
    the payload is not parsed, the hash pads or cuts to 32 bytes. *)
Module Toy.

Definition PublicKey := bytes.

Definition json_Unmarshal (peers : list string) (payload : bytes)
  : option (list string) * option error := (Some peers, None).

Definition DeserializePublicKey (b : bytes) : PublicKey := b.
Definition SortPublicKeys (l : list PublicKey) : list PublicKey := l.
Definition EncodePubKey (k : PublicKey) : bytes * option error := (k, None).
Definition EncodeEthPubKey (k : PublicKey) : bytes * option error := (x04 :: k, None).
Definition Keccak256 (b : bytes) : bytes := firstn 32 (b ++ repeat x00 32).

Definition header : types.Header :=
  {| types.Height := 11; types.NextBookkeeper := repeat x01 20;
     types.ConsensusPayload := []; types.SigData := [] |}.

Definition tx (keepers : bytes) : msg.Tx :=
  {| msg.TxType_ := msg.POLY; msg.Attempts := 0; msg.TxId := "";
     msg.MerkleValue := None; msg.Param := None;
     msg.SrcHash := ""; msg.SrcHeight := 0; msg.SrcChainId := 2;
     msg.SrcProof := ""; msg.SrcEvent := ""; msg.SrcProofHeight := 0;
     msg.PolyHash := "beef"; msg.PolyHeight := 10; msg.PolyKey := "key";
     msg.PolyHeader := None; msg.AnchorHeader := None; msg.AnchorProof := "";
     msg.AuditPath := []; msg.DstChainId := 3; msg.DstPolyEpochStartHeight := 5;
     msg.DstPolyKeepers := keepers; msg.DstProxy := ""; msg.DstSigs := [] |}.

Lemma Keccak256_length (b : bytes) : List.length (Keccak256 b) = 32%nat.
Proof.
  unfold Keccak256. rewrite length_firstn, length_app, repeat_length. lia.
Qed.

Lemma all_encodable (k : PublicKey) :
  encodable PublicKey EncodePubKey EncodeEthPubKey Keccak256 k.
Proof.
  unfold encodable, len; simpl. rewrite Keccak256_length.
  repeat split; discriminate.
Qed.

End Toy.

(** One peer ["aa"] against recorded keepers [[x01]]: rotation. *)
Lemma CheckEpoch_rotation_witness :
  CheckEpoch Toy.PublicKey (Toy.json_Unmarshal ["aa"]) Toy.DeserializePublicKey
    Toy.SortPublicKeys Toy.EncodePubKey Toy.EncodeEthPubKey Toy.Keccak256
    (Toy.tx [x01]) (Some Toy.header)
  = Returns (true, [xaa], None).
Proof.
  destruct (CheckEpoch_rotation Toy.PublicKey (Toy.json_Unmarshal ["aa"])
              Toy.DeserializePublicKey Toy.SortPublicKeys Toy.EncodePubKey
              Toy.EncodeEthPubKey Toy.Keccak256 (Toy.tx [x01]) Toy.header)
    as [_ H].
  - discriminate.
  - destruct (H ltac:(discriminate) ["aa"] eq_refl (fun k _ => Toy.all_encodable k))
      as (epoch & pubKeys & Hc & _).
    rewrite Hc. vm_compute in Hc. symmetry. exact Hc.
Defined.

Lemma CheckEpoch_rotation_is_clean_witness :
  @None error = None
  /\ msg.DstPolyKeepers (Toy.tx [x01]) <> []
  /\ exists h, Some Toy.header = Some h /\ types.NextBookkeeper h <> ADDRESS_EMPTY.
Proof.
  exact (proj2 (CheckEpoch_rotation_is_clean Toy.PublicKey (Toy.json_Unmarshal ["aa"])
                  Toy.DeserializePublicKey Toy.SortPublicKeys Toy.EncodePubKey
                  Toy.EncodeEthPubKey Toy.Keccak256 (Toy.tx [x01]) (Some Toy.header))
           [xaa] None eq_refl).
Defined.

Lemma CheckEpoch_encodings_witness :
  (exists epoch,
     CheckEpoch Toy.PublicKey (Toy.json_Unmarshal ["aa"; "bbcc"]) Toy.DeserializePublicKey
       Toy.SortPublicKeys Toy.EncodePubKey Toy.EncodeEthPubKey Toy.Keccak256
       (Toy.tx [x01]) (Some Toy.header)
     = Returns (epoch, [xaa; xbb; xcc], None))
  /\ List.length
       (keeperEncoding Toy.PublicKey Toy.EncodeEthPubKey Toy.Keccak256 [[xaa]; [xbb; xcc]])
     = 50%nat.
Proof.
  destruct (CheckEpoch_encodings Toy.PublicKey (Toy.json_Unmarshal ["aa"; "bbcc"])
              Toy.DeserializePublicKey Toy.SortPublicKeys Toy.EncodePubKey
              Toy.EncodeEthPubKey Toy.Keccak256 (Toy.tx [x01]) Toy.header ["aa"; "bbcc"]
              ltac:(discriminate) ltac:(discriminate) eq_refl
              (fun k _ => Toy.all_encodable k))
    as [He Hl].
  split; [exact He|exact (Hl Toy.Keccak256_length)].
Defined.

End Epoch.

(** * Proof composer *)

Module Composer.

(** ** Computations that mutate the transaction and query the node

    A computation receives the transaction ([tx] is a pointer in the
    source, so every assignment to one of its fields is kept, also when an
    error is returned afterwards) and the calls made so far. *)
Definition M (A : Type) : Type :=
  msg.Tx -> list Call -> outcome A * msg.Tx * list Call.

Definition ret {A : Type} (a : A) : M A := fun tx cs => (Returns a, tx, cs).

Definition bind {A B : Type} (m : M A) (k : A -> M B) : M B :=
  fun tx cs =>
    match m tx cs with
    | (Returns a, tx', cs') => k a tx' cs'
    | (Panics, tx', cs') => (Panics, tx', cs')
    end.

Definition get : M msg.Tx := fun tx cs => (Returns tx, tx, cs).

Definition modify (f : msg.Tx -> msg.Tx) : M unit := fun tx cs => (Returns tt, f tx, cs).

(** A query of the node: the call is recorded, its result returned. *)
Definition query {A : Type} (c : Call) (result : A) : M A :=
  fun tx cs => (Returns result, tx, cs ++ [c]).

Definition panic {A : Type} : M A := fun tx cs => (Panics, tx, cs).

Definition lift {A : Type} (o : outcome A) : M A := fun tx cs => (o, tx, cs).

Declare Scope go_scope.
Delimit Scope go_scope with go.
Notation "x <- m ;; k" := (bind m (fun x => k))
  (at level 61, m at next level, right associativity) : go_scope.
Notation "' pat <- m ;; k" := (bind m (fun x => match x with pat => k end))
  (at level 61, pat pattern, m at next level, right associativity) : go_scope.
Notation "m ;; k" := (bind m (fun _ => k))
  (at level 61, right associativity) : go_scope.
Local Open Scope go_scope.

Section WithNode.

(** [s.sdk.Node()]. *)
Variable node : Client.

(** [poly.CCM_ADDRESS]. *)
Variable CCM_ADDRESS : string.

(** [msg.ParseAuditPath], first result. *)
Variable ParseAuditPath : bytes -> bytes.

(** [new(ccom.ToMerkleValue)] followed by [param.Deserialization]. *)
Variable Deserialization : bytes -> ccom.ToMerkleValue.t * option error.

(** [config.CONFIG.AllowMethod]. *)
Variable AllowMethod : string -> bool.

(** [signature.ConvertToEthCompatible]. *)
Variable ConvertToEthCompatible : bytes -> bytes * option error.

(** What [CheckEpoch] needs. *)
Variable PublicKey : Type.
Variable json_Unmarshal : bytes -> option (list string) * option error.
Variable DeserializePublicKey : bytes -> PublicKey.
Variable SortPublicKeys : list PublicKey -> list PublicKey.
Variable EncodePubKey : PublicKey -> bytes * option error.
Variable EncodeEthPubKey : PublicKey -> bytes * option error.
Variable Keccak256 : bytes -> bytes.

Definition CheckEpoch : msg.Tx -> option types.Header -> outcome (bool * bytes * option error) :=
  Epoch.CheckEpoch PublicKey json_Unmarshal DeserializePublicKey SortPublicKeys
    EncodePubKey EncodeEthPubKey Keccak256.

(** The four results of [GetProof] and [GetPolyParams]. *)
Definition Params : Type :=
  option ccom.ToMerkleValue.t * bytes * option scom.SmartContactEvent * option error.

Definition GetProof (height : Z) (key : string) : M Params :=
  '(proof, err) <- query (CallGetCrossStatesProof height key)
                         (GetCrossStatesProof node height key) ;;
  match err with
  | Some e => ret (None, [], None, Some (ErrGetCrossStatesProof e))
  | None =>
      let '(path, err) := hex_DecodeString proof in
      match err with
      | Some e => ret (None, path, None, Some e)
      | None =>
          let value := ParseAuditPath path in
          let '(param, err) := Deserialization value in
          match err with
          | Some e => ret (Some param, path, None, Some (ErrDeserialization e))
          | None => ret (Some param, path, None, None)
          end
      end
  end.

(** The [for _, notify := range evt.Notify] loop of [GetPolyParams];
    [param], [path] and [evt] are the named results, overwritten by every
    [GetProof] that is tried. *)
Fixpoint proofFromNotifies (height : Z) (notifies : list scom.NotifyEventInfo)
    (param : option ccom.ToMerkleValue.t) (path : bytes)
    (evt : option scom.SmartContactEvent) : M Params :=
  match notifies with
  | [] => ret (param, path, evt, Some ErrMerkleValueNotFound)
  | notify :: rest =>
      if (scom.ContractAddress notify =? CCM_ADDRESS)%string then
        match scom.States notify with
        | VSlice states =>
            if len states >? 5 then
              let method :=
                match nth_error states 0 with
                | Some (VString m) => m
                | _ => ""
                end in
              if (method =? "makeProof")%string then
                match nth_error states 5 with
                | Some (VString key) =>
                    '(param', path', evt', err) <- GetProof height key ;;
                    match err with
                    | Some _ => proofFromNotifies height rest param' path' evt'
                    | None => ret (param', path', evt', None)
                    end
                | _ => panic (* states[5].(string) *)
                end
              else proofFromNotifies height rest param path evt
            else proofFromNotifies height rest param path evt
        | _ => panic (* notify.States.([]interface{}) *)
        end
      else proofFromNotifies height rest param path evt
  end.

(** [if tx.PolyHeight == 0 { tx.PolyHeight, err = ... }], as it stands in
    both [ComposeTx] and [GetPolyParams]. *)
Definition resolvePolyHeight : M (option error) :=
  tx <- get ;;
  if msg.PolyHeight tx =? 0 then
    '(h, err) <- query (CallGetBlockHeightByTxHash (msg.PolyHash tx))
                       (GetBlockHeightByTxHash node (msg.PolyHash tx)) ;;
    modify (msg.set_PolyHeight h) ;;
    ret err
  else ret None.

Definition GetPolyParams : M Params :=
  tx <- get ;;
  if (msg.PolyHash tx =? "")%string then ret (None, [], None, Some ErrInvalidPolyHash)
  else
    err <- resolvePolyHeight ;;
    match err with
    | Some e => ret (None, [], None, Some e)
    | None =>
        tx <- get ;;
        if negb (msg.PolyKey tx =? "")%string then
          GetProof (msg.PolyHeight tx) (msg.PolyKey tx)
        else
          '(evt, err) <- query (CallGetSmartContractEvent (msg.PolyHash tx))
                               (GetSmartContractEvent node (msg.PolyHash tx)) ;;
          match err with
          | Some e => ret (None, [], evt, Some e)
          | None =>
              match evt with
              | None => panic (* evt.Notify *)
              | Some ev =>
                  proofFromNotifies (msg.PolyHeight tx) (scom.Notify ev) None [] evt
              end
          end
    end.

(** The loop of [CollectSigs] over [sigHeader.SigData]. *)
Fixpoint convertSigs (sigData : list bytes) (sigs : bytes) : bytes * option error :=
  match sigData with
  | [] => (sigs, None)
  | sig :: rest =>
      let '(s, err) := ConvertToEthCompatible sig in
      match err with
      | Some e => (sigs, Some (ErrConvertSig e))
      | None => convertSigs rest (sigs ++ s)
      end
  end.

Definition CollectSigs : M (option error) :=
  tx <- get ;;
  let sigHeader :=
    match msg.AnchorHeader tx with
    | Some _ =>
        if negb (msg.AnchorProof tx =? "")%string then msg.AnchorHeader tx
        else msg.PolyHeader tx
    | None => msg.PolyHeader tx
    end in
  match sigHeader with
  | None => panic (* sigHeader.SigData *)
  | Some h =>
      let '(sigs, err) := convertSigs (types.SigData h) [] in
      match err with
      | Some e => ret (Some e)
      | None => modify (msg.set_DstSigs sigs) ;; ret None
      end
  end.

(** [ComposeTx], lines 205-216: the choice of [anchorHeight]. *)
Definition selectAnchor : M (Z * option error) :=
  tx <- get ;;
  if msg.PolyHeight tx <? msg.DstPolyEpochStartHeight tx then
    ret (uint32 (msg.DstPolyEpochStartHeight tx + 1), None)
  else
    '(isEpoch, _, err) <- lift (CheckEpoch tx (msg.PolyHeader tx)) ;;
    match err with
    | Some e => ret (0, Some e)
    | None =>
        if isEpoch : bool then ret (uint32 (msg.PolyHeight tx + 2), None)
        else ret (0, None)
    end.

(** [ComposeTx], lines 218-228: [if anchorHeight > 0 { ... }]. *)
Definition fetchAnchor (anchorHeight : Z) : M (option error) :=
  if anchorHeight >? 0 then
    tx <- get ;;
    '(hdr, err) <- query (CallGetHeaderByHeight anchorHeight)
                         (GetHeaderByHeight node anchorHeight) ;;
    modify (msg.set_AnchorHeader hdr) ;;
    match err with
    | Some e => ret (Some e)
    | None =>
        '(proof, err) <- query
            (CallGetMerkleProof (uint32 (msg.PolyHeight tx + 1)) anchorHeight)
            (GetMerkleProof node (uint32 (msg.PolyHeight tx + 1)) anchorHeight) ;;
        match err with
        | Some e => ret (Some e)
        | None => modify (msg.set_AnchorProof proof) ;; ret None
        end
    end
  else ret None.

(** [ComposeTx], lines 205-228. *)
Definition anchorStage : M (option error) :=
  '(anchorHeight, err) <- selectAnchor ;;
  match err with
  | Some e => ret (Some e)
  | None => fetchAnchor anchorHeight
  end.

(** [ComposeTx], lines 235-243: the allow-list test and what follows. *)
Definition checkMethod : M (option error) :=
  tx <- get ;;
  match msg.MerkleValue tx with
  | None => panic (* tx.MerkleValue.MakeTxParam *)
  | Some mv =>
      let taken :=
        match ccom.ToMerkleValue.MakeTxParam mv with
        | None => true
        | Some p => AllowMethod (ccom.Method p)
        end in
      if taken then
        match msg.Param tx with
        | Some _ =>
            match ccom.ToMerkleValue.MakeTxParam mv with
            | Some p =>
                ret (Some (ErrInvalidPolyTx (msg.SrcChainId tx) (msg.PolyHash tx)
                             (ccom.Method p)))
            | None => panic (* tx.MerkleValue.MakeTxParam.Method *)
            end
        | None =>
            ret (Some (ErrInvalidPolyTx (msg.SrcChainId tx) (msg.PolyHash tx)
                         "missing param"))
        end
      else CollectSigs
  end.

Definition ComposeTx : M (option error) :=
  tx <- get ;;
  if (msg.PolyHash tx =? "")%string then ret (Some ErrInvalidPolyHash)
  else if msg.DstPolyEpochStartHeight tx =? 0 then ret (Some ErrDstHeightNotSpecified)
  else
    err <- resolvePolyHeight ;;
    match err with
    | Some e => ret (Some e)
    | None =>
        tx <- get ;;
        '(hdr, err) <- query (CallGetHeaderByHeight (uint32 (msg.PolyHeight tx + 1)))
                             (GetHeaderByHeight node (uint32 (msg.PolyHeight tx + 1))) ;;
        modify (msg.set_PolyHeader hdr) ;;
        match err with
        | Some e => ret (Some e)
        | None =>
            err <- anchorStage ;;
            match err with
            | Some e => ret (Some e)
            | None =>
                '(param, path, _, err) <- GetPolyParams ;;
                modify (msg.set_MerkleValue_AuditPath param path) ;;
                match err with
                | Some e => ret (Some e)
                | None => checkMethod
                end
            end
        end
    end.

(** *** The anchor stage *)

Lemma uint32_small z : 0 <= z < 2 ^ 32 -> uint32 z = z.
Proof. intros H. unfold uint32. now apply Z.mod_small. Qed.

(** With a chosen height the stage asks for the header at that height
    first, stores what comes back, and only then asks for the Merkle
    proof from [PolyHeight + 1] to that height. *)
Lemma fetchAnchor_chosen (a : Z) (tx : msg.Tx) (cs : list Call) :
  0 < a ->
  exists r tx' rest,
    fetchAnchor a tx cs = (Returns r, tx', cs ++ CallGetHeaderByHeight a :: rest)
    /\ msg.AnchorHeader tx' = fst (GetHeaderByHeight node a)
    /\ (rest = [] \/ rest = [CallGetMerkleProof (uint32 (msg.PolyHeight tx + 1)) a]).
Proof.
  intros Ha. unfold fetchAnchor.
  assert (Hgt : (a >? 0) = true) by (apply Z.gtb_lt; lia). rewrite Hgt.
  unfold bind, get, query, modify, ret.
  destruct (GetHeaderByHeight node a) as [hdr [e|]]; simpl.
  - do 3 eexists. split; [reflexivity|]. auto.
  - destruct (GetMerkleProof node (uint32 (msg.PolyHeight tx + 1)) a) as [proof [e|]];
      simpl; rewrite <- app_assoc; simpl; do 3 eexists; (split; [reflexivity|]); auto.
Qed.

Lemma fetchAnchor_none (tx : msg.Tx) (cs : list Call) :
  fetchAnchor 0 tx cs = (Returns None, tx, cs).
Proof. reflexivity. Qed.

(** C3 (amended).  [p] is the hub height of the transaction and [d] the
    destination's epoch start height when the anchor stage is reached.
    - [p < d] and [d + 1] fits in 32 bits: the first query is for the
      header at [d + 1], which is stored as anchor header, and the only
      other query is the Merkle proof from [p + 1] to [d + 1];
    - [p < d] and [d + 1] wraps to 0: nothing is fetched or stored;
    - [d <= p], epoch detection reports a change and [p + 2] fits in 32
      bits: the same with the header at [p + 2];
    - [d <= p] and epoch detection reports no change, or fails: nothing is
      fetched or stored (and the failure is returned). *)
Theorem anchor_rule (tx : msg.Tx) (cs : list Call) :
  let p := msg.PolyHeight tx in
  let d := msg.DstPolyEpochStartHeight tx in
  0 <= p < 2 ^ 32 -> 0 <= d < 2 ^ 32 ->
  (p < d -> d + 1 < 2 ^ 32 ->
   exists r tx' rest,
     anchorStage tx cs = (Returns r, tx', cs ++ CallGetHeaderByHeight (d + 1) :: rest)
     /\ msg.AnchorHeader tx' = fst (GetHeaderByHeight node (d + 1))
     /\ (rest = [] \/ rest = [CallGetMerkleProof (p + 1) (d + 1)]))
  /\
  (p < d -> d + 1 = 2 ^ 32 -> anchorStage tx cs = (Returns None, tx, cs))
  /\
  (d <= p -> p + 2 < 2 ^ 32 ->
   forall pubKeys, CheckEpoch tx (msg.PolyHeader tx) = Returns (true, pubKeys, None) ->
   exists r tx' rest,
     anchorStage tx cs = (Returns r, tx', cs ++ CallGetHeaderByHeight (p + 2) :: rest)
     /\ msg.AnchorHeader tx' = fst (GetHeaderByHeight node (p + 2))
     /\ (rest = [] \/ rest = [CallGetMerkleProof (p + 1) (p + 2)]))
  /\
  (d <= p ->
   forall pubKeys, CheckEpoch tx (msg.PolyHeader tx) = Returns (false, pubKeys, None) ->
   anchorStage tx cs = (Returns None, tx, cs))
  /\
  (d <= p ->
   forall epoch pubKeys e,
     CheckEpoch tx (msg.PolyHeader tx) = Returns (epoch, pubKeys, Some e) ->
     anchorStage tx cs = (Returns (Some e), tx, cs)).
Proof.
  intros p d Hp Hd.
  assert (Hsel_lt : p < d ->
            selectAnchor tx cs = (Returns (uint32 (d + 1), None), tx, cs)).
  { intros Hlt. unfold selectAnchor, bind, get, ret. fold p d.
    now replace (p <? d) with true by (symmetry; apply Z.ltb_lt; lia). }
  assert (Hsel_ge : d <= p ->
            selectAnchor tx cs =
            match CheckEpoch tx (msg.PolyHeader tx) with
            | Returns (_, _, Some e) => (Returns (0, Some e), tx, cs)
            | Returns (true, _, None) => (Returns (uint32 (p + 2), None), tx, cs)
            | Returns (false, _, None) => (Returns (0, None), tx, cs)
            | Panics => (Panics, tx, cs)
            end).
  { intros Hge. unfold selectAnchor, bind, get, ret, lift. fold p d.
    replace (p <? d) with false by (symmetry; apply Z.ltb_ge; lia).
    destruct (CheckEpoch tx (msg.PolyHeader tx)) as [[[[|] pk] [e|]]|]; reflexivity. }
  repeat split.
  - intros Hlt Hfit. unfold anchorStage, bind. rewrite (Hsel_lt Hlt).
    rewrite uint32_small by lia.
    destruct (fetchAnchor_chosen (d + 1) tx cs ltac:(lia)) as (r & tx' & rest & He & Ha & Hr).
    exists r, tx', rest. repeat split; try assumption.
    fold p in Hr. now rewrite uint32_small in Hr by lia.
  - intros Hlt Hwrap. unfold anchorStage, bind. rewrite (Hsel_lt Hlt).
    rewrite Hwrap. reflexivity.
  - intros Hge Hfit pk Hc. unfold anchorStage, bind. rewrite (Hsel_ge Hge), Hc.
    rewrite uint32_small by lia.
    destruct (fetchAnchor_chosen (p + 2) tx cs ltac:(lia)) as (r & tx' & rest & He & Ha & Hr).
    exists r, tx', rest. repeat split; try assumption.
    fold p in Hr. now rewrite uint32_small in Hr by lia.
  - intros Hge pk Hc. unfold anchorStage, bind. rewrite (Hsel_ge Hge), Hc. reflexivity.
  - intros Hge epoch pk e Hc. unfold anchorStage, bind. rewrite (Hsel_ge Hge), Hc.
    now destruct epoch.
Qed.

(** *** The allow-list test *)

(** What the test does with a decoded parameter: a method for which
    [AllowMethod] answers true is rejected with the invalid-transaction
    error, any other method goes on to [CollectSigs]. *)
Lemma checkMethod_decoded (tx : msg.Tx) (cs : list Call)
    (mv : ccom.ToMerkleValue.t) (p : ccom.MakeTxParam) :
  msg.MerkleValue tx = Some mv ->
  ccom.ToMerkleValue.MakeTxParam mv = Some p ->
  (AllowMethod (ccom.Method p) = true ->
   exists m,
     checkMethod tx cs =
     (Returns (Some (ErrInvalidPolyTx (msg.SrcChainId tx) (msg.PolyHash tx) m)), tx, cs))
  /\
  (AllowMethod (ccom.Method p) = false -> checkMethod tx cs = CollectSigs tx cs).
Proof.
  intros Hmv Hp. unfold checkMethod, bind, get. rewrite Hmv, Hp. split; intros ->.
  - destruct (msg.Param tx); eexists; reflexivity.
  - reflexivity.
Qed.

(** A missing decoded parameter is rejected when [tx.Param] is nil, and
    dereferenced when it is not. *)
Lemma checkMethod_missing (tx : msg.Tx) (cs : list Call) (mv : ccom.ToMerkleValue.t) :
  msg.MerkleValue tx = Some mv ->
  ccom.ToMerkleValue.MakeTxParam mv = None ->
  checkMethod tx cs =
  match msg.Param tx with
  | None =>
      (Returns (Some (ErrInvalidPolyTx (msg.SrcChainId tx) (msg.PolyHash tx)
                        "missing param")), tx, cs)
  | Some _ => (Panics, tx, cs)
  end.
Proof.
  intros Hmv Hp. unfold checkMethod, bind, get. rewrite Hmv, Hp.
  now destruct (msg.Param tx).
Qed.

(** ** Further properties of the composer *)

(** [keeps I Q m]: started on a transaction that satisfies [I], the
    computation [m] ends on one that satisfies [I], and it only adds
    calls, all of which satisfy [Q]. *)
Definition keeps (I : msg.Tx -> Prop) (Q : Call -> Prop) {A : Type} (m : M A) : Prop :=
  forall tx cs, I tx ->
  forall r tx' cs', m tx cs = (r, tx', cs') ->
  I tx' /\ exists new, cs' = cs ++ new /\ Forall Q new.

Section Keeps.

Variable I : msg.Tx -> Prop.
Variable Q : Call -> Prop.

Lemma keeps_ret {A : Type} (a : A) : keeps I Q (ret a).
Proof.
  intros tx cs HI r tx' cs' H. injection H as _ <- <-.
  split; [assumption|]. exists []. now rewrite app_nil_r.
Qed.

Lemma keeps_panic {A : Type} : keeps I Q (@panic A).
Proof.
  intros tx cs HI r tx' cs' H. injection H as _ <- <-.
  split; [assumption|]. exists []. now rewrite app_nil_r.
Qed.

Lemma keeps_lift {A : Type} (o : outcome A) : keeps I Q (lift o).
Proof.
  intros tx cs HI r tx' cs' H. injection H as _ <- <-.
  split; [assumption|]. exists []. now rewrite app_nil_r.
Qed.

Lemma keeps_query {A : Type} (c : Call) (result : A) : Q c -> keeps I Q (query c result).
Proof.
  intros HQ tx cs HI r tx' cs' H. injection H as _ <- <-.
  split; [assumption|]. exists [c]. split; [reflexivity|]. now constructor.
Qed.

Lemma keeps_modify (f : msg.Tx -> msg.Tx) :
  (forall tx, I tx -> I (f tx)) -> keeps I Q (modify f).
Proof.
  intros Hf tx cs HI r tx' cs' H. injection H as _ <- <-.
  split; [now apply Hf|]. exists []. now rewrite app_nil_r.
Qed.

Lemma keeps_bind {A B : Type} (m : M A) (k : A -> M B) :
  keeps I Q m -> (forall a, keeps I Q (k a)) -> keeps I Q (bind m k).
Proof.
  intros Hm Hk tx cs HI r tx' cs'. unfold bind.
  destruct (m tx cs) as [[o tx1] cs1] eqn:Em.
  destruct (Hm tx cs HI _ _ _ Em) as (HI1 & new1 & -> & HQ1).
  destruct o as [a|].
  - intros H. destruct (Hk a tx1 _ HI1 _ _ _ H) as (HI2 & new2 & -> & HQ2).
    split; [assumption|]. exists (new1 ++ new2). rewrite app_assoc.
    split; [reflexivity|]. now apply Forall_app.
  - intros H. injection H as _ <- <-. split; [assumption|]. now exists new1.
Qed.

(** After [get] the continuation runs on a transaction satisfying [I]. *)
Lemma keeps_get_bind {B : Type} (k : msg.Tx -> M B) :
  (forall t, I t -> keeps I Q (k t)) -> keeps I Q (bind get k).
Proof.
  intros Hk tx cs HI r tx' cs'. unfold bind, get. intros H.
  exact (Hk tx HI tx cs HI _ _ _ H).
Qed.

End Keeps.

(** The rules applied along the structure of a computation. *)
Ltac keeps_rules :=
  repeat
    (cbv beta iota;
     match goal with
     | |- keeps _ _ (ret _) => apply keeps_ret
     | |- keeps _ _ panic => apply keeps_panic
     | |- keeps _ _ (lift _) => apply keeps_lift
     | |- keeps _ _ (bind get _) => apply keeps_get_bind; intros ? ?
     | |- keeps _ _ (bind _ _) => apply keeps_bind; [|intros ?]
     | |- keeps _ _ (match ?x with _ => _ end) => destruct x eqn:?
     end).

(** The calls of the proof-retrieval functions are never height
    lookups, and these functions do not write the transaction. *)
Definition notLookup (c : Call) : Prop :=
  match c with
  | CallGetBlockHeightByTxHash _ => False
  | _ => True
  end.

Lemma keeps_GetProof (I : msg.Tx -> Prop) (height : Z) (key : string) :
  keeps I notLookup (GetProof height key).
Proof. unfold GetProof. keeps_rules. now apply keeps_query. Qed.

Lemma keeps_proofFromNotifies (I : msg.Tx -> Prop) (height : Z) :
  forall notifies param path evt,
    keeps I notLookup (proofFromNotifies height notifies param path evt).
Proof.
  induction notifies as [|n rest IH]; intros param path evt; cbn [proofFromNotifies].
  - apply keeps_ret.
  - keeps_rules; try apply IH. apply keeps_GetProof.
Qed.

Lemma keeps_resolvePolyHeight_known (p : Z) :
  p <> 0 -> keeps (fun tx => msg.PolyHeight tx = p) notLookup resolvePolyHeight.
Proof.
  intros Hp. unfold resolvePolyHeight. apply keeps_get_bind. intros t Ht.
  replace (msg.PolyHeight t =? 0) with false by (symmetry; apply Z.eqb_neq; congruence).
  apply keeps_ret.
Qed.

Lemma keeps_GetPolyParams_known (p : Z) :
  p <> 0 -> keeps (fun tx => msg.PolyHeight tx = p) notLookup GetPolyParams.
Proof.
  intros Hp. unfold GetPolyParams. keeps_rules.
  - now apply keeps_resolvePolyHeight_known.
  - apply keeps_GetProof.
  - now apply keeps_query.
  - apply keeps_proofFromNotifies.
Qed.

Lemma keeps_CollectSigs (p : Z) :
  keeps (fun tx => msg.PolyHeight tx = p) notLookup CollectSigs.
Proof. unfold CollectSigs. keeps_rules. now apply keeps_modify. Qed.

Lemma keeps_anchorStage (p : Z) :
  keeps (fun tx => msg.PolyHeight tx = p) notLookup anchorStage.
Proof.
  unfold anchorStage, selectAnchor, fetchAnchor. keeps_rules;
    try (now apply keeps_query); now apply keeps_modify.
Qed.

Lemma keeps_checkMethod (p : Z) :
  keeps (fun tx => msg.PolyHeight tx = p) notLookup checkMethod.
Proof. unfold checkMethod. keeps_rules. apply keeps_CollectSigs. Qed.

(** X11.  A transaction that comes with its hub height is composed
    without ever asking the node for the height of its hash, and its
    [PolyHeight] is still the same afterwards, however [ComposeTx] ends. *)
Theorem ComposeTx_known_height (tx : msg.Tx) (cs : list Call) :
  msg.PolyHeight tx <> 0 ->
  forall r tx' cs', ComposeTx tx cs = (r, tx', cs') ->
  msg.PolyHeight tx' = msg.PolyHeight tx
  /\ exists new,
       cs' = cs ++ new
       /\ forall hash, ~ In (CallGetBlockHeightByTxHash hash) new.
Proof.
  intros Hp r tx' cs' H.
  assert (Hk : keeps (fun t => msg.PolyHeight t = msg.PolyHeight tx) notLookup ComposeTx).
  { unfold ComposeTx. keeps_rules.
    - now apply keeps_resolvePolyHeight_known.
    - now apply keeps_query.
    - now apply keeps_modify.
    - apply keeps_anchorStage.
    - now apply keeps_GetPolyParams_known.
    - now apply keeps_modify.
    - apply keeps_checkMethod. }
  destruct (Hk tx cs eq_refl r tx' cs' H) as (Hh & new & -> & HQ).
  split; [assumption|]. exists new. split; [reflexivity|].
  intros hash Hin. rewrite Forall_forall in HQ. exact (HQ _ Hin).
Qed.

(** [ComposeTx] from the fetch of the primary header on, and from the
    test of that fetch's error on. *)
Definition composeAfterHeader (err : option error) : M (option error) :=
  match err with
  | Some e => ret (Some e)
  | None =>
      err <- anchorStage ;;
      match err with
      | Some e => ret (Some e)
      | None =>
          '(param, path, _, err) <- GetPolyParams ;;
          modify (msg.set_MerkleValue_AuditPath param path) ;;
          match err with
          | Some e => ret (Some e)
          | None => checkMethod
          end
      end
  end.

Definition composeFromHeader : M (option error) :=
  tx <- get ;;
  '(hdr, err) <- query (CallGetHeaderByHeight (uint32 (msg.PolyHeight tx + 1)))
                       (GetHeaderByHeight node (uint32 (msg.PolyHeight tx + 1))) ;;
  modify (msg.set_PolyHeader hdr) ;;
  composeAfterHeader err.

Lemma ComposeTx_stages :
  ComposeTx =
  (tx <- get ;;
   if (msg.PolyHash tx =? "")%string then ret (Some ErrInvalidPolyHash)
   else if msg.DstPolyEpochStartHeight tx =? 0 then ret (Some ErrDstHeightNotSpecified)
   else
     err <- resolvePolyHeight ;;
     match err with
     | Some e => ret (Some e)
     | None => composeFromHeader
     end).
Proof. reflexivity. Qed.

(** Every function of the composer only adds calls. *)
Definition anyTx (tx : msg.Tx) : Prop := True.
Definition anyCall (c : Call) : Prop := True.

Lemma keeps_weaken (I : msg.Tx -> Prop) (Q Q' : Call -> Prop) {A : Type} (m : M A) :
  (forall c, Q c -> Q' c) -> keeps I Q m -> keeps I Q' m.
Proof.
  intros HQ Hm tx cs HI r tx' cs' H.
  destruct (Hm tx cs HI r tx' cs' H) as (HI' & new & -> & Hall).
  split; [assumption|]. exists new. split; [reflexivity|].
  eapply Forall_impl; eassumption.
Qed.

Lemma extends_resolvePolyHeight : keeps anyTx anyCall resolvePolyHeight.
Proof.
  unfold resolvePolyHeight. keeps_rules;
    first [now apply keeps_query | now apply keeps_modify].
Qed.

Lemma extends_GetPolyParams : keeps anyTx anyCall GetPolyParams.
Proof.
  unfold GetPolyParams. keeps_rules.
  - apply extends_resolvePolyHeight.
  - apply (keeps_weaken anyTx notLookup); [easy|apply keeps_GetProof].
  - now apply keeps_query.
  - apply (keeps_weaken anyTx notLookup); [easy|apply keeps_proofFromNotifies].
Qed.

Lemma extends_anchorStage : keeps anyTx anyCall anchorStage.
Proof.
  unfold anchorStage, selectAnchor, fetchAnchor. keeps_rules;
    first [now apply keeps_query | now apply keeps_modify].
Qed.

Lemma extends_checkMethod : keeps anyTx anyCall checkMethod.
Proof.
  unfold checkMethod, CollectSigs. keeps_rules. now apply keeps_modify.
Qed.

Lemma extends_composeAfterHeader err : keeps anyTx anyCall (composeAfterHeader err).
Proof.
  unfold composeAfterHeader. keeps_rules.
  - apply extends_anchorStage.
  - apply extends_GetPolyParams.
  - now apply keeps_modify.
  - apply extends_checkMethod.
Qed.

Lemma composeFromHeader_first_query (tx : msg.Tx) (cs : list Call) :
  exists r tx' rest,
    composeFromHeader tx cs
    = (r, tx', cs ++ CallGetHeaderByHeight (uint32 (msg.PolyHeight tx + 1)) :: rest).
Proof.
  unfold composeFromHeader, bind at 1 2 3, get, query, modify.
  destruct (GetHeaderByHeight node (uint32 (msg.PolyHeight tx + 1))) as [hdr err].
  destruct (composeAfterHeader err (msg.set_PolyHeader hdr tx)
              (cs ++ [CallGetHeaderByHeight (uint32 (msg.PolyHeight tx + 1))]))
    as [[r tx'] cs'] eqn:E.
  destruct (extends_composeAfterHeader err _ _ I _ _ _ E) as (_ & new & -> & _).
  exists r, tx', new. now rewrite <- app_assoc.
Qed.

(** X12.  [ComposeTx] asks the node nothing, and leaves the transaction
    as it is, exactly when the hub hash is empty or the destination's
    epoch start height is zero; it then returns the error of the missing
    field.  Otherwise its first query is the height of the hash when the
    hub height is not yet known, and the header at [PolyHeight + 1] when
    it is. *)
Theorem ComposeTx_first_query (tx : msg.Tx) (cs : list Call) :
  (msg.PolyHash tx = "" ->
   ComposeTx tx cs = (Returns (Some ErrInvalidPolyHash), tx, cs))
  /\
  (msg.PolyHash tx <> "" -> msg.DstPolyEpochStartHeight tx = 0 ->
   ComposeTx tx cs = (Returns (Some ErrDstHeightNotSpecified), tx, cs))
  /\
  (msg.PolyHash tx <> "" -> msg.DstPolyEpochStartHeight tx <> 0 ->
   exists r tx' rest,
     ComposeTx tx cs =
     (r, tx',
      cs ++ (if msg.PolyHeight tx =? 0
             then CallGetBlockHeightByTxHash (msg.PolyHash tx)
             else CallGetHeaderByHeight (uint32 (msg.PolyHeight tx + 1))) :: rest)).
Proof.
  rewrite ComposeTx_stages. split; [|split].
  - intros Hh. unfold bind at 1, get. now rewrite Hh.
  - intros Hh Hd. unfold bind at 1, get.
    apply String.eqb_neq in Hh. now rewrite Hh, Hd.
  - intros Hh Hd. unfold bind at 1, get.
    apply String.eqb_neq in Hh. apply Z.eqb_neq in Hd. rewrite Hh, Hd.
    unfold bind at 1, resolvePolyHeight, bind at 1, get.
    destruct (msg.PolyHeight tx =? 0) eqn:Hp.
    + unfold bind, query, modify, ret at 1.
      destruct (GetBlockHeightByTxHash node (msg.PolyHash tx)) as [h [e|]].
      * do 2 eexists. exists []. reflexivity.
      * destruct (composeFromHeader (msg.set_PolyHeight h tx)
                    (cs ++ [CallGetBlockHeightByTxHash (msg.PolyHash tx)]))
          as [[r tx'] cs'] eqn:E.
        assert (Hk : keeps anyTx anyCall composeFromHeader).
        { unfold composeFromHeader. keeps_rules;
            first [now apply keeps_query | now apply keeps_modify
                  | apply extends_composeAfterHeader]. }
        destruct (Hk _ _ I _ _ _ E) as (_ & new & -> & _).
        exists r, tx', new. now rewrite <- app_assoc.
    + unfold ret at 1. apply composeFromHeader_first_query.
Qed.

(** *** [CollectSigs] *)

(** The header whose signatures [CollectSigs] reads. *)
Definition sigHeader (tx : msg.Tx) : option types.Header :=
  match msg.AnchorHeader tx with
  | Some _ =>
      if negb (msg.AnchorProof tx =? "")%string then msg.AnchorHeader tx
      else msg.PolyHeader tx
  | None => msg.PolyHeader tx
  end.

Lemma convertSigs_all : forall sigData sigs,
  (forall s, In s sigData -> snd (ConvertToEthCompatible s) = None) ->
  convertSigs sigData sigs
  = (sigs ++ flat_map (fun s => fst (ConvertToEthCompatible s)) sigData, None).
Proof.
  induction sigData as [|s rest IH]; intros sigs Hall; simpl.
  - now rewrite app_nil_r.
  - pose proof (Hall s (or_introl eq_refl)) as Hs.
    destruct (ConvertToEthCompatible s) as [b e]; simpl in Hs |- *; subst e.
    rewrite IH by (intros; apply Hall; now right). now rewrite <- app_assoc.
Qed.

Lemma convertSigs_first_failure : forall pre sigs s post b e,
  (forall s', In s' pre -> snd (ConvertToEthCompatible s') = None) ->
  ConvertToEthCompatible s = (b, Some e) ->
  snd (convertSigs (pre ++ s :: post) sigs) = Some (ErrConvertSig e).
Proof.
  induction pre as [|s0 pre IH]; intros sigs s post b e Hall Hs; simpl.
  - now rewrite Hs.
  - pose proof (Hall s0 (or_introl eq_refl)) as H0.
    destruct (ConvertToEthCompatible s0) as [b0 e0]; simpl in H0; subst e0.
    eapply IH; [|eassumption]. intros; apply Hall; now right.
Qed.

(** X13.  [CollectSigs] reads the signatures of the anchor header only
    when an anchor header is stored together with a non-empty anchor
    proof, and those of the primary header otherwise; without such a
    header it panics.  When every signature converts, [DstSigs] becomes
    the converted signatures put end to end in header order and nothing
    else changes; when one does not convert, the conversion error is
    returned and the transaction is left as it was.  No call is made. *)
Theorem CollectSigs_result (tx : msg.Tx) (cs : list Call) :
  (forall a, msg.AnchorHeader tx = Some a -> msg.AnchorProof tx <> "" ->
             sigHeader tx = Some a)
  /\ (msg.AnchorHeader tx = None \/ msg.AnchorProof tx = "" ->
      sigHeader tx = msg.PolyHeader tx)
  /\ (sigHeader tx = None -> CollectSigs tx cs = (Panics, tx, cs))
  /\ (forall h, sigHeader tx = Some h ->
        ((forall s, In s (types.SigData h) -> snd (ConvertToEthCompatible s) = None) ->
         CollectSigs tx cs =
         (Returns None,
          msg.set_DstSigs
            (flat_map (fun s => fst (ConvertToEthCompatible s)) (types.SigData h)) tx,
          cs))
        /\
        (forall pre s post b e,
           types.SigData h = pre ++ s :: post ->
           (forall s', In s' pre -> snd (ConvertToEthCompatible s') = None) ->
           ConvertToEthCompatible s = (b, Some e) ->
           CollectSigs tx cs = (Returns (Some (ErrConvertSig e)), tx, cs))).
Proof.
  assert (Hc : CollectSigs tx cs =
               match sigHeader tx with
               | None => (Panics, tx, cs)
               | Some h =>
                   match convertSigs (types.SigData h) [] with
                   | (_, Some e) => (Returns (Some e), tx, cs)
                   | (sigs, None) => (Returns None, msg.set_DstSigs sigs tx, cs)
                   end
               end).
  { unfold CollectSigs, bind, get, sigHeader.
    destruct (match msg.AnchorHeader tx with
              | Some _ =>
                  if negb (msg.AnchorProof tx =? "")%string then msg.AnchorHeader tx
                  else msg.PolyHeader tx
              | None => msg.PolyHeader tx
              end) as [h|]; [|reflexivity].
    now destruct (convertSigs (types.SigData h) []) as [sigs [e|]]. }
  split; [|split; [|split]].
  - intros a Ha Hp. unfold sigHeader. rewrite Ha.
    apply String.eqb_neq in Hp. now rewrite Hp.
  - intros [Ha | Hp]; unfold sigHeader.
    + now rewrite Ha.
    + rewrite Hp. now destruct (msg.AnchorHeader tx).
  - intros Hn. now rewrite Hc, Hn.
  - intros h Hh. rewrite Hc, Hh. split.
    + intros Hall. now rewrite (convertSigs_all _ [] Hall).
    + intros pre s post b e Hd Hpre Hs. rewrite Hd.
      pose proof (convertSigs_first_failure pre [] s post b e Hpre Hs) as Hf.
      destruct (convertSigs (pre ++ s :: post) []) as [sigs err]. simpl in Hf.
      now subst err.
Qed.

(** *** Proof retrieval *)

(** X14.  With a hub hash, a known hub height and a proof key,
    [GetPolyParams] is [GetProof] at that height and key: it makes the one
    cross-states-proof query, never reads the event log, never panics and
    leaves the transaction as it is; it returns no error exactly when the
    query, the hex decoding of the audit path and the deserialization of
    its value all succeed, and then returns the deserialized parameter and
    the decoded path. *)
Theorem GetPolyParams_by_key (tx : msg.Tx) (cs : list Call) :
  msg.PolyHash tx <> "" -> msg.PolyHeight tx <> 0 -> msg.PolyKey tx <> "" ->
  let h := msg.PolyHeight tx in
  let key := msg.PolyKey tx in
  let node_result := GetCrossStatesProof node h key in
  let decoded := hex_DecodeString (fst node_result) in
  let deserialized := Deserialization (ParseAuditPath (fst decoded)) in
  exists param path err,
    GetPolyParams tx cs
    = (Returns (param, path, None, err), tx, cs ++ [CallGetCrossStatesProof h key])
    /\ (err = None <->
        snd node_result = None /\ snd decoded = None /\ snd deserialized = None)
    /\ (err = None -> param = Some (fst deserialized) /\ path = fst decoded).
Proof.
  intros Hh Hp Hk h key node_result decoded deserialized.
  unfold GetPolyParams, bind at 1, get.
  apply String.eqb_neq in Hh, Hk. apply Z.eqb_neq in Hp. rewrite Hh.
  unfold bind at 1, resolvePolyHeight, bind at 1, get. rewrite Hp.
  unfold ret at 1, bind at 1, get. rewrite Hk. cbn [negb].
  unfold GetProof, bind, query. fold h key.
  subst deserialized decoded node_result.
  destruct (GetCrossStatesProof node h key) as [proof [e1|]]; cbn [fst snd].
  - do 3 eexists. split; [reflexivity|]. split; [|discriminate].
    split; [discriminate|]. intros (H & _). discriminate.
  - destruct (hex_DecodeString proof) as [path [e2|]]; cbn [fst snd].
    + do 3 eexists. split; [reflexivity|]. split; [|discriminate].
      split; [discriminate|]. intros (_ & H & _). discriminate.
    + destruct (Deserialization (ParseAuditPath path)) as [param [e3|]]; cbn [fst snd].
      * do 3 eexists. split; [reflexivity|]. split; [|discriminate].
        split; [discriminate|]. intros (_ & _ & H). discriminate.
      * do 3 eexists. split; [reflexivity|]. repeat split.
Qed.

(** A notification that event replay passes over without a query: it
    is from another contract. *)
Definition foreign (notify : scom.NotifyEventInfo) : Prop :=
  scom.ContractAddress notify <> CCM_ADDRESS.

Lemma proofFromNotifies_foreign height : forall pre rest param path evt tx cs,
  Forall foreign pre ->
  proofFromNotifies height (pre ++ rest) param path evt tx cs
  = proofFromNotifies height rest param path evt tx cs.
Proof.
  induction pre as [|n pre IH]; intros rest param path evt tx cs Hall; [reflexivity|].
  inversion Hall as [|? ? Hn Hpre]; subst. cbn [app proofFromNotifies].
  apply String.eqb_neq in Hn. rewrite Hn. now apply IH.
Qed.

(** X15.  Event replay, for a transaction with hub hash and height but no
    proof key, on the event the node returns for the hash.  Notifications
    of other contracts are passed over.  If no notification is from the
    cross-chain manager the result is the not-found error after the one
    event query.  If the first one from the cross-chain manager has more
    than five arguments, ["makeProof"] first and a string sixth, and the
    proof under that string is retrieved without error, the result is
    that proof, no later notification is looked at, and the event result
    is nil. *)
Theorem GetPolyParams_by_event (tx : msg.Tx) (cs : list Call) (ev : scom.SmartContactEvent) :
  msg.PolyHash tx <> "" -> msg.PolyHeight tx <> 0 -> msg.PolyKey tx = "" ->
  GetSmartContractEvent node (msg.PolyHash tx) = (Some ev, None) ->
  let replay := cs ++ [CallGetSmartContractEvent (msg.PolyHash tx)] in
  (Forall foreign (scom.Notify ev) ->
   GetPolyParams tx cs
   = (Returns (None, [], Some ev, Some ErrMerkleValueNotFound), tx, replay))
  /\
  (forall pre states post key param path evt,
     scom.Notify ev
     = pre ++ {| scom.ContractAddress := CCM_ADDRESS; scom.States := VSlice states |}
           :: post ->
     Forall foreign pre ->
     5 < len states ->
     nth_error states 0 = Some (VString "makeProof") ->
     nth_error states 5 = Some (VString key) ->
     GetProof (msg.PolyHeight tx) key tx replay
     = (Returns (param, path, evt, None), tx,
        replay ++ [CallGetCrossStatesProof (msg.PolyHeight tx) key]) ->
     GetPolyParams tx cs
     = (Returns (param, path, evt, None), tx,
        replay ++ [CallGetCrossStatesProof (msg.PolyHeight tx) key])
     /\ evt = None).
Proof.
  intros Hh Hp Hk Hev replay.
  assert (Hg : GetPolyParams tx cs
               = proofFromNotifies (msg.PolyHeight tx) (scom.Notify ev) None [] (Some ev)
                   tx replay).
  { unfold GetPolyParams, bind at 1, get.
    apply String.eqb_neq in Hh. apply Z.eqb_neq in Hp. rewrite Hh.
    unfold bind at 1, resolvePolyHeight, bind at 1, get. rewrite Hp.
    unfold ret at 1, bind at 1, get. rewrite Hk. cbn [String.eqb negb].
    unfold bind, query. now rewrite Hev. }
  split.
  - intros Hall. rewrite Hg.
    rewrite <- (app_nil_r (scom.Notify ev)), (proofFromNotifies_foreign _ _ [] _ _ _ _ _ Hall).
    reflexivity.
  - intros pre states post key param path evt Hn Hpre Hlen H0 H5 Hproof.
    rewrite Hg, Hn, (proofFromNotifies_foreign _ _ _ _ _ _ _ _ Hpre).
    cbn [proofFromNotifies scom.ContractAddress scom.States].
    rewrite String.eqb_refl, H0, H5.
    replace (len states >? 5) with true by (symmetry; apply Z.gtb_lt; lia).
    cbn [String.eqb Ascii.eqb Bool.eqb andb].
    unfold bind at 1. rewrite Hproof. split; [reflexivity|].
    unfold GetProof, bind, query, ret in Hproof.
    destruct (GetCrossStatesProof node (msg.PolyHeight tx) key) as [proof [e1|]];
      [now inversion Hproof|].
    destruct (hex_DecodeString proof) as [p [e2|]]; [now inversion Hproof|].
    destruct (Deserialization (ParseAuditPath p)) as [pr [e3|]]; now inversion Hproof.
Qed.

(** *** What a successful composition implies *)

Lemma convertSigs_success : forall sigData sigs out,
  convertSigs sigData sigs = (out, None) ->
  out = sigs ++ flat_map (fun s => fst (ConvertToEthCompatible s)) sigData.
Proof.
  induction sigData as [|s rest IH]; intros sigs out; simpl.
  - intros H; injection H as <-. now rewrite app_nil_r.
  - destruct (ConvertToEthCompatible s) as [b [e|]]; [discriminate|].
    intros H. apply IH in H. simpl. now rewrite H, <- app_assoc.
Qed.

Lemma checkMethod_success (tx : msg.Tx) (cs : list Call) (tx' : msg.Tx) (cs' : list Call) :
  checkMethod tx cs = (Returns None, tx', cs') ->
  exists mv p h,
    msg.MerkleValue tx = Some mv
    /\ ccom.ToMerkleValue.MakeTxParam mv = Some p
    /\ AllowMethod (ccom.Method p) = false
    /\ sigHeader tx = Some h
    /\ tx' = msg.set_DstSigs
               (flat_map (fun s => fst (ConvertToEthCompatible s)) (types.SigData h)) tx
    /\ cs' = cs.
Proof.
  unfold checkMethod, bind at 1, get.
  destruct (msg.MerkleValue tx) as [mv|]; [|discriminate].
  destruct (ccom.ToMerkleValue.MakeTxParam mv) as [p|] eqn:Hp.
  - destruct (AllowMethod (ccom.Method p)) eqn:Ha.
    + destruct (msg.Param tx); discriminate.
    + unfold CollectSigs, bind, get. fold (sigHeader tx).
      destruct (sigHeader tx) as [h|]; [|discriminate].
      destruct (convertSigs (types.SigData h) []) as [sigs [e|]] eqn:Hs; [discriminate|].
      unfold modify, ret. intros H; injection H as <- <-.
      apply convertSigs_success in Hs. simpl in Hs. subst sigs.
      exists mv, p, h. repeat split; auto.
  - destruct (msg.Param tx); discriminate.
Qed.

(** X16.  When [ComposeTx] returns no error, the transaction has a hub
    hash and a destination epoch start height, carries a decoded
    parameter whose method [AllowMethod] answers false for, and its
    [DstSigs] are the converted signatures, in header order, of the header
    [CollectSigs] reads. *)
Theorem ComposeTx_success (tx : msg.Tx) (cs : list Call) (tx' : msg.Tx) (cs' : list Call) :
  ComposeTx tx cs = (Returns None, tx', cs') ->
  msg.PolyHash tx <> "" /\ msg.DstPolyEpochStartHeight tx <> 0
  /\ exists mv p h,
       msg.MerkleValue tx' = Some mv
       /\ ccom.ToMerkleValue.MakeTxParam mv = Some p
       /\ AllowMethod (ccom.Method p) = false
       /\ sigHeader tx' = Some h
       /\ msg.DstSigs tx'
          = flat_map (fun s => fst (ConvertToEthCompatible s)) (types.SigData h).
Proof.
  rewrite ComposeTx_stages. unfold bind at 1, get.
  destruct (msg.PolyHash tx =? "")%string eqn:Hh; [discriminate|].
  destruct (msg.DstPolyEpochStartHeight tx =? 0) eqn:Hd; [discriminate|].
  apply String.eqb_neq in Hh. apply Z.eqb_neq in Hd.
  unfold bind at 1.
  destruct (resolvePolyHeight tx cs) as [[[[e|]|] tx1] cs1]; try discriminate.
  unfold composeFromHeader, bind at 1 2 3, get, query, modify.
  destruct (GetHeaderByHeight node (uint32 (msg.PolyHeight tx1 + 1))) as [hdr [e|]];
    [discriminate|].
  unfold composeAfterHeader, bind at 1.
  destruct (anchorStage (msg.set_PolyHeader hdr tx1)
              (cs1 ++ [CallGetHeaderByHeight (uint32 (msg.PolyHeight tx1 + 1))]))
    as [[[[e|]|] tx2] cs2]; try discriminate.
  unfold bind at 1.
  destruct (GetPolyParams tx2 cs2) as [[[[[[param path] evt] [e|]]|] tx3] cs3];
    try discriminate.
  unfold bind, modify.
  intros H. apply checkMethod_success in H.
  destruct H as (mv & p & h & Hmv & Hp & Ha & Hs & -> & _).
  split; [assumption|]. split; [assumption|].
  exists mv, p, h. repeat split; assumption.
Qed.

End WithNode.

(** *** A concrete hub node

    Every height has a header with the empty next-bookkeeper address and
    one signature; every state proof is the audit path ["0a0b"]; decoding
    it yields a parameter that invokes ["unlock"] on contract [[xaa; xbb]].
    The keys and the hash are those of [Epoch.Toy]. *)
Module Example.

Definition hdr (h : Z) : types.Header :=
  {| types.Height := h; types.NextBookkeeper := ADDRESS_EMPTY;
     types.ConsensusPayload := []; types.SigData := [[x51]] |}.

Definition node : Client :=
  {| GetBlockHeightByTxHash := fun _ => (10, None);
     GetHeaderByHeight := fun h => (Some (hdr h), None);
     GetMerkleProof := fun _ _ => ("c0de", None);
     GetCrossStatesProof := fun _ _ => ("0a0b", None);
     GetSmartContractEvent := fun _ => (None, Some (SdkError "no event"));
     GetSmartContractEventByBlock := fun _ => ([], None) |}.

Definition Deserialization (value : bytes) : ccom.ToMerkleValue.t * option error :=
  ({| ccom.ToMerkleValue.TxHash := value;
      ccom.ToMerkleValue.FromChainID := 2;
      ccom.ToMerkleValue.MakeTxParam :=
        Some {| ccom.ToContractAddress := [xaa; xbb]; ccom.Method := "unlock";
                ccom.Args := [] |} |}, None).

Definition ConvertToEthCompatible (sig : bytes) : bytes * option error := (sig, None).

(** [ComposeTx] on this node with a given allow-list. *)
Definition ComposeTx (AllowMethod : string -> bool) : M (option error) :=
  Composer.ComposeTx node "ccm" (fun b => b) Deserialization AllowMethod
    ConvertToEthCompatible Epoch.Toy.PublicKey (Epoch.Toy.json_Unmarshal [])
    Epoch.Toy.DeserializePublicKey Epoch.Toy.SortPublicKeys Epoch.Toy.EncodePubKey
    Epoch.Toy.EncodeEthPubKey Epoch.Toy.Keccak256.

Definition anchorStage : M (option error) :=
  Composer.anchorStage node Epoch.Toy.PublicKey (Epoch.Toy.json_Unmarshal [])
    Epoch.Toy.DeserializePublicKey Epoch.Toy.SortPublicKeys Epoch.Toy.EncodePubKey
    Epoch.Toy.EncodeEthPubKey Epoch.Toy.Keccak256.

(** A scanned transaction at hub height 10 for a destination whose epoch
    started at height [d]. *)
Definition tx (d : Z) : msg.Tx :=
  {| msg.TxType_ := msg.POLY; msg.Attempts := 0; msg.TxId := "";
     msg.MerkleValue := None; msg.Param := None;
     msg.SrcHash := ""; msg.SrcHeight := 0; msg.SrcChainId := 2;
     msg.SrcProof := ""; msg.SrcEvent := ""; msg.SrcProofHeight := 0;
     msg.PolyHash := "beef"; msg.PolyHeight := 10; msg.PolyKey := "key";
     msg.PolyHeader := None; msg.AnchorHeader := None; msg.AnchorProof := "";
     msg.AuditPath := []; msg.DstChainId := 3; msg.DstPolyEpochStartHeight := d;
     msg.DstPolyKeepers := [x01]; msg.DstProxy := "AABB"; msg.DstSigs := [] |}.

Definition onlyUnlock (method : string) : bool := (method =? "unlock")%string.
Definition onlyLock (method : string) : bool := (method =? "lock")%string.

End Example.

(** C1 (what the code does).  The decoded method is ["unlock"].  With
    ["unlock"] on the allow-list [ComposeTx] returns the
    invalid-transaction error and collects no signature; with an
    allow-list that does not hold ["unlock"] it goes on to collect the
    signatures and returns no error. *)
Theorem ComposeTx_rejects_allowed_method :
  (exists tx' cs,
     Example.ComposeTx Example.onlyUnlock (Example.tx 5) []
     = (Returns (Some (ErrInvalidPolyTx 2 "beef" "missing param")), tx', cs)
     /\ errors_Is (ErrInvalidPolyTx 2 "beef" "missing param") ERR_INVALID_TX = true
     /\ msg.DstSigs tx' = [])
  /\
  (exists tx' cs,
     Example.ComposeTx Example.onlyLock (Example.tx 5) []
     = (Returns None, tx', cs)
     /\ msg.DstSigs tx' = [x51]).
Proof.
  split; eexists; eexists; (split; [vm_compute; reflexivity|]); repeat split.
Qed.

(** Hub height 10, epoch start 20: the anchor header is the one at 21. *)
Lemma anchor_rule_witness :
  exists r tx' rest,
    Example.anchorStage (Example.tx 20) []
    = (Returns r, tx', [] ++ CallGetHeaderByHeight (20 + 1) :: rest)
    /\ msg.AnchorHeader tx' = fst (GetHeaderByHeight Example.node (20 + 1))
    /\ (rest = [] \/ rest = [CallGetMerkleProof (10 + 1) (20 + 1)]).
Proof.
  apply (proj1 (anchor_rule Example.node Epoch.Toy.PublicKey (Epoch.Toy.json_Unmarshal [])
                  Epoch.Toy.DeserializePublicKey Epoch.Toy.SortPublicKeys
                  Epoch.Toy.EncodePubKey Epoch.Toy.EncodeEthPubKey Epoch.Toy.Keccak256
                  (Example.tx 20) []
                  ltac:(simpl; lia) ltac:(simpl; lia)));
    simpl; lia.
Defined.

(** C3 as stated fails when the epoch start height is the largest 32-bit
    value: the hub height 10 is below it, yet [ComposeTx] asks for no
    anchor header (its only header query is the one at height 11) and
    stores none. *)
Lemma no_anchor_at_max_epoch_start :
  10 < 4294967295
  /\ exists tx',
       Example.ComposeTx Example.onlyLock (Example.tx 4294967295) []
       = (Returns None, tx',
          [CallGetHeaderByHeight 11; CallGetCrossStatesProof 10 "key"])
       /\ msg.AnchorHeader tx' = None
       /\ msg.AnchorProof tx' = "".
Proof.
  split; [lia|]. eexists. split; [vm_compute; reflexivity|]. split; reflexivity.
Qed.

(** *** A node for event replay: the event of the hash has one
    notification of another contract and then a ["makeProof"]
    notification of the cross-chain manager with proof key ["key"]. *)
Module Replay.

Definition event : scom.SmartContactEvent :=
  {| scom.TxHash := "beef";
     scom.Notify :=
       [ {| scom.ContractAddress := "other"; scom.States := VOther |};
         {| scom.ContractAddress := "ccm";
            scom.States :=
              VSlice [VString "makeProof"; VFloat64 2%float; VFloat64 3%float;
                      VString "tx123"; VFloat64 10%float; VString "key"] |} ] |}.

Definition node : Client :=
  {| GetBlockHeightByTxHash := GetBlockHeightByTxHash Example.node;
     GetHeaderByHeight := GetHeaderByHeight Example.node;
     GetMerkleProof := GetMerkleProof Example.node;
     GetCrossStatesProof := GetCrossStatesProof Example.node;
     GetSmartContractEvent := fun _ => (Some event, None);
     GetSmartContractEventByBlock := fun _ => ([event], None) |}.

(** The transaction of [Example] without its proof key. *)
Definition tx : msg.Tx :=
  {| msg.TxType_ := msg.POLY; msg.Attempts := 0; msg.TxId := "";
     msg.MerkleValue := None; msg.Param := None;
     msg.SrcHash := ""; msg.SrcHeight := 0; msg.SrcChainId := 2;
     msg.SrcProof := ""; msg.SrcEvent := ""; msg.SrcProofHeight := 0;
     msg.PolyHash := "beef"; msg.PolyHeight := 10; msg.PolyKey := "";
     msg.PolyHeader := None; msg.AnchorHeader := None; msg.AnchorProof := "";
     msg.AuditPath := []; msg.DstChainId := 3; msg.DstPolyEpochStartHeight := 5;
     msg.DstPolyKeepers := [x01]; msg.DstProxy := "AABB"; msg.DstSigs := [] |}.

End Replay.

Lemma ComposeTx_known_height_witness :
  let res := Example.ComposeTx Example.onlyLock (Example.tx 5) [] in
  msg.PolyHeight (snd (fst res)) = msg.PolyHeight (Example.tx 5)
  /\ exists new,
       snd res = [] ++ new
       /\ forall hash, ~ In (CallGetBlockHeightByTxHash hash) new.
Proof.
  intros res.
  exact (ComposeTx_known_height Example.node "ccm" (fun b => b) Example.Deserialization
           Example.onlyLock Example.ConvertToEthCompatible Epoch.Toy.PublicKey
           (Epoch.Toy.json_Unmarshal []) Epoch.Toy.DeserializePublicKey
           Epoch.Toy.SortPublicKeys Epoch.Toy.EncodePubKey Epoch.Toy.EncodeEthPubKey
           Epoch.Toy.Keccak256 (Example.tx 5) [] ltac:(discriminate)
           (fst (fst res)) (snd (fst res)) (snd res) eq_refl).
Defined.

Lemma ComposeTx_first_query_witness :
  exists r tx' rest,
    Example.ComposeTx Example.onlyLock (Example.tx 5) []
    = (r, tx', [] ++ CallGetHeaderByHeight (uint32 (10 + 1)) :: rest).
Proof.
  exact (proj2 (proj2 (ComposeTx_first_query Example.node "ccm" (fun b => b)
                         Example.Deserialization Example.onlyLock
                         Example.ConvertToEthCompatible Epoch.Toy.PublicKey
                         (Epoch.Toy.json_Unmarshal []) Epoch.Toy.DeserializePublicKey
                         Epoch.Toy.SortPublicKeys Epoch.Toy.EncodePubKey
                         Epoch.Toy.EncodeEthPubKey Epoch.Toy.Keccak256 (Example.tx 5) []))
           ltac:(discriminate) ltac:(discriminate)).
Defined.

(** An anchor header is stored but its proof is empty: the signatures
    are those of the primary header. *)
Lemma CollectSigs_result_witness :
  let tx := msg.set_AnchorHeader (Some (Example.hdr 21))
              (msg.set_PolyHeader
                 (Some {| types.Height := 11; types.NextBookkeeper := ADDRESS_EMPTY;
                          types.ConsensusPayload := [];
                          types.SigData := [[x01; x02]; [x03]] |})
                 (Example.tx 20)) in
  CollectSigs Example.ConvertToEthCompatible tx []
  = (Returns None, msg.set_DstSigs [x01; x02; x03] tx, []).
Proof.
  intros tx.
  destruct (CollectSigs_result Example.ConvertToEthCompatible tx []) as (_ & _ & _ & H).
  exact (proj1 (H _ eq_refl) (fun s _ => eq_refl)).
Defined.

Lemma GetPolyParams_by_key_witness :
  exists param path err,
    GetPolyParams Example.node "ccm" (fun b => b) Example.Deserialization (Example.tx 5) []
    = (Returns (param, path, None, err), Example.tx 5,
       [] ++ [CallGetCrossStatesProof 10 "key"])
    /\ (err = None <-> @None error = None /\ @None error = None /\ @None error = None)
    /\ (err = None ->
        param = Some (fst (Example.Deserialization [x0a; x0b])) /\ path = [x0a; x0b]).
Proof.
  exact (GetPolyParams_by_key Example.node "ccm" (fun b => b) Example.Deserialization
           (Example.tx 5) [] ltac:(discriminate) ltac:(discriminate) ltac:(discriminate)).
Defined.

Lemma GetPolyParams_by_event_witness :
  GetPolyParams Replay.node "ccm" (fun b => b) Example.Deserialization Replay.tx []
  = (Returns (Some (fst (Example.Deserialization [x0a; x0b])), [x0a; x0b], None, None),
     Replay.tx,
     ([] ++ [CallGetSmartContractEvent "beef"]) ++ [CallGetCrossStatesProof 10 "key"]).
Proof.
  destruct (GetPolyParams_by_event Replay.node "ccm" (fun b => b) Example.Deserialization
              Replay.tx [] Replay.event ltac:(discriminate) ltac:(discriminate)
              eq_refl eq_refl) as [_ H].
  refine (proj1 (H [ {| scom.ContractAddress := "other"; scom.States := VOther |} ]
                   _ [] "key" _ _ None eq_refl _ _ eq_refl eq_refl eq_refl)).
  - repeat constructor. discriminate.
  - unfold len; simpl; lia.
Defined.

Lemma ComposeTx_success_witness :
  let res := Example.ComposeTx Example.onlyLock (Example.tx 5) [] in
  msg.PolyHash (Example.tx 5) <> "" /\ msg.DstPolyEpochStartHeight (Example.tx 5) <> 0
  /\ exists mv p h,
       msg.MerkleValue (snd (fst res)) = Some mv
       /\ ccom.ToMerkleValue.MakeTxParam mv = Some p
       /\ Example.onlyLock (ccom.Method p) = false
       /\ sigHeader (snd (fst res)) = Some h
       /\ msg.DstSigs (snd (fst res))
          = flat_map (fun s => fst (Example.ConvertToEthCompatible s)) (types.SigData h).
Proof.
  intros res.
  exact (ComposeTx_success Example.node "ccm" (fun b => b) Example.Deserialization
           Example.onlyLock Example.ConvertToEthCompatible Epoch.Toy.PublicKey
           (Epoch.Toy.json_Unmarshal []) Epoch.Toy.DeserializePublicKey
           Epoch.Toy.SortPublicKeys Epoch.Toy.EncodePubKey Epoch.Toy.EncodeEthPubKey
           Epoch.Toy.Keccak256 (Example.tx 5) [] (snd (fst res)) (snd res) eq_refl).
Defined.

End Composer.

(** * Event listener, scanner and validation *)

(** The integer part of a float (the fraction is discarded); [None] for
    an infinity or a NaN. *)
Definition float64_trunc (f : float) : option Z :=
  match Prim2SF f with
  | S754_zero _ => Some 0
  | S754_finite s m e =>
      let a := if 0 <=? e then Zpos m * 2 ^ e else Zpos m / 2 ^ (- e) in
      Some (if s then - a else a)
  | _ => None
  end.

Module Listener.

Section WithChain.

(** [poly.CCM_ADDRESS]. *)
Variable CCM_ADDRESS : string.

(** [base.NEO], [base.NEO3], [base.ONT]. *)
Variables NEO NEO3 ONT : Z.

(** [util.ReverseHex] and [util.LowerHex]. *)
Variable ReverseHex : string -> string.
Variable LowerHex : string -> string.

(** The conversions [uint64(f)] and [uint32(f)] of a [float64] whose
    integer part does not fit: the language leaves the result to the
    implementation. *)
Variable uint64_unrepresentable : float -> Z.
Variable uint32_unrepresentable : float -> Z.

(** [sub.getProof(node, height, key)], first and last result. *)
Variable getProof :
  Client -> Z -> string -> outcome (option ccom.ToMerkleValue.t * option error).

Definition uint64_of_float64 (f : float) : Z :=
  match float64_trunc f with
  | Some v => if (0 <=? v) && (v <? 2 ^ 64) then v else uint64_unrepresentable f
  | None => uint64_unrepresentable f
  end.

Definition uint32_of_float64 (f : float) : Z :=
  match float64_trunc f with
  | Some v => if (0 <=? v) && (v <? 2 ^ 32) then v else uint32_unrepresentable f
  | None => uint32_unrepresentable f
  end.

(** The transaction built by [Scan] and [scanTx] from a notification. *)
Definition makeProofTx (dstChain : Z) (polyKey : string) (polyHeight : Z)
    (polyHash txId : string) (srcChainId : Z) : msg.Tx :=
  {| msg.TxType_ := msg.POLY; msg.Attempts := 0;
     msg.TxId :=
       if (srcChainId =? NEO) || (srcChainId =? NEO3) || (srcChainId =? ONT)
       then ReverseHex txId else txId;
     msg.MerkleValue := None; msg.Param := None;
     msg.SrcHash := ""; msg.SrcHeight := 0; msg.SrcChainId := srcChainId;
     msg.SrcProof := ""; msg.SrcEvent := ""; msg.SrcProofHeight := 0;
     msg.PolyHash := polyHash; msg.PolyHeight := polyHeight; msg.PolyKey := polyKey;
     msg.PolyHeader := None; msg.AnchorHeader := None; msg.AnchorProof := "";
     msg.AuditPath := []; msg.DstChainId := dstChain; msg.DstPolyEpochStartHeight := 0;
     msg.DstPolyKeepers := []; msg.DstProxy := ""; msg.DstSigs := [] |}.

(** The body of the loop over notifications, common to [Scan] and
    [scanTx] up to the source of [PolyHeight]: [Scan] takes the scanned
    height ([byBlock] is [Some (uint32 height)]), [scanTx] converts
    [states[4]] ([byBlock] is [None]).  [Returns None] is [continue]. *)
Definition scanNotify (byBlock : option Z) (txHash : string)
    (notify : scom.NotifyEventInfo) : outcome (option msg.Tx) :=
  if negb (scom.ContractAddress notify =? CCM_ADDRESS)%string then Returns None
  else
    match scom.States notify with
    | VSlice states =>
        if len states <? 6 then Returns None
        else
          let method :=
            match nth_error states 0 with
            | Some (VString m) => m
            | _ => ""
            end in
          if negb (method =? "makeProof")%string then Returns None
          else
            match nth_error states 2 with
            | Some (VFloat64 f2) =>
                let dstChain := uint64_of_float64 f2 in
                if dstChain =? 0 then Returns None
                else
                  match nth_error states 5 with
                  | Some (VString polyKey) =>
                      let polyHeight :=
                        match byBlock with
                        | Some h => Returns h
                        | None =>
                            match nth_error states 4 with
                            | Some (VFloat64 f4) => Returns (uint32_of_float64 f4)
                            | _ => Panics
                            end
                        end in
                      match polyHeight with
                      | Panics => Panics
                      | Returns h =>
                          match nth_error states 3 with
                          | Some (VString txId) =>
                              match nth_error states 1 with
                              | Some (VFloat64 f1) =>
                                  Returns (Some (makeProofTx dstChain polyKey h txHash
                                                   txId (uint64_of_float64 f1)))
                              | _ => Panics
                              end
                          | _ => Panics
                          end
                      end
                  | _ => Panics
                  end
            | _ => Panics
            end
    | _ => Panics
    end.

(** [Scan]: the inner loop, over the notifications of one event. *)
Fixpoint scanNotifies (height : Z) (txHash : string)
    (notifies : list scom.NotifyEventInfo) (txs : list msg.Tx) : outcome (list msg.Tx) :=
  match notifies with
  | [] => Returns txs
  | notify :: rest =>
      match scanNotify (Some (uint32 height)) txHash notify with
      | Panics => Panics
      | Returns None => scanNotifies height txHash rest txs
      | Returns (Some tx) => scanNotifies height txHash rest (txs ++ [tx])
      end
  end.

(** [Scan]: the outer loop, over the events of the block. *)
Fixpoint scanEvents (height : Z) (events : list scom.SmartContactEvent)
    (txs : list msg.Tx) : outcome (list msg.Tx) :=
  match events with
  | [] => Returns txs
  | event :: rest =>
      match scanNotifies height (scom.TxHash event) (scom.Notify event) txs with
      | Panics => Panics
      | Returns txs' => scanEvents height rest txs'
      end
  end.

Definition Scan (node : Client) (height : Z) : outcome (list msg.Tx * option error) :=
  let '(events, err) := GetSmartContractEventByBlock node (uint32 height) in
  match err with
  | Some e => Returns ([], Some e)
  | None =>
      match scanEvents height events [] with
      | Panics => Panics
      | Returns txs => Returns (txs, None)
      end
  end.

(** [scanTx]: the loop over the notifications of the event. *)
Fixpoint firstMakeProof (hash txHash : string) (notifies : list scom.NotifyEventInfo)
  : outcome (option msg.Tx * option error) :=
  match notifies with
  | [] => Returns (None, Some (ErrNoEvent hash))
  | notify :: rest =>
      match scanNotify None txHash notify with
      | Panics => Panics
      | Returns None => firstMakeProof hash txHash rest
      | Returns (Some tx) => Returns (Some tx, None)
      end
  end.

Definition scanTx (node : Client) (hash : string)
  : outcome (option msg.Tx * option error) :=
  let '(event, err) := GetSmartContractEvent node hash in
  match err with
  | Some e => Returns (None, Some e)
  | None =>
      match event with
      | None => Panics (* event.Notify *)
      | Some ev => firstMakeProof hash (scom.TxHash ev) (scom.Notify ev)
      end
  end.

Definition validate (node : Client) (tx : msg.Tx) : outcome (option error) :=
  match scanTx node (msg.PolyHash tx) with
  | Panics => Panics
  | Returns (_, Some e) => Returns (Some e)
  | Returns (None, None) => Returns (Some ErrProofMissing)
  | Returns (Some t, None) =>
      if negb (msg.SrcChainId tx =? msg.SrcChainId t) then
        Returns (Some (ErrSrcChainMismatch (msg.SrcChainId tx) (msg.SrcChainId t)))
      else if negb (msg.DstChainId tx =? msg.DstChainId t) then
        Returns (Some (ErrDstChainMismatch (msg.DstChainId tx) (msg.DstChainId t)))
      else
        match getProof node (msg.PolyHeight t) (msg.PolyKey t) with
        | Panics => Panics
        | Returns (_, Some e) => Returns (Some e)
        | Returns (None, None) => Returns (Some ErrProofMissing)
        | Returns (Some value, None) =>
            match ccom.ToMerkleValue.MakeTxParam value with
            | None => Panics (* value.MakeTxParam.ToContractAddress *)
            | Some param =>
                let a := LowerHex (hex_EncodeToString (ccom.ToContractAddress param)) in
                let b := LowerHex (msg.DstProxy tx) in
                if negb (a =? b)%string then Returns (Some (ErrToContractMismatch b a))
                else Returns None
            end
        end
  end.

(** [Validate]: the loop over [l.sdk.AllNodes()], entered with the error
    [err] of the primary node.  A node that validates the transaction
    ends the loop with a bare [return], which returns [err]. *)
Fixpoint otherNodes (nodes : list Client) (tx : msg.Tx) (err : option error)
  : outcome (option error) :=
  match nodes with
  | [] => Returns err
  | node :: rest =>
      match validate node tx with
      | Panics => Panics
      | Returns None => Returns err
      | Returns (Some _) => otherNodes rest tx err
      end
  end.

(** [Validate], with [l.sdk.Node()] and [l.sdk.AllNodes()]. *)
Definition Validate (primary : Client) (allNodes : list Client) (tx : msg.Tx)
  : outcome (option error) :=
  match validate primary tx with
  | Panics => Panics
  | Returns None => Returns None
  | Returns (Some e) => otherNodes allNodes tx (Some e)
  end.

(** *** [Scan] *)





(** *** [scanTx] and [validate] *)

(** [scanTx] never returns a nil transaction with a nil error. *)
Lemma scanTx_tx_or_error (node : Client) (hash : string) :
  scanTx node hash <> Returns (None, None).
Proof.
  unfold scanTx. destruct (GetSmartContractEvent node hash) as [event [e|]];
    [discriminate|].
  destruct event as [ev|]; [|discriminate].
  induction (scom.Notify ev) as [|n rest IH]; simpl; [discriminate|].
  destruct (scanNotify None (scom.TxHash ev) n) as [[tx|]|]; try discriminate.
  exact IH.
Qed.

Lemma otherNodes_keeps_error : forall nodes tx err,
  otherNodes nodes tx err = Returns err \/ otherNodes nodes tx err = Panics.
Proof.
  induction nodes as [|n rest IH]; intros tx err; simpl; [now left|].
  destruct (validate n tx) as [[e|]|]; auto.
Qed.

(** ** Further properties of the scanner and of validation *)

(** X23.  [t] is the record re-derived by [scanTx] on a node.  A source
    chain id that differs from [t]'s, or (the source ids agreeing) a
    destination chain id that differs, makes [validate] return an error
    that wraps the violation sentinel.  With both ids agreeing and a
    re-derived parameter: a destination contract that, hex-encoded and
    lowered, differs from the lowered destination proxy is a violation
    too, and an equal one validates.  [Validate] returns success exactly
    when [validate] on the primary node does; an error of the primary
    node is what [Validate] returns, whatever the other nodes say. *)
Theorem validate_mismatch_is_violation (node primary : Client)
    (allNodes : list Client) (tx t : msg.Tx) :
  scanTx node (msg.PolyHash tx) = Returns (Some t, None) ->
  (msg.SrcChainId tx <> msg.SrcChainId t ->
   exists e, validate node tx = Returns (Some e)
             /\ e = ErrSrcChainMismatch (msg.SrcChainId tx) (msg.SrcChainId t)
             /\ errors_Is e ERR_TX_VOILATION = true)
  /\
  (msg.SrcChainId tx = msg.SrcChainId t ->
   msg.DstChainId tx <> msg.DstChainId t ->
   exists e, validate node tx = Returns (Some e)
             /\ e = ErrDstChainMismatch (msg.DstChainId tx) (msg.DstChainId t)
             /\ errors_Is e ERR_TX_VOILATION = true)
  /\
  (msg.SrcChainId tx = msg.SrcChainId t ->
   msg.DstChainId tx = msg.DstChainId t ->
   forall value param,
     getProof node (msg.PolyHeight t) (msg.PolyKey t) = Returns (Some value, None) ->
     ccom.ToMerkleValue.MakeTxParam value = Some param ->
     let a := LowerHex (hex_EncodeToString (ccom.ToContractAddress param)) in
     let b := LowerHex (msg.DstProxy tx) in
     (a <> b ->
      exists e, validate node tx = Returns (Some e)
                /\ e = ErrToContractMismatch b a
                /\ errors_Is e ERR_TX_VOILATION = true)
     /\ (a = b -> validate node tx = Returns None))
  /\
  (Validate primary allNodes tx = Returns None <-> validate primary tx = Returns None)
  /\
  (forall e, validate primary tx = Returns (Some e) ->
             Validate primary allNodes tx = Returns (Some e)
             \/ Validate primary allNodes tx = Panics).
Proof.
  intros Hscan. split; [|split; [|split; [|split]]].
  - intros Hsrc. eexists. unfold validate. rewrite Hscan.
    apply Z.eqb_neq in Hsrc. rewrite Hsrc. simpl. repeat split.
  - intros Hsrc Hdst. eexists. unfold validate. rewrite Hscan.
    apply Z.eqb_eq in Hsrc. apply Z.eqb_neq in Hdst. rewrite Hsrc, Hdst. simpl.
    repeat split.
  - intros Hsrc Hdst. apply Z.eqb_eq in Hsrc, Hdst.
    intros value param Hp Hparam a b. unfold validate.
    rewrite Hscan, Hsrc, Hdst, Hp, Hparam. fold a b. cbn [negb]. split.
    + intros Hab. apply String.eqb_neq in Hab. rewrite Hab. cbn [negb].
      eexists. repeat split.
    + intros Hab. apply String.eqb_eq in Hab. now rewrite Hab.
  - unfold Validate. destruct (validate primary tx) as [[e|]|].
    + destruct (otherNodes_keeps_error allNodes tx (Some e)) as [-> | ->];
        split; discriminate.
    + split; reflexivity.
    + split; discriminate.
  - intros e He. unfold Validate. rewrite He. apply otherNodes_keeps_error.
Qed.

(** What a transaction made from a notification always satisfies. *)
Lemma scanNotify_tx (byBlock : option Z) (txHash : string)
    (notify : scom.NotifyEventInfo) (tx : msg.Tx) :
  scanNotify byBlock txHash notify = Returns (Some tx) ->
  scom.ContractAddress notify = CCM_ADDRESS
  /\ msg.DstChainId tx <> 0
  /\ msg.PolyHash tx = txHash
  /\ msg.TxType_ tx = msg.POLY
  /\ msg.MerkleValue tx = None
  /\ (forall h, byBlock = Some h -> msg.PolyHeight tx = h).
Proof.
  unfold scanNotify.
  destruct (scom.ContractAddress notify =? CCM_ADDRESS)%string eqn:Ha;
    [|discriminate]. apply String.eqb_eq in Ha. cbn [negb].
  destruct (scom.States notify) as [| |states|]; try discriminate.
  destruct (len states <? 6); [discriminate|].
  destruct (negb _); [discriminate|].
  destruct (nth_error states 2) as [[| f2 | |]|]; try discriminate.
  destruct (uint64_of_float64 f2 =? 0) eqn:Hd; [discriminate|]. apply Z.eqb_neq in Hd.
  destruct (nth_error states 5) as [[key| | |]|]; try discriminate.
  destruct byBlock as [h|].
  - destruct (nth_error states 3) as [[id| | |]|]; try discriminate.
    destruct (nth_error states 1) as [[| f1 | |]|]; try discriminate.
    intros H; injection H as <-. simpl. repeat split; auto. intros h' E; now injection E.
  - destruct (nth_error states 4) as [[| f4 | |]|]; try discriminate.
    destruct (nth_error states 3) as [[id| | |]|]; try discriminate.
    destruct (nth_error states 1) as [[| f1 | |]|]; try discriminate.
    intros H; injection H as <-. simpl. repeat split; auto. discriminate.
Qed.

(** What [Scan] guarantees of every transaction it hands out. *)
Definition scanned (height : Z) (events : list scom.SmartContactEvent) (tx : msg.Tx)
  : Prop :=
  msg.DstChainId tx <> 0
  /\ msg.PolyHeight tx = uint32 height
  /\ msg.TxType_ tx = msg.POLY
  /\ msg.MerkleValue tx = None
  /\ exists ev, In ev events /\ msg.PolyHash tx = scom.TxHash ev.

Lemma scanNotifies_scanned height events ev : forall notifies txs txs',
  In ev events ->
  Forall (scanned height events) txs ->
  scanNotifies height (scom.TxHash ev) notifies txs = Returns txs' ->
  Forall (scanned height events) txs'.
Proof.
  induction notifies as [|n rest IH]; intros txs txs' Hev Hall; simpl.
  - intros H; now injection H as <-.
  - destruct (scanNotify (Some (uint32 height)) (scom.TxHash ev) n) as [[tx|]|] eqn:Hn;
      [| |discriminate].
    + apply IH; [assumption|]. apply Forall_app. split; [assumption|].
      constructor; [|constructor].
      destruct (scanNotify_tx _ _ _ _ Hn) as (_ & Hd & Hh & Ht & Hm & Hp).
      repeat split; auto. exists ev. auto.
    + now apply IH.
Qed.

Lemma scanEvents_scanned height all : forall events txs txs',
  (forall ev, In ev events -> In ev all) ->
  Forall (scanned height all) txs ->
  scanEvents height events txs = Returns txs' ->
  Forall (scanned height all) txs'.
Proof.
  induction events as [|ev rest IH]; intros txs txs' Hsub Hall; simpl.
  - intros H; now injection H as <-.
  - destruct (scanNotifies height (scom.TxHash ev) (scom.Notify ev) txs) as [txs1|] eqn:Hn;
      [|discriminate].
    apply IH; [intros; apply Hsub; now right|].
    eapply scanNotifies_scanned; [|eassumption|eassumption]. apply Hsub. now left.
Qed.

(** X17.  Whatever [Scan] returns: with an error it returns no
    transaction; and every transaction it returns has a destination chain
    other than 0, the scanned height cut to 32 bits as hub height, the
    hash of one of the block's events as hub hash, the type [POLY], and no
    Merkle value yet. *)
Theorem Scan_transactions (node : Client) (height : Z) (txs : list msg.Tx)
    (err : option error) :
  Scan node height = Returns (txs, err) ->
  (err <> None -> txs = [])
  /\ Forall
       (scanned height (fst (GetSmartContractEventByBlock node (uint32 height)))) txs.
Proof.
  unfold Scan.
  destruct (GetSmartContractEventByBlock node (uint32 height)) as [events [e|]];
    cbn [fst].
  - intros H; injection H as <- <-. split; [reflexivity|constructor].
  - destruct (scanEvents height events []) as [txs1|] eqn:Hs; [|discriminate].
    intros H; injection H as <- <-. split; [congruence|].
    eapply scanEvents_scanned; [| |exact Hs]; auto.
Qed.

(** X18.  Notifications [Scan] and [scanTx] pass over without reading
    their arguments: those of another contract, whatever their payload;
    and those of the cross-chain manager with fewer than six arguments, or
    whose first argument is not the string ["makeProof"].  A payload of
    the cross-chain manager that is not an argument list makes them
    panic. *)
Theorem scanNotify_passes_over (byBlock : option Z) (txHash : string)
    (notify : scom.NotifyEventInfo) :
  (scom.ContractAddress notify <> CCM_ADDRESS ->
   scanNotify byBlock txHash notify = Returns None)
  /\
  (scom.ContractAddress notify = CCM_ADDRESS ->
   (forall states, scom.States notify = VSlice states ->
      (len states < 6 -> scanNotify byBlock txHash notify = Returns None)
      /\ (nth_error states 0 <> Some (VString "makeProof") ->
          scanNotify byBlock txHash notify = Returns None))
   /\ ((forall states, scom.States notify <> VSlice states) ->
       scanNotify byBlock txHash notify = Panics)).
Proof.
  unfold scanNotify. split.
  - intros Ha. apply String.eqb_neq in Ha. now rewrite Ha.
  - intros Ha. rewrite Ha, String.eqb_refl. cbn [negb]. split.
    + intros states Hs. rewrite Hs. split.
      * intros Hl. apply Z.ltb_lt in Hl. now rewrite Hl.
      * intros Hm. destruct (len states <? 6); [reflexivity|].
        destruct (nth_error states 0) as [[m| | |]|]; try reflexivity.
        destruct (m =? "makeProof")%string eqn:E; [|reflexivity].
        apply String.eqb_eq in E. congruence.
    + intros Hs. destruct (scom.States notify) as [| |states|]; try reflexivity.
      now destruct (Hs states).
Qed.

Definition foreign (notify : scom.NotifyEventInfo) : Prop :=
  scom.ContractAddress notify <> CCM_ADDRESS.

Lemma firstMakeProof_foreign hash txHash : forall notifies,
  Forall foreign notifies ->
  firstMakeProof hash txHash notifies = Returns (None, Some (ErrNoEvent hash)).
Proof.
  induction notifies as [|n rest IH]; intros Hall; simpl; [reflexivity|].
  inversion Hall as [|? ? Hn Hrest]; subst.
  unfold scanNotify. apply String.eqb_neq in Hn. rewrite Hn. cbn [negb]. now apply IH.
Qed.

Lemma firstMakeProof_tx hash txHash : forall notifies tx err,
  firstMakeProof hash txHash notifies = Returns (Some tx, err) ->
  err = None /\ msg.DstChainId tx <> 0 /\ msg.PolyHash tx = txHash
  /\ msg.TxType_ tx = msg.POLY.
Proof.
  induction notifies as [|n rest IH]; intros tx err; simpl; [discriminate|].
  destruct (scanNotify None txHash n) as [[t|]|] eqn:Hn; [| |discriminate].
  - intros H; injection H as <- <-.
    destruct (scanNotify_tx _ _ _ _ Hn) as (_ & Hd & Hh & Ht & _). auto.
  - apply IH.
Qed.

(** X19.  [scanTx]: an error of the node is returned as it is; an event
    without any notification of the cross-chain manager gives the
    no-event error for the queried hash; and a transaction is only ever
    returned with a nil error, a destination chain other than 0, the type
    [POLY], and as hub hash the hash recorded in the event the node
    returned. *)
Theorem scanTx_result (node : Client) (hash : string) :
  (forall event e, GetSmartContractEvent node hash = (event, Some e) ->
                   scanTx node hash = Returns (None, Some e))
  /\
  (forall ev, GetSmartContractEvent node hash = (Some ev, None) ->
              Forall foreign (scom.Notify ev) ->
              scanTx node hash = Returns (None, Some (ErrNoEvent hash)))
  /\
  (forall tx err, scanTx node hash = Returns (Some tx, err) ->
     err = None /\ msg.DstChainId tx <> 0 /\ msg.TxType_ tx = msg.POLY
     /\ exists ev, GetSmartContractEvent node hash = (Some ev, None)
                   /\ msg.PolyHash tx = scom.TxHash ev).
Proof.
  unfold scanTx. split; [|split].
  - intros event e ->. reflexivity.
  - intros ev -> Hall. now apply firstMakeProof_foreign.
  - intros tx err. destruct (GetSmartContractEvent node hash) as [event [e|]];
      [discriminate|]. destruct event as [ev|]; [|discriminate].
    intros H. destruct (firstMakeProof_tx _ _ _ _ _ H) as (He & Hd & Hh & Ht).
    repeat split; auto. exists ev. auto.
Qed.

(** X20.  Validating a transaction whose hub hash has an event without
    any notification of the cross-chain manager returns the no-event
    error, which wraps neither the violation sentinel nor the
    proof-missing sentinel; and an error of the node's event query is
    returned as it is. *)
Theorem validate_without_makeProof (node : Client) (tx : msg.Tx) :
  (forall ev, GetSmartContractEvent node (msg.PolyHash tx) = (Some ev, None) ->
     Forall foreign (scom.Notify ev) ->
     validate node tx = Returns (Some (ErrNoEvent (msg.PolyHash tx)))
     /\ errors_Is (ErrNoEvent (msg.PolyHash tx)) ERR_TX_VOILATION = false
     /\ errors_Is (ErrNoEvent (msg.PolyHash tx)) ERR_TX_PROOF_MISSING = false)
  /\
  (forall event e, GetSmartContractEvent node (msg.PolyHash tx) = (event, Some e) ->
     validate node tx = Returns (Some e)).
Proof.
  split.
  - intros ev Hev Hall. unfold validate, scanTx. rewrite Hev.
    rewrite (firstMakeProof_foreign _ _ _ Hall). repeat split.
  - intros event e Hev. unfold validate, scanTx. now rewrite Hev.
Qed.

End WithChain.

(** *** A concrete chain

    Chain ids as on the main network (ONT 3, NEO 4, NEO3 14); a node
    whose every block and every hash carry one event with one
    cross-chain-manager notification of given arguments. *)
Module Example.

Definition CCM_ADDRESS : string := "0300000000000000000000000000000000000000".
Definition ONT : Z := 3.
Definition NEO : Z := 4.
Definition NEO3 : Z := 14.

Definition ReverseHex (s : string) : string :=
  hex_EncodeToString (rev (fst (hex_DecodeString s))).

Definition lower (c : ascii) : ascii :=
  let n := N_of_ascii c in
  if ((65 <=? n) && (n <=? 90))%N then ascii_of_N (n + 32) else c.

Fixpoint LowerHex (s : string) : string :=
  match s with
  | EmptyString => EmptyString
  | String c s' => String (lower c) (LowerHex s')
  end.

Definition unrepresentable (f : float) : Z := 0.

Definition event (args : list Value) : scom.SmartContactEvent :=
  {| scom.TxHash := "beef";
     scom.Notify := [ {| scom.ContractAddress := CCM_ADDRESS;
                         scom.States := VSlice args |} ] |}.

Definition node (args : list Value) : Client :=
  {| GetBlockHeightByTxHash := fun _ => (1000, None);
     GetHeaderByHeight := fun _ => (None, Some (SdkError "no header"));
     GetMerkleProof := fun _ _ => ("", Some (SdkError "no proof"));
     GetCrossStatesProof := fun _ _ => ("", Some (SdkError "no proof"));
     GetSmartContractEvent := fun _ => (Some (event args), None);
     GetSmartContractEventByBlock := fun _ => ([event args], None) |}.

(** The arguments of the scenario. *)
Definition args : list Value :=
  [VString "makeProof"; VFloat64 2%float; VFloat64 3%float; VString "tx123";
   VFloat64 1000%float; VString "stateKey1"].

(** A proof derivation that finds the parameter's destination contract
    [[xaa; xbb]] under the key ["stateKey1"], and nothing under any other
    key. *)
Definition getProof (node : Client) (height : Z) (key : string)
  : outcome (option ccom.ToMerkleValue.t * option error) :=
  if (key =? "stateKey1")%string then
    Returns (Some {| ccom.ToMerkleValue.TxHash := [];
                     ccom.ToMerkleValue.FromChainID := 2;
                     ccom.ToMerkleValue.MakeTxParam :=
                       Some {| ccom.ToContractAddress := [xaa; xbb];
                               ccom.Method := "unlock"; ccom.Args := [] |} |}, None)
  else Returns (None, None).

Definition Scan : Client -> Z -> outcome (list msg.Tx * option error) :=
  Listener.Scan CCM_ADDRESS NEO NEO3 ONT ReverseHex unrepresentable unrepresentable.

Definition validate : Client -> msg.Tx -> outcome (option error) :=
  Listener.validate CCM_ADDRESS NEO NEO3 ONT ReverseHex LowerHex unrepresentable
    unrepresentable getProof.

(** The transaction of the scenario. *)
Definition tx1000 : msg.Tx :=
  makeProofTx NEO NEO3 ONT ReverseHex 3 "stateKey1" 1000 "beef" "tx123" 2.

(** A claimed transaction: chain ids and destination proxy. *)
Definition claimed (src dst : Z) (proxy : string) : msg.Tx :=
  {| msg.TxType_ := msg.POLY; msg.Attempts := 0; msg.TxId := "tx123";
     msg.MerkleValue := None; msg.Param := None;
     msg.SrcHash := ""; msg.SrcHeight := 0; msg.SrcChainId := src;
     msg.SrcProof := ""; msg.SrcEvent := ""; msg.SrcProofHeight := 0;
     msg.PolyHash := "beef"; msg.PolyHeight := 1000; msg.PolyKey := "stateKey1";
     msg.PolyHeader := None; msg.AnchorHeader := None; msg.AnchorProof := "";
     msg.AuditPath := []; msg.DstChainId := dst; msg.DstPolyEpochStartHeight := 0;
     msg.DstPolyKeepers := []; msg.DstProxy := proxy; msg.DstSigs := [] |}.

End Example.



(** The scenario's transaction claimed with source chain 5 is a
    violation; claimed with proxy ["AABB"] it validates; claimed with
    proxy ["AACC"] it is a violation. *)
Lemma validate_mismatch_is_violation_witness :
  Example.validate (Example.node Example.args) (Example.claimed 5 3 "AABB")
  = Returns (Some (ErrSrcChainMismatch 5 2))
  /\ Example.validate (Example.node Example.args) (Example.claimed 2 3 "AABB")
     = Returns None
  /\ exists e,
       Example.validate (Example.node Example.args) (Example.claimed 2 3 "AACC")
       = Returns (Some e)
       /\ e = ErrToContractMismatch "aacc" "aabb"
       /\ errors_Is e ERR_TX_VOILATION = true.
Proof.
  pose proof (fun tx =>
    validate_mismatch_is_violation Example.CCM_ADDRESS Example.NEO Example.NEO3
      Example.ONT Example.ReverseHex Example.LowerHex Example.unrepresentable
      Example.unrepresentable Example.getProof (Example.node Example.args)
      (Example.node Example.args) [] tx Example.tx1000 eq_refl) as H.
  split; [|split].
  - destruct (H (Example.claimed 5 3 "AABB")) as (Hsrc & _).
    destruct (Hsrc ltac:(discriminate)) as (e & Hv & -> & _). exact Hv.
  - destruct (H (Example.claimed 2 3 "AABB")) as (_ & _ & Hp & _).
    exact (proj2 (Hp eq_refl eq_refl _ _ eq_refl eq_refl) eq_refl).
  - destruct (H (Example.claimed 2 3 "AACC")) as (_ & _ & Hp & _).
    exact (proj1 (Hp eq_refl eq_refl _ _ eq_refl eq_refl) ltac:(discriminate)).
Defined.

(** *** [ScanDst] *)

Section ScanDst.

(** [l.sdk.Node()], used by [Scan] and by the [Submitter] that
    [ScanDst] builds around the same SDK. *)
Variable node : Client.
Variable CCM_ADDRESS : string.
Variables NEO NEO3 ONT : Z.
Variable ReverseHex : string -> string.
Variable uint64_unrepresentable : float -> Z.
Variable uint32_unrepresentable : float -> Z.
Variable ParseAuditPath : bytes -> bytes.
Variable Deserialization : bytes -> ccom.ToMerkleValue.t * option error.

(** [tx.MerkleValue = v]. *)
Definition set_MerkleValue (v : option ccom.ToMerkleValue.t) (tx : msg.Tx) : msg.Tx :=
  msg.set_MerkleValue_AuditPath v (msg.AuditPath tx) tx.

(** The loop of [ScanDst] over the scanned transactions: the list
    returned holds the transactions as the loop left them. *)
Fixpoint attachProofs (txs : list msg.Tx) (cs : list Call)
  : outcome (list msg.Tx * option error) * list Call :=
  match txs with
  | [] => (Returns ([], None), cs)
  | tx :: rest =>
      match Composer.GetProof node ParseAuditPath Deserialization
              (msg.PolyHeight tx) (msg.PolyKey tx) tx cs with
      | (Panics, _, cs1) => (Panics, cs1)
      | (Returns (param, _, _, err), _, cs1) =>
          let tx1 := set_MerkleValue param tx in
          match err with
          | Some e => (Returns (tx1 :: rest, Some e), cs1)
          | None =>
              match attachProofs rest cs1 with
              | (Returns (rest1, err1), cs2) => (Returns (tx1 :: rest1, err1), cs2)
              | (Panics, cs2) => (Panics, cs2)
              end
          end
      end
  end.

Definition ScanDst (height : Z) : outcome (list msg.Tx * option error) * list Call :=
  match Scan CCM_ADDRESS NEO NEO3 ONT ReverseHex uint64_unrepresentable
          uint32_unrepresentable node height with
  | Panics => (Panics, [])
  | Returns (txs, Some e) => (Returns (txs, Some e), [])
  | Returns (txs, None) => attachProofs txs []
  end.

(** The steps of [GetProof] for a transaction's height and key. *)
Definition stateProof (tx : msg.Tx) : string * option error :=
  GetCrossStatesProof node (msg.PolyHeight tx) (msg.PolyKey tx).

Definition auditPath (tx : msg.Tx) : bytes * option error :=
  hex_DecodeString (fst (stateProof tx)).

Definition merkleValue (tx : msg.Tx) : ccom.ToMerkleValue.t * option error :=
  Deserialization (ParseAuditPath (fst (auditPath tx))).

Definition provable (tx : msg.Tx) : Prop :=
  snd (stateProof tx) = None /\ snd (auditPath tx) = None /\ snd (merkleValue tx) = None.

Definition proofQuery (tx : msg.Tx) : Call :=
  CallGetCrossStatesProof (msg.PolyHeight tx) (msg.PolyKey tx).

Lemma attachProofs_provable : forall txs cs,
  Forall provable txs ->
  attachProofs txs cs
  = (Returns (map (fun tx => set_MerkleValue (Some (fst (merkleValue tx))) tx) txs, None),
     cs ++ map proofQuery txs).
Proof.
  induction txs as [|tx rest IH]; intros cs Hall; cbn [attachProofs map].
  - now rewrite app_nil_r.
  - inversion Hall as [|? ? (H1 & H2 & H3) Hrest]; subst.
    unfold Composer.GetProof, Composer.bind, Composer.query, Composer.ret.
    unfold merkleValue, auditPath, stateProof in *.
    destruct (GetCrossStatesProof node (msg.PolyHeight tx) (msg.PolyKey tx))
      as [proof e1]; cbn [fst snd] in *; subst e1.
    destruct (hex_DecodeString proof) as [path e2]; cbn [fst snd] in *; subst e2.
    destruct (Deserialization (ParseAuditPath path)) as [param e3];
      cbn [fst snd] in *; subst e3.
    rewrite (IH _ Hrest). unfold proofQuery at 2. now rewrite <- app_assoc.
Qed.

Lemma attachProofs_query_fails : forall pre cs tx post e,
  Forall provable pre ->
  snd (stateProof tx) = Some e ->
  attachProofs (pre ++ tx :: post) cs
  = (Returns (map (fun t => set_MerkleValue (Some (fst (merkleValue t))) t) pre
              ++ set_MerkleValue None tx :: post,
              Some (ErrGetCrossStatesProof e)),
     cs ++ map proofQuery pre ++ [proofQuery tx]).
Proof.
  induction pre as [|t pre IH]; intros cs tx post e Hall He; cbn [attachProofs map app].
  - unfold Composer.GetProof, Composer.bind, Composer.query, Composer.ret.
    unfold stateProof in He.
    destruct (GetCrossStatesProof node (msg.PolyHeight tx) (msg.PolyKey tx))
      as [proof e1]; cbn [snd] in He; subst e1. reflexivity.
  - inversion Hall as [|? ? (H1 & H2 & H3) Hrest]; subst.
    unfold Composer.GetProof, Composer.bind, Composer.query, Composer.ret.
    unfold merkleValue, auditPath, stateProof in H1, H2, H3 |- *.
    destruct (GetCrossStatesProof node (msg.PolyHeight t) (msg.PolyKey t))
      as [proof e1]; cbn [fst snd] in *; subst e1.
    destruct (hex_DecodeString proof) as [path e2]; cbn [fst snd] in *; subst e2.
    destruct (Deserialization (ParseAuditPath path)) as [param e3];
      cbn [fst snd] in *; subst e3.
    rewrite (IH _ _ _ _ Hrest He). unfold proofQuery at 3. now rewrite <- !app_assoc.
Qed.

(** X21.  [ScanDst] hands back the transactions of [Scan], in the same
    order.  An error of [Scan] is passed on with no proof query.  When
    the proof of every scanned transaction is retrieved, each transaction
    comes back with the deserialized value as its Merkle value and
    otherwise unchanged, after exactly one proof query per transaction, in
    order.  When the query for one of them fails, the transactions before
    it carry their Merkle values, that one has a nil Merkle value, the
    ones after it are untouched and not queried, and the error returned is
    that query's. *)
Theorem ScanDst_result (height : Z) (txs : list msg.Tx) :
  let scan := Scan CCM_ADDRESS NEO NEO3 ONT ReverseHex uint64_unrepresentable
                uint32_unrepresentable node height in
  let proved := map (fun t => set_MerkleValue (Some (fst (merkleValue t))) t) in
  (forall e, scan = Returns (txs, Some e) -> ScanDst height = (Returns (txs, Some e), []))
  /\
  (scan = Returns (txs, None) ->
   (Forall provable txs ->
    ScanDst height = (Returns (proved txs, None), map proofQuery txs))
   /\
   (forall pre tx post e,
      txs = pre ++ tx :: post -> Forall provable pre -> snd (stateProof tx) = Some e ->
      ScanDst height
      = (Returns (proved pre ++ set_MerkleValue None tx :: post,
                  Some (ErrGetCrossStatesProof e)),
         map proofQuery pre ++ [proofQuery tx]))).
Proof.
  intros scan proved. unfold ScanDst. fold scan. split.
  - intros e ->. reflexivity.
  - intros ->. split.
    + intros Hall. now rewrite (attachProofs_provable txs [] Hall).
    + intros pre tx post e -> Hall He.
      now rewrite (attachProofs_query_fails pre [] tx post e Hall He).
Qed.

End ScanDst.

(** *** The proof-missing error *)

(** The errors of [hex.DecodeString] wrap no sentinel. *)
Lemma hex_DecodeString_error : forall s bs e s0,
  hex_DecodeString s = (bs, Some e) -> errors_Is e s0 = false.
Proof.
  assert (H : forall s,
             (forall bs e s0, hex_DecodeString s = (bs, Some e) -> errors_Is e s0 = false)
             /\ (forall c bs e s0, hex_DecodeString (String c s) = (bs, Some e) ->
                                   errors_Is e s0 = false)).
  { induction s as [|q rest [IH1 IH2]]; split.
    - discriminate.
    - intros c bs e s0. cbn [hex_DecodeString].
      destruct (fromHexChar c); intros H; injection H as _ <-; now destruct s0.
    - exact (IH2 q).
    - intros c bs e s0. cbn [hex_DecodeString].
      destruct (fromHexChar c); [|intros H; injection H as _ <-; now destruct s0].
      destruct (fromHexChar q); [|intros H; injection H as _ <-; now destruct s0].
      destruct (hex_DecodeString rest) as [bs' [e'|]] eqn:E; [|discriminate].
      intros H; injection H as _ <-. exact (IH1 _ _ s0 eq_refl). }
  intros s. exact (proj1 (H s)).
Qed.

Section ProofMissing.

Variable CCM_ADDRESS : string.
Variables NEO NEO3 ONT : Z.
Variable ReverseHex : string -> string.
Variable LowerHex : string -> string.
Variable uint64_unrepresentable : float -> Z.
Variable uint32_unrepresentable : float -> Z.
Variable ParseAuditPath : bytes -> bytes.
Variable Deserialization : bytes -> ccom.ToMerkleValue.t * option error.

(** Modelled from the spec: [Submitter.getProof(node, height, key)],
    called by [validate], is not in the source.  The spec has the
    listener validate with the same proof derivation as the composer:
    this is [GetProof] (the direct key lookup) with [node] in place of
    [s.sdk.Node()], first and last result. *)
Definition getProof (node : Client) (height : Z) (key : string)
  : outcome (option ccom.ToMerkleValue.t * option error) :=
  let '(proof, err) := GetCrossStatesProof node height key in
  match err with
  | Some e => Returns (None, Some (ErrGetCrossStatesProof e))
  | None =>
      let '(path, err) := hex_DecodeString proof in
      match err with
      | Some e => Returns (None, Some e)
      | None =>
          let value := ParseAuditPath path in
          let '(param, err) := Deserialization value in
          match err with
          | Some e => Returns (Some param, Some (ErrDeserialization e))
          | None => Returns (Some param, None)
          end
      end
  end.

Local Abbreviation scanTx' :=
  (scanTx CCM_ADDRESS NEO NEO3 ONT ReverseHex uint64_unrepresentable
     uint32_unrepresentable).
Local Abbreviation validate' :=
  (validate CCM_ADDRESS NEO NEO3 ONT ReverseHex LowerHex uint64_unrepresentable
     uint32_unrepresentable getProof).
Local Abbreviation Validate' :=
  (Validate CCM_ADDRESS NEO NEO3 ONT ReverseHex LowerHex uint64_unrepresentable
     uint32_unrepresentable getProof).

(** [getProof] returns what [GetProof] returns on the same node. *)
Lemma getProof_is_GetProof (node : Client) (height : Z) (key : string)
    (tx : msg.Tx) (cs : list Call) :
  exists path evt,
    Composer.GetProof node ParseAuditPath Deserialization height key tx cs
    = (match getProof node height key with
       | Returns (param, err) => Returns (param, path, evt, err)
       | Panics => Panics
       end, tx, cs ++ [CallGetCrossStatesProof height key]).
Proof.
  unfold Composer.GetProof, Composer.bind, Composer.query, Composer.ret, getProof.
  destruct (GetCrossStatesProof node height key) as [proof [e|]]; [now eexists; eexists|].
  destruct (hex_DecodeString proof) as [path [e|]]; [now eexists; eexists|].
  destruct (Deserialization (ParseAuditPath path)) as [param [e|]]; now eexists; eexists.
Qed.

Lemma getProof_value_or_error (node : Client) (height : Z) (key : string) :
  getProof node height key <> Returns (None, None).
Proof.
  unfold getProof.
  destruct (GetCrossStatesProof node height key) as [proof [e|]]; [discriminate|].
  destruct (hex_DecodeString proof) as [path [e|]]; [discriminate|].
  destruct (Deserialization (ParseAuditPath path)) as [param [e|]]; discriminate.
Qed.

Lemma getProof_error (node : Client) (height : Z) (key : string) value e s :
  getProof node height key = Returns (value, Some e) -> errors_Is e s = false.
Proof.
  unfold getProof.
  destruct (GetCrossStatesProof node height key) as [proof [e1|]].
  { intros H; injection H as _ <-. now destruct s. }
  destruct (hex_DecodeString proof) as [path [e2|]] eqn:Hhex.
  { intros H; injection H as _ <-. exact (hex_DecodeString_error _ _ _ s Hhex). }
  destruct (Deserialization (ParseAuditPath path)) as [param [e3|]]; [|discriminate].
  intros H; injection H as _ <-. now destruct s.
Qed.

(** The loop of [scanTx] ends in a panic, with a transaction, or with the
    no-event error. *)
Lemma firstMakeProof_cases hash txHash : forall notifies,
  let r := firstMakeProof CCM_ADDRESS NEO NEO3 ONT ReverseHex uint64_unrepresentable
             uint32_unrepresentable hash txHash notifies in
  r = Panics \/ (exists t, r = Returns (Some t, None))
  \/ r = Returns (None, Some (ErrNoEvent hash)).
Proof.
  induction notifies as [|n rest IH]; cbn [firstMakeProof]; [auto|].
  destruct (scanNotify _ _ _ _ _ _ _ None txHash n) as [[t|]|]; eauto.
Qed.

(** The errors of [scanTx]: the node's, or the no-event error. *)
Lemma scanTx_error (node : Client) (hash : string) x e :
  scanTx' node hash = Returns (x, Some e) ->
  (exists event, GetSmartContractEvent node hash = (event, Some e))
  \/ e = ErrNoEvent hash.
Proof.
  unfold scanTx.
  destruct (GetSmartContractEvent node hash) as [event [e1|]].
  { intros H; injection H as _ <-. left; eauto. }
  destruct event as [ev|]; [|discriminate].
  destruct (firstMakeProof_cases hash (scom.TxHash ev) (scom.Notify ev))
    as [-> | [(t & ->) | ->]]; [discriminate|discriminate|].
  intros H; injection H as _ <-. now right.
Qed.

Lemma validate_error_not_missing (node : Client) (tx : msg.Tx) :
  (forall event e, GetSmartContractEvent node (msg.PolyHash tx) = (event, Some e) ->
                   errors_Is e ERR_TX_PROOF_MISSING = false) ->
  forall e, validate' node tx = Returns (Some e) ->
            errors_Is e ERR_TX_PROOF_MISSING = false.
Proof.
  intros Hnode e. unfold validate.
  destruct (scanTx' node (msg.PolyHash tx)) as [[[t|] [e1|]]|] eqn:Hscan;
    try discriminate.
  - intros H; injection H as <-.
    destruct (scanTx_error _ _ _ _ Hscan) as [(event & Hev) | ->];
      [exact (Hnode _ _ Hev)|reflexivity].
  - destruct (negb (msg.SrcChainId tx =? msg.SrcChainId t));
      [intros H; injection H as <-; reflexivity|].
    destruct (negb (msg.DstChainId tx =? msg.DstChainId t));
      [intros H; injection H as <-; reflexivity|].
    destruct (getProof node (msg.PolyHeight t) (msg.PolyKey t))
      as [[[value|] [e2|]]|] eqn:Hp; [| | | |discriminate].
    + intros H; injection H as <-. exact (getProof_error _ _ _ _ _ _ Hp).
    + destruct (ccom.ToMerkleValue.MakeTxParam value); [|discriminate].
      destruct (negb _); [|discriminate].
      intros H; injection H as <-; reflexivity.
    + intros H; injection H as <-. exact (getProof_error _ _ _ _ _ _ Hp).
    + now destruct (getProof_value_or_error _ _ _ Hp).
  - intros H; injection H as <-.
    destruct (scanTx_error _ _ _ _ Hscan) as [(event & Hev) | ->];
      [exact (Hnode _ _ Hev)|reflexivity].
  - now destruct (scanTx_tx_or_error _ _ _ _ _ _ _ _ _ Hscan).
Qed.

(** C6.  [validate] has two places that return the proof-missing error:
    after [scanTx] returned neither a transaction nor an error, and after
    the proof derivation returned neither a value nor an error.  Neither
    happens.  So, unless the event query of the node itself fails with
    such an error, [validate] returns no error that wraps the
    proof-missing sentinel, and neither does [Validate].  What the
    absence of a proof gives instead: when the event the node returns
    for the hub hash yields no transaction, [validate] returns the
    no-event error; when the proof derivation fails, [validate] returns
    its error; and neither wraps the proof-missing sentinel. *)
Theorem validate_never_proof_missing (node primary : Client)
    (allNodes : list Client) (tx : msg.Tx) :
  scanTx' node (msg.PolyHash tx) <> Returns (None, None)
  /\
  (forall height key, getProof node height key <> Returns (None, None))
  /\
  ((forall event e, GetSmartContractEvent node (msg.PolyHash tx) = (event, Some e) ->
                    errors_Is e ERR_TX_PROOF_MISSING = false) ->
   forall e, validate' node tx = Returns (Some e) ->
             errors_Is e ERR_TX_PROOF_MISSING = false)
  /\
  ((forall event e, GetSmartContractEvent primary (msg.PolyHash tx) = (event, Some e) ->
                    errors_Is e ERR_TX_PROOF_MISSING = false) ->
   forall e, Validate' primary allNodes tx = Returns (Some e) ->
             errors_Is e ERR_TX_PROOF_MISSING = false)
  /\
  (forall ev, GetSmartContractEvent node (msg.PolyHash tx) = (Some ev, None) ->
     (forall t, scanTx' node (msg.PolyHash tx) <> Returns (Some t, None)) ->
     scanTx' node (msg.PolyHash tx) <> Panics ->
     validate' node tx = Returns (Some (ErrNoEvent (msg.PolyHash tx)))
     /\ errors_Is (ErrNoEvent (msg.PolyHash tx)) ERR_TX_PROOF_MISSING = false)
  /\
  (forall t value e,
     scanTx' node (msg.PolyHash tx) = Returns (Some t, None) ->
     msg.SrcChainId tx = msg.SrcChainId t ->
     msg.DstChainId tx = msg.DstChainId t ->
     getProof node (msg.PolyHeight t) (msg.PolyKey t) = Returns (value, Some e) ->
     validate' node tx = Returns (Some e)
     /\ errors_Is e ERR_TX_PROOF_MISSING = false).
Proof.
  split; [apply scanTx_tx_or_error|].
  split; [intros height key; apply getProof_value_or_error|].
  split; [apply validate_error_not_missing|].
  split; [|split].
  - intros Hnode e. unfold Validate.
    pose proof (validate_error_not_missing primary tx Hnode) as Hv.
    destruct (validate' primary tx) as [[e1|]|]; [| |discriminate].
    + destruct (otherNodes_keeps_error CCM_ADDRESS NEO NEO3 ONT ReverseHex LowerHex
                  uint64_unrepresentable uint32_unrepresentable getProof
                  allNodes tx (Some e1)) as [-> | ->]; [|discriminate].
      intros H; injection H as <-. now apply Hv.
    + discriminate.
  - intros ev Hev Hnone Hret. split; [|reflexivity].
    unfold validate. unfold scanTx in *. rewrite Hev in *.
    destruct (firstMakeProof_cases (msg.PolyHash tx) (scom.TxHash ev) (scom.Notify ev))
      as [H | [(t & H) | H]].
    + now destruct Hret.
    + now destruct (Hnone t).
    + now rewrite H.
  - intros t value e Hscan Hsrc Hdst Hp. split; [|exact (getProof_error _ _ _ _ _ _ Hp)].
    unfold validate. apply Z.eqb_eq in Hsrc, Hdst.
    rewrite Hscan, Hsrc, Hdst, Hp. cbn [negb]. now destruct value.
Qed.

End ProofMissing.

(** *** Validation without a proof

    Two nodes on which no proof can be derived for the hub hash
    ["beef"]: one whose event for the hash only has a notification of
    another contract, and the node of the scenario, whose state-proof
    query fails. *)
Module Absent.

Definition node : Client :=
  {| GetBlockHeightByTxHash := fun _ => (1000, None);
     GetHeaderByHeight := fun _ => (None, Some (SdkError "no header"));
     GetMerkleProof := fun _ _ => ("", Some (SdkError "no proof"));
     GetCrossStatesProof := fun _ _ => ("", Some (SdkError "no proof"));
     GetSmartContractEvent := fun _ =>
       (Some {| scom.TxHash := "beef";
                scom.Notify := [ {| scom.ContractAddress := "other";
                                    scom.States := VOther |} ] |}, None);
     GetSmartContractEventByBlock := fun _ => ([], None) |}.

Definition getProof
  : Client -> Z -> string -> outcome (option ccom.ToMerkleValue.t * option error) :=
  Listener.getProof (fun b => b) Composer.Example.Deserialization.

Definition validate : Client -> msg.Tx -> outcome (option error) :=
  Listener.validate Example.CCM_ADDRESS Example.NEO Example.NEO3 Example.ONT
    Example.ReverseHex Example.LowerHex Example.unrepresentable Example.unrepresentable
    getProof.

Definition Validate : Client -> list Client -> msg.Tx -> outcome (option error) :=
  Listener.Validate Example.CCM_ADDRESS Example.NEO Example.NEO3 Example.ONT
    Example.ReverseHex Example.LowerHex Example.unrepresentable Example.unrepresentable
    getProof.

End Absent.

(** The claimed transaction of the scenario validated where no proof can
    be derived: without a cross-chain-manager notification [validate]
    returns the no-event error, and so does [Validate] with a second node
    of the same kind; with a failing state-proof query [validate] returns
    the query's error.  None of them is the proof-missing error. *)
Lemma validate_never_proof_missing_witness :
  (Absent.validate Absent.node (Example.claimed 2 3 "AABB")
   = Returns (Some (ErrNoEvent "beef"))
   /\ errors_Is (ErrNoEvent "beef") ERR_TX_PROOF_MISSING = false)
  /\
  (Absent.Validate Absent.node [Absent.node] (Example.claimed 2 3 "AABB")
   = Returns (Some (ErrNoEvent "beef"))
   /\ errors_Is (ErrNoEvent "beef") ERR_TX_PROOF_MISSING = false)
  /\
  (Absent.validate (Example.node Example.args) (Example.claimed 2 3 "AABB")
   = Returns (Some (ErrGetCrossStatesProof (SdkError "no proof")))
   /\ errors_Is (ErrGetCrossStatesProof (SdkError "no proof")) ERR_TX_PROOF_MISSING
      = false).
Proof.
  pose proof (fun node primary =>
    validate_never_proof_missing Example.CCM_ADDRESS Example.NEO Example.NEO3
      Example.ONT Example.ReverseHex Example.LowerHex Example.unrepresentable
      Example.unrepresentable (fun b => b) Composer.Example.Deserialization
      node primary [Absent.node] (Example.claimed 2 3 "AABB")) as H.
  split; [|split].
  - destruct (H Absent.node Absent.node) as (_ & _ & _ & _ & Habsent & _).
    apply (Habsent _ eq_refl); [intros t|]; vm_compute; discriminate.
  - destruct (H Absent.node Absent.node) as (_ & _ & _ & HValidate & _).
    split; [vm_compute; reflexivity|].
    apply HValidate; [intros event e; vm_compute; discriminate|].
    vm_compute; reflexivity.
  - destruct (H (Example.node Example.args) Absent.node) as (_ & _ & _ & _ & _ & Hfails).
    exact (Hfails Example.tx1000 None _ eq_refl eq_refl eq_refl eq_refl).
Defined.

(** [Scan] at height [2^32 + 1000] on the node of the scenario. *)
Lemma Scan_transactions_witness :
  (@None error <> None -> [Example.tx1000] = [])
  /\ Forall
       (scanned (2 ^ 32 + 1000)
          (fst (GetSmartContractEventByBlock (Example.node Example.args)
                  (uint32 (2 ^ 32 + 1000)))))
       [Example.tx1000].
Proof.
  exact (Scan_transactions Example.CCM_ADDRESS Example.NEO Example.NEO3 Example.ONT
           Example.ReverseHex Example.unrepresentable Example.unrepresentable
           (Example.node Example.args) (2 ^ 32 + 1000) [Example.tx1000] None eq_refl).
Defined.

(** A cross-chain-manager notification with five arguments, of which
    none has the expected type. *)
Lemma scanNotify_passes_over_witness :
  scanNotify Example.CCM_ADDRESS Example.NEO Example.NEO3 Example.ONT Example.ReverseHex
    Example.unrepresentable Example.unrepresentable None "beef"
    {| scom.ContractAddress := Example.CCM_ADDRESS;
       scom.States := VSlice [VOther; VOther; VOther; VOther; VOther] |}
  = Returns None.
Proof.
  refine (proj1 (proj1 (proj2 (scanNotify_passes_over Example.CCM_ADDRESS Example.NEO
                                  Example.NEO3 Example.ONT Example.ReverseHex
                                  Example.unrepresentable Example.unrepresentable
                                  None "beef"
                                  {| scom.ContractAddress := Example.CCM_ADDRESS;
                                     scom.States :=
                                       VSlice [VOther; VOther; VOther; VOther; VOther] |})
                          eq_refl) _ eq_refl) _).
  unfold len; simpl; lia.
Defined.

Lemma scanTx_result_witness :
  @None error = None /\ msg.DstChainId Example.tx1000 <> 0
  /\ msg.TxType_ Example.tx1000 = msg.POLY
  /\ exists ev,
       GetSmartContractEvent (Example.node Example.args) "any hash" = (Some ev, None)
       /\ msg.PolyHash Example.tx1000 = scom.TxHash ev.
Proof.
  exact (proj2 (proj2 (scanTx_result Example.CCM_ADDRESS Example.NEO Example.NEO3
                         Example.ONT Example.ReverseHex Example.unrepresentable
                         Example.unrepresentable (Example.node Example.args) "any hash"))
           Example.tx1000 None eq_refl).
Defined.

(** A node whose event for the hash only has a notification of another
    contract. *)
Lemma validate_without_makeProof_witness :
  let node :=
    {| GetBlockHeightByTxHash := fun _ => (1000, None);
       GetHeaderByHeight := fun _ => (None, Some (SdkError "no header"));
       GetMerkleProof := fun _ _ => ("", Some (SdkError "no proof"));
       GetCrossStatesProof := fun _ _ => ("", Some (SdkError "no proof"));
       GetSmartContractEvent := fun _ =>
         (Some {| scom.TxHash := "beef";
                  scom.Notify := [ {| scom.ContractAddress := "other";
                                      scom.States := VOther |} ] |}, None);
       GetSmartContractEventByBlock := fun _ => ([], None) |} in
  Example.validate node (Example.claimed 2 3 "AABB") = Returns (Some (ErrNoEvent "beef"))
  /\ errors_Is (ErrNoEvent "beef") ERR_TX_VOILATION = false
  /\ errors_Is (ErrNoEvent "beef") ERR_TX_PROOF_MISSING = false.
Proof.
  intros node.
  refine (proj1 (validate_without_makeProof Example.CCM_ADDRESS Example.NEO Example.NEO3
                   Example.ONT Example.ReverseHex Example.LowerHex
                   Example.unrepresentable Example.unrepresentable Example.getProof
                   node (Example.claimed 2 3 "AABB")) _ eq_refl _).
  repeat constructor. discriminate.
Defined.

(** The scenario's block on a node whose state proofs decode. *)
Lemma ScanDst_result_witness :
  let node :=
    {| GetBlockHeightByTxHash := fun _ => (1000, None);
       GetHeaderByHeight := fun _ => (None, Some (SdkError "no header"));
       GetMerkleProof := fun _ _ => ("", Some (SdkError "no proof"));
       GetCrossStatesProof := fun _ _ => ("0a0b", None);
       GetSmartContractEvent := fun _ => (Some (Example.event Example.args), None);
       GetSmartContractEventByBlock := fun _ => ([Example.event Example.args], None) |} in
  ScanDst node Example.CCM_ADDRESS Example.NEO Example.NEO3 Example.ONT
    Example.ReverseHex Example.unrepresentable Example.unrepresentable (fun b => b)
    Composer.Example.Deserialization 1000
  = (Returns
       ([set_MerkleValue (Some (fst (Composer.Example.Deserialization [x0a; x0b])))
           Example.tx1000], None),
     [CallGetCrossStatesProof 1000 "stateKey1"]).
Proof.
  intros node.
  refine (proj1 (proj2 (ScanDst_result node Example.CCM_ADDRESS Example.NEO Example.NEO3
                          Example.ONT Example.ReverseHex Example.unrepresentable
                          Example.unrepresentable (fun b => b)
                          Composer.Example.Deserialization 1000 [Example.tx1000])
                   eq_refl) _).
  repeat constructor.
Defined.

End Listener.
